(** * ExtensionCraft: traffic interception and protocol decoding engine

    A shallow embedding of the TypeScript sources of the engine
    (the hooks of chapter 06 and the protobuf tooling of chapter 07)
    and the proofs of the properties its specification states.

    Conventions of the embedding.
    - A JavaScript string is a [string] of ASCII characters; the
      case mappings and character classes below are the ASCII ones.
    - A JavaScript number that holds an integer is a [Z]; the places where
      the double representation matters (the connection counter) write the
      rounding out.
    - An [async] function is modelled by the value its promise settles to:
      [Return v] for a fulfilled promise, [Throw e] for a rejected one.
    - An object of the platform or of an external library (a [Response], a
      protobufjs [Root]) is a record of what its methods answer. *)

From Stdlib Require Import ZArith List Ascii String Bool Lia.
From Stdlib Require Import DecimalString DecimalZ Sorted.
From stdpp Require Import base option list gmap strings.

Set Warnings "-register-all,-abstract-large-number".
Local Open Scope Z_scope.

(* ================================================================== *)
(** * JavaScript values, exceptions and strings *)
(* ================================================================== *)

(** The values that flow through the engine as [any]. *)
Inductive JsVal : Type :=
| JUndefined
| JNull
| JBool (b : bool)
| JNum (n : Z)
| JStr (s : string)
| JArr (items : list JsVal)
| JObj (fields : list (string * JsVal)).

(** What a [throw] carries. *)
Inductive Thrown : Type :=
| ErrorObj (name message : string)
| ThrownValue (v : JsVal).

(** Outcome of a computation that may throw (or of an awaited promise). *)
Inductive Exc (A : Type) : Type :=
| Return (a : A)
| Throw (e : Thrown).
Arguments Return {A} a.
Arguments Throw {A} e.

#[global] Instance Exc_ret : MRet Exc := fun A a => Return a.
#[global] Instance Exc_bind : MBind Exc := fun A B f c =>
  match c with
  | Return a => f a
  | Throw e => Throw e
  end.

(** [try { c } catch (e) { h e }] *)
Definition try_catch {A} (c : Exc A) (h : Thrown -> Exc A) : Exc A :=
  match c with
  | Return a => Return a
  | Throw e => h e
  end.

Module JS.

(** ** Characters *)

Definition code (c : ascii) : nat := nat_of_ascii c.

Definition between (lo hi : nat) (c : ascii) : bool :=
  (Nat.leb lo (code c) && Nat.leb (code c) hi)%bool.

Definition is_upper : ascii -> bool := between 65 90.
Definition is_lower : ascii -> bool := between 97 122.
Definition is_digit : ascii -> bool := between 48 57.

(** [\w] is [[A-Za-z0-9_]]. *)
Definition is_word (c : ascii) : bool :=
  (is_upper c || is_lower c || is_digit c || Nat.eqb (code c) 95)%bool.

(** [\s] on ASCII: tab, line feed, vertical tab, form feed, carriage
    return and space. *)
Definition is_space (c : ascii) : bool :=
  (between 9 13 c || Nat.eqb (code c) 32)%bool.

(** The case mappings on ASCII: the letters [A] to [Z] and [a] to [z].
    JavaScript maps characters outside ASCII too; what depends on the
    mapping is stated for ASCII text. *)
Definition lower_char (c : ascii) : ascii :=
  if is_upper c then ascii_of_nat (code c + 32) else c.
Definition upper_char (c : ascii) : ascii :=
  if is_lower c then ascii_of_nat (code c - 32) else c.

(** ** Strings *)

Fixpoint map_string (f : ascii -> ascii) (s : string) : string :=
  match s with
  | EmptyString => EmptyString
  | String c r => String (f c) (map_string f r)
  end.

Definition toLowerCase : string -> string := map_string lower_char.
Definition toUpperCase : string -> string := map_string upper_char.

(** A string is truthy when it is not empty. *)
Definition truthy_string (s : string) : bool :=
  match s with EmptyString => false | String _ _ => true end.

(** [s.startsWith(p)], and the rest of [s] after [p]. *)
Fixpoint strip_prefix (p s : string) : option string :=
  match p, s with
  | EmptyString, _ => Some s
  | String a p', String b s' =>
      if Ascii.eqb a b then strip_prefix p' s' else None
  | String _ _, EmptyString => None
  end.

(** [hay.includes(needle)] *)
Fixpoint includes (needle hay : string) : bool :=
  match strip_prefix needle hay with
  | Some _ => true
  | None =>
      match hay with
      | EmptyString => false
      | String _ r => includes needle r
      end
  end.

(** The line feed, as a string. *)
Definition LF : string := String (ascii_of_nat 10) EmptyString.

(** The double quote, as a string. *)
Definition quote : string := String (ascii_of_nat 34) EmptyString.

(** [s.split('\n')] *)
Fixpoint split_lines (s : string) : list string :=
  match s with
  | EmptyString => [EmptyString]
  | String c r =>
      if Nat.eqb (code c) 10 then EmptyString :: split_lines r
      else match split_lines r with
           | l :: ls => String c l :: ls
           | [] => [String c EmptyString]
           end
  end.

(** [s.substr(start, len)] for a start inside the string. *)
Fixpoint substr (start len : nat) (s : string) : string :=
  match start, len, s with
  | _, _, EmptyString => EmptyString
  | S k, _, String _ r => substr k len r
  | O, O, _ => EmptyString
  | O, S l, String c r => String c (substr O l r)
  end.

Fixpoint take_while (p : ascii -> bool) (s : string) : string :=
  match s with
  | EmptyString => EmptyString
  | String c r => if p c then String c (take_while p r) else EmptyString
  end.

Fixpoint drop_while (p : ascii -> bool) (s : string) : string :=
  match s with
  | EmptyString => EmptyString
  | String c r => if p c then drop_while p r else s
  end.

(** ** The two regular expressions of the schema scan

    Both have the shape [/kw\s+(C+)/] for a literal [kw] and a character
    class [C] that holds no white space.  Matched at a given position the
    expression reads [kw], then the whole run of white space (giving some
    of it back cannot help: the next character would still be white
    space, which is not in [C]), then the longest run of [C]; the
    capture is that run. *)
Definition match_here (kw : string) (cls : ascii -> bool) (s : string)
  : option string :=
  match strip_prefix kw s with
  | None => None
  | Some r =>
      if truthy_string (take_while is_space r) then
        let cap := take_while cls (drop_while is_space r) in
        if truthy_string cap then Some cap else None
      else None
  end.

(** [s.match(/kw\s+(C+)/)]: the leftmost position that matches wins;
    the result is capture group 1, [None] for a [null] match. *)
Fixpoint regex_capture (kw : string) (cls : ascii -> bool) (s : string)
  : option string :=
  match match_here kw cls s with
  | Some cap => Some cap
  | None =>
      match s with
      | EmptyString => None
      | String _ r => regex_capture kw cls r
      end
  end.

(** ** Values *)

Definition truthy (v : JsVal) : bool :=
  match v with
  | JUndefined | JNull => false
  | JBool b => b
  | JNum n => negb (Z.eqb n 0)
  | JStr s => truthy_string s
  | JArr _ | JObj _ => true
  end.

(** [a || b] *)
Definition or_else (a b : JsVal) : JsVal := if truthy a then a else b.

Fixpoint assoc (k : string) (fields : list (string * JsVal)) : JsVal :=
  match fields with
  | [] => JUndefined
  | (k', v) :: r => if String.eqb k' k then v else assoc k r
  end.

(** [v[k]] for a value that is not [null] or [undefined] and a key that
    is no built-in property: only an object has own properties. *)
Definition get_prop (v : JsVal) (k : string) : JsVal :=
  match v with
  | JObj fields => assoc k fields
  | _ => JUndefined
  end.

(** ** [Map]: iteration follows first insertion; [set] on a key that is
    present replaces the value in place. *)
Section MapOps.
Context {V : Type}.

Fixpoint map_get (k : string) (m : list (string * V)) : option V :=
  match m with
  | [] => None
  | (k', v) :: r => if String.eqb k' k then Some v else map_get k r
  end.

Fixpoint map_set (k : string) (v : V) (m : list (string * V))
  : list (string * V) :=
  match m with
  | [] => [(k, v)]
  | (k', v') :: r =>
      if String.eqb k' k then (k, v) :: r else (k', v') :: map_set k v r
  end.
End MapOps.

End JS.

(* ================================================================== *)
(** * Chapter 07: protobuf parsing *)
(* ================================================================== *)

(** ** protobufjs, seen from the engine

    The library is outside the repository.  A reflected message type is
    what its [decode] and [toObject] answer; a [Root] is what its
    [lookupType] answers. *)
Record ReflType : Type := {
  rt_decode : list Z -> Exc JsVal;        (* Type.decode(buffer) *)
  rt_toObject : JsVal -> JsVal            (* Type.toObject(message, opts) *)
}.

Record Root : Type := {
  lookupType : string -> Exc (option ReflType)
}.

Module ProtobufParser.

(** [private root: protobuf.Root], unset until [loadProto] ran. *)
Record t : Type := { root : option Root }.

Definition create : t := {| root := None |}.

Section WithLibrary.
(** [protobuf.parse(text).root] *)
Variable protobuf_parse : string -> Exc Root.

Definition loadProto (protoContent : string) (p : t) : Exc t :=
  r ← protobuf_parse protoContent; mret {| root := Some r |}.
End WithLibrary.

Definition decodeMessage (p : t) (messageType : string) (buffer : list Z)
  : Exc JsVal :=
  match root p with
  | None => Throw (ErrorObj "TypeError" "Cannot read properties of undefined")
  | Some r =>
      MessageType ← lookupType r messageType;
      match MessageType with
      | None => Throw (ErrorObj "Error" "Message type not found")
      | Some T =>
          message ← rt_decode T buffer;
          mret (rt_toObject T message)
      end
  end.

End ProtobufParser.

Module UniversalProtobufParser.
Import JS.

Record ProtoDefinition : Type := {
  name : string;
  content : string;
  messageTypes : list string
}.

Record t : Type := {
  parsers : list (string * ProtobufParser.t);
  protoDefinitions : list (string * ProtoDefinition)
}.

Definition create : t := {| parsers := []; protoDefinitions := [] |}.

Record DecodeResult : Type := {
  success : bool;
  data : option JsVal;
  messageType : option string;
  protoName : option string
}.

Definition failure : DecodeResult :=
  {| success := false; data := None; messageType := None;
     protoName := None |}.

(** *** extractMessageTypes *)

Definition is_package_char (c : ascii) : bool :=
  (is_word c || Nat.eqb (code c) 46)%bool.

(** [line.match(/package\s+([\w.]+)/)], capture 1 *)
Definition packageMatch : string -> option string :=
  regex_capture "package" is_package_char.

(** [line.match(/message\s+(\w+)/)], capture 1 *)
Definition messageMatch : string -> option string :=
  regex_capture "message" is_word.

Definition fullName (currentPackage messageName : string) : string :=
  if truthy_string currentPackage
  then currentPackage +:+ "." +:+ messageName
  else messageName.

(** One turn of the loop over the lines; the state is
    [(currentPackage, messageTypes)]. *)
Definition scan_line (st : string * list string) (line : string)
  : string * list string :=
  let currentPackage :=
    match packageMatch line with
    | Some p => p
    | None => fst st
    end in
  match messageMatch line with
  | Some messageName =>
      (currentPackage, snd st ++ [fullName currentPackage messageName])
  | None => (currentPackage, snd st)
  end.

Definition extractMessageTypes (protoContent : string) : list string :=
  snd (fold_left scan_line (split_lines protoContent) (EmptyString, [])).

(** *** registerProto *)

Section WithLibrary.
Variable protobuf_parse : string -> Exc Root.

Definition registerProto (name protoContent : string) (u : t) : Exc t :=
  parser ← ProtobufParser.loadProto protobuf_parse protoContent
             ProtobufParser.create;
  let messageTypes := extractMessageTypes protoContent in
  mret {| parsers := map_set name parser (parsers u);
          protoDefinitions :=
            map_set name
              {| name := name; content := protoContent;
                 messageTypes := messageTypes |}
              (protoDefinitions u) |}.
End WithLibrary.

(** *** tryParse *)

(** [domain ? entries.filter(([name]) => ...) : entries] *)
Definition candidates (u : t) (domain : option string)
  : list (string * ProtoDefinition) :=
  match domain with
  | Some d =>
      if truthy_string d
      then List.filter
             (fun e => includes (toLowerCase d) (toLowerCase (fst e)))
             (protoDefinitions u)
      else protoDefinitions u
  | None => protoDefinitions u
  end.

(** The inner loop: [Some r] when the loop body returned [r], [None] when
    the loop ran to its end. *)
Fixpoint try_types (parser : ProtobufParser.t) (protoName : string)
    (buffer : list Z) (types : list string) : Exc (option DecodeResult) :=
  match types with
  | [] => Return None
  | messageType :: rest =>
      try_catch
        (data ← ProtobufParser.decodeMessage parser messageType buffer;
         mret (Some {| success := true; data := Some data;
                       messageType := Some messageType;
                       protoName := Some protoName |}))
        (fun _ => try_types parser protoName buffer rest)
  end.

(** The outer loop over the candidates. *)
Fixpoint try_candidates (u : t) (buffer : list Z)
    (cands : list (string * ProtoDefinition)) : Exc DecodeResult :=
  match cands with
  | [] => Return failure
  | (protoName, definition) :: rest =>
      match map_get protoName (parsers u) with
      | None => try_candidates u buffer rest
      | Some parser =>
          r ← try_types parser protoName buffer (messageTypes definition);
          match r with
          | Some res => Return res
          | None => try_candidates u buffer rest
          end
      end
  end.

Definition tryParse (u : t) (buffer : list Z) (domain : option string)
  : Exc DecodeResult :=
  try_candidates u buffer (candidates u domain).

Definition getRegisteredProtos (u : t) : list string :=
  List.map fst (protoDefinitions u).

End UniversalProtobufParser.

(* ================================================================== *)
(** * Chapter 06: the hooks *)
(* ================================================================== *)

(** ** Arrays *)
Module Array.
Section Ops.
Context {A : Type}.

(** [a.push(x)] *)
Definition push (a : list A) (x : A) : list A := a ++ [x].

(** [a.shift()]: the array without its first element. *)
Definition shift (a : list A) : list A :=
  match a with
  | [] => []
  | _ :: r => r
  end.

(** [a.slice(0, n)] *)
Definition slice0 (n : nat) (a : list A) : list A := take n a.

(** [[...a]] *)
Definition spread (a : list A) : list A := a.
End Ops.
End Array.

(** Object literals written key after key: a later key replaces the
    value of an equal earlier one. *)
Definition assign_all {V} (entries : list (string * V)) (o : list (string * V))
  : list (string * V) :=
  fold_left (fun acc kv => JS.map_set (fst kv) (snd kv) acc) entries o.

(** ** AdvancedXHRHook *)
Module AdvancedXHRHook.

Record XHREvent : Type := {
  url : string;
  method : string;
  requestHeaders : list (string * string);
  requestBody : JsVal;
  responseHeaders : list (string * string);
  responseBody : JsVal;
  status : Z;
  timestamp : Z
}.

Record t : Type := {
  events : list XHREvent;
  maxEvents : nat
}.

Definition create : t := {| events := []; maxEvents := 1000 |}.

Definition recordEvent (self : t) (event : XHREvent) : t :=
  let events1 := Array.push (events self) event in
  {| events :=
       if Nat.ltb (maxEvents self) (length events1)
       then Array.shift events1 else events1;
     maxEvents := maxEvents self |}.

Definition getEvents (self : t) : list XHREvent :=
  Array.spread (events self).

Definition clearEvents (self : t) : t :=
  {| events := []; maxEvents := maxEvents self |}.

End AdvancedXHRHook.

(** ** What the platform hands to a fetch wrapper *)
Module Fetch.

(** [RequestInfo | URL] *)
Inductive Input : Type :=
| InputString (s : string)
| InputURL (href : string)
| InputRequest (url : string).

Definition url_of (input : Input) : string :=
  match input with
  | InputString s => s
  | InputURL href => href
  | InputRequest url => url
  end.

Inductive HeadersInit : Type :=
| HeadersObject (entries : list (string * string))   (* instanceof Headers *)
| HeadersArray (entries : list (string * string))    (* [key, value][] *)
| HeadersRecord (entries : list (string * string)).  (* plain object *)

Inductive Body : Type :=
| BodyString (s : string)
| BodyFormData (entries : list (string * JsVal))
| BodyURLSearchParams (entries : list (string * string))
| BodyOther (v : JsVal).

Record RequestInit : Type := {
  init_method : option string;
  init_headers : option HeadersInit;
  init_body : option Body
}.

(** A [Response]: its status, its headers (names in lower case, as the
    [Headers] object keeps them), whether it has a body at all, and what
    reading the body of a fresh clone settles to. *)
Record Response : Type := {
  status : Z;
  statusText : string;
  headers : list (string * string);
  body_null : bool;             (* response.body === null *)
  json : Exc JsVal;
  text : Exc string;
  arrayBuffer : Exc (list Z)
}.

(** Whether a message that holds the body can be posted:
    [window.postMessage] clones its message, and throws a
    [DataCloneError] on a [FormData] and on a [URLSearchParams]. *)
Definition cloneable (b : option Body) : bool :=
  match b with
  | Some (BodyFormData _) | Some (BodyURLSearchParams _) => false
  | _ => true
  end.

(** The bytes of a text of ASCII characters. *)
Definition bytes_of (s : string) : list Z :=
  List.map (fun c => Z.of_nat (nat_of_ascii c)) (list_ascii_of_string s).

(** [response.headers.get(name)] *)
Definition headers_get (r : Response) (name : string) : option string :=
  JS.map_get (JS.toLowerCase name) (headers r).

(** [error instanceof Error ? error.message : 'Unknown error'] *)
Definition error_message (e : Thrown) : string :=
  match e with
  | ErrorObj _ message => message
  | ThrownValue _ => "Unknown error"
  end.

(** [!body] *)
Definition body_falsy (b : option Body) : bool :=
  match b with
  | None => true
  | Some (BodyString s) => negb (JS.truthy_string s)
  | Some (BodyOther v) => negb (JS.truthy v)
  | Some _ => false
  end.

End Fetch.

(** ** The basic fetch hook *)
Module fetchHook.
Import Fetch.

(** The [data] of the messages: the [fetch-response] that follows a
    body read as JSON, the shorter [fetch-response] that follows a body
    read as text, and the [fetch-error]. *)
Inductive Posted : Type :=
| FetchResponse (url method : string) (request : option Body)
    (response : JsVal) (status : Z) (statusText : string)
    (headers : list (string * string))
| FetchResponseText (url method : string) (request : option Body)
    (response : string) (status : Z)
| FetchError (url method error : string).

Record Run : Type := {
  outcome : Exc Response;     (* what the caller's promise settles to *)
  posted : list Posted        (* what reaches [window.postMessage] *)
}.

(** What the reads of the clone post, out of band:
    [clonedResponse.json().then(...).catch(() => clonedResponse.text().then(...))].
    When [json()] rejects it has read the body, and [text()] of the same
    clone rejects in its turn; only a response without a body leaves
    nothing to read, and [text()] then resolves.  Both messages hold the
    request body: when it cannot be cloned, [postMessage] throws in the
    callback, and neither message is posted. *)
Definition read_and_post (url method : string) (requestBody : option Body)
    (response : Response) : list Posted :=
  if cloneable requestBody then
    match json response with
    | Return data =>
        [FetchResponse url method requestBody data (status response)
           (statusText response) (headers response)]
    | Throw _ =>
        if body_null response then
          match text response with
          | Return s =>
              [FetchResponseText url method requestBody s (status response)]
          | Throw _ => []
          end
        else []
    end
  else [].

(** [window.fetch = async function(input, init) { ... }]; [original] is
    what [OriginalFetch.apply(this, [input, init])] settles to. *)
Definition wrapped (input : Input) (init : option RequestInit)
    (original : Exc Response) : Run :=
  let url := url_of input in
  let method :=
    match init ≫= init_method with
    | Some m => if JS.truthy_string m then m else "GET"
    | None => "GET"
    end in
  let requestBody := init ≫= init_body in
  match original with
  | Return response =>
      {| outcome := Return response;
         posted := read_and_post url method requestBody response |}
  | Throw error =>
      {| outcome := Throw error;
         posted := [FetchError url method (error_message error)] |}
  end.

End fetchHook.

(** ** AdvancedFetchHook

    [window.postMessage] is taken to accept what it is given. *)
Module AdvancedFetchHook.
Import Fetch.

(** [Partial<FetchEvent>]: the request part is written before the call,
    the response part after it. *)
Record FetchEvent : Type := {
  url : string;
  method : string;
  requestHeaders : list (string * string);
  requestBody : JsVal;
  timestamp : Z;
  status : option Z;
  responseHeaders : option (list (string * string));
  responseBody : option JsVal
}.

Record t : Type := {
  events : list FetchEvent;
  interceptors : list (FetchEvent -> Exc bool)
}.

Definition create : t := {| events := []; interceptors := [] |}.


Definition recordEvent (self : t) (event : FetchEvent) : t :=
  let events1 := Array.push (events self) event in
  {| events :=
       if Nat.ltb 1000 (length events1)
       then Array.shift events1 else events1;
     interceptors := interceptors self |}.

Definition getEvents (self : t) : list FetchEvent :=
  Array.spread (events self).

Definition clearEvents (self : t) : t :=
  {| events := []; interceptors := interceptors self |}.

Inductive Posted : Type :=
| FetchEventMsg (e : FetchEvent)
| FetchErrorMsg (e : FetchEvent) (error : string).

Record Run : Type := {
  outcome : Exc Response;
  hook : t;
  posted : list Posted
}.

Section WithPlatform.
(** [JSON.parse] *)
Variable JSON_parse : string -> Exc JsVal.

Definition from_entries (entries : list (string * JsVal)) : JsVal :=
  JObj (assign_all entries []).

Definition parseRequestBody (body : option Body) : JsVal :=
  if body_falsy body then JNull
  else match body with
       | None => JNull
       | Some (BodyString s) =>
           match JSON_parse s with
           | Return v => v
           | Throw _ => JStr s
           end
       | Some (BodyFormData entries) => from_entries entries
       | Some (BodyURLSearchParams entries) =>
           from_entries (List.map (fun kv => (fst kv, JStr (snd kv))) entries)
       | Some (BodyOther v) => v
       end.

Definition request_headers (init : option RequestInit)
  : list (string * string) :=
  match init ≫= init_headers with
  | None => []
  | Some (HeadersObject entries)
  | Some (HeadersArray entries)
  | Some (HeadersRecord entries) => assign_all entries []
  end.

(** The loop over the interceptors: [Return true] when one of them
    answered [true] (the loop breaks there). *)
Fixpoint run_interceptors (chain : list (FetchEvent -> Exc bool))
    (event : FetchEvent) : Exc bool :=
  match chain with
  | [] => Return false
  | interceptor :: rest =>
      b ← interceptor event;
      if (b : bool) then Return true else run_interceptors rest event
  end.

(** [JSON.stringify({ intercepted: true })] *)
Definition mock_text : string :=
  "{" +:+ JS.quote +:+ "intercepted" +:+ JS.quote +:+ ":true}".

(** [new Response(JSON.stringify({ intercepted: true }),
    { status: 200, headers: { 'Content-Type': 'application/json' } })] *)
Definition mock_response : Response :=
  {| Fetch.status := 200;
     statusText := "";
     headers := [("content-type", "application/json")];
     body_null := false;
     json := Return (JObj [("intercepted", JBool true)]);
     text := Return mock_text;
     arrayBuffer := Return (bytes_of mock_text) |}.

(** The body of the clone, read by content type. *)
Definition read_body (response : Response) : Exc JsVal :=
  let contentType := default EmptyString (headers_get response "content-type") in
  if JS.includes "application/json" contentType then json response
  else if JS.includes "text/" contentType then
    s ← text response; mret (JStr s)
  else
    bytes ← arrayBuffer response; mret (JArr (List.map JNum bytes)).

(** [window.fetch = async function(input, init) { ... }]; [now] is the
    reading of [Date.now()], [original] what the original fetch
    settles to when it is called. *)
Definition wrapped (self : t) (now : Z) (input : Input)
    (init : option RequestInit) (original : Exc Response) : Run :=
  let url := url_of input in
  let method :=
    match init ≫= init_method with
    | Some m => if JS.truthy_string m then m else "GET"
    | None => "GET"
    end in
  let event :=
    {| url := url; method := method;
       requestHeaders := request_headers init;
       requestBody := parseRequestBody (init ≫= init_body);
       timestamp := now;
       status := None; responseHeaders := None; responseBody := None |} in
  match run_interceptors (interceptors self) event with
  | Throw e => {| outcome := Throw e; hook := self; posted := [] |}
  | Return true =>
      {| outcome := Return mock_response; hook := self; posted := [] |}
  | Return false =>
      (* try { ... } catch (error) { postMessage(...); throw error } *)
      let attempt : Exc (Response * FetchEvent) :=
        response ← original;
        responseBody ← read_body response;
        mret (response,
              {| url := url; method := method;
                 requestHeaders := request_headers init;
                 requestBody := parseRequestBody (init ≫= init_body);
                 timestamp := now;
                 status := Some (Fetch.status response);
                 responseHeaders := Some (headers response);
                 responseBody := Some responseBody |}) in
      match attempt with
      | Return (response, event') =>
          {| outcome := Return response;
             hook := recordEvent self event';
             posted := [FetchEventMsg event'] |}
      | Throw error =>
          {| outcome := Throw error;
             hook := self;
             posted := [FetchErrorMsg event (error_message error)] |}
      end
  end.
End WithPlatform.

End AdvancedFetchHook.

(** ** AdvancedWebSocketHook *)
Module AdvancedWebSocketHook.

Inductive EventType : Type := Open | Close | Message | Send | Error.

Record WebSocketEvent : Type := {
  url : string;
  type : EventType;
  message : option JsVal;
  raw : option string;
  code : option Z;
  reason : option string;
  timestamp : Z
}.

(** A socket of the platform, by identity. *)
Definition WebSocket : Type := nat.

Record t : Type := {
  connections : gmap Z WebSocket;
  events : list WebSocketEvent;
  messageInterceptors : list (WebSocketEvent -> Exc bool);
  connectionIdCounter : Z
}.

Definition create : t :=
  {| connections := ∅; events := []; messageInterceptors := [];
     connectionIdCounter := 0 |}.

(** [n + 1] on a double that holds the integer [n >= 0]: exact below
    [2^53]; at [2^53] the sum is a tie that rounds back to [2^53]. *)
Definition succ_double (n : Z) : Z :=
  if Z.ltb n (2 ^ 53) then n + 1 else n.

Definition recordEvent (self : t) (event : WebSocketEvent) : t :=
  let events1 := Array.push (events self) event in
  {| connections := connections self;
     events :=
       if Nat.ltb 2000 (length events1)
       then Array.shift events1 else events1;
     messageInterceptors := messageInterceptors self;
     connectionIdCounter := connectionIdCounter self |}.

Definition getEvents (self : t) : list WebSocketEvent :=
  Array.spread (events self).

Definition getEventsByUrl (self : t) (u : string) : list WebSocketEvent :=
  List.filter (fun e => String.eqb (url e) u) (events self).

Definition clearEvents (self : t) : t :=
  {| connections := connections self; events := [];
     messageInterceptors := messageInterceptors self;
     connectionIdCounter := connectionIdCounter self |}.

Definition getActiveConnections (self : t) : nat :=
  size (connections self).

Definition addMessageInterceptor (self : t)
    (i : WebSocketEvent -> Exc bool) : t :=
  {| connections := connections self; events := events self;
     messageInterceptors := Array.push (messageInterceptors self) i;
     connectionIdCounter := connectionIdCounter self |}.

(** What a hooked socket remembers: the variables its closures capture. *)
Record Hooked : Type := {
  ws : WebSocket;
  wsUrl : string;
  connectionId : Z
}.

(** The events handed to [notifyEvent] come back as a list. *)
Definition Step : Type := (t * list WebSocketEvent)%type.

Definition record_and_notify (self : t) (event : WebSocketEvent) : Step :=
  (recordEvent self event, [event]).

(** [function WebSocketHook(url, protocols)]; [socket] is what
    [new OriginalWebSocket(url, protocols)] gives, or throws. *)
Definition construct (self : t) (u : string) (socket : Exc WebSocket)
  : Exc Hooked * t :=
  match socket with
  | Throw e => (Throw e, self)
  | Return w =>
      let connectionId := connectionIdCounter self in
      (Return {| ws := w; wsUrl := u; connectionId := connectionId |},
       {| connections := <[connectionId := w]> (connections self);
          events := events self;
          messageInterceptors := messageInterceptors self;
          connectionIdCounter := succ_double (connectionIdCounter self) |})
  end.

Definition plain (h : Hooked) (ty : EventType) (now : Z) : WebSocketEvent :=
  {| url := wsUrl h; type := ty; message := None; raw := None;
     code := None; reason := None; timestamp := now |}.

(** The ['open'] listener. *)
Definition on_open (h : Hooked) (now : Z) (self : t) : Step :=
  record_and_notify self (plain h Open now).

(** The ['close'] listener. *)
Definition on_close (h : Hooked) (closeCode : Z) (closeReason : string)
    (now : Z) (self : t) : Step :=
  let event :=
    {| url := wsUrl h; type := Close; message := None; raw := None;
       code := Some closeCode; reason := Some closeReason;
       timestamp := now |} in
  let '(self1, out) := record_and_notify self event in
  ({| connections := delete (connectionId h) (connections self1);
      events := events self1;
      messageInterceptors := messageInterceptors self1;
      connectionIdCounter := connectionIdCounter self1 |}, out).

(** The ['error'] listener. *)
Definition on_error (h : Hooked) (now : Z) (self : t) : Step :=
  record_and_notify self (plain h Error now).

Section WithPlatform.
Variable JSON_parse : string -> Exc JsVal.

(** [let message = raw; try { message = JSON.parse(raw) } catch {}] *)
Definition parse_or_raw (rawText : string) : JsVal :=
  match JSON_parse rawText with
  | Return v => v
  | Throw _ => JStr rawText
  end.

(** The ['message'] listener; [rawText] is the text data, or what
    [TextDecoder.decode] made of the binary data. *)
Definition on_message (h : Hooked) (rawText : string) (now : Z)
    (self : t) : Step :=
  record_and_notify self
    {| url := wsUrl h; type := Message;
       message := Some (parse_or_raw rawText); raw := Some rawText;
       code := None; reason := None; timestamp := now |}.

(** The hooked [send].  Every interceptor runs inside an [async]
    callback of [forEach]: its answer arrives after the test of
    [shouldBlock], which therefore still reads [false]. The result is
    the step and whether the original [send] is called. *)
Definition send (h : Hooked) (rawText : string) (now : Z) (self : t)
  : Step * bool :=
  let event :=
    {| url := wsUrl h; type := Send;
       message := Some (parse_or_raw rawText); raw := Some rawText;
       code := None; reason := None; timestamp := now |} in
  let shouldBlock := false in
  if negb shouldBlock then (record_and_notify self event, true)
  else ((self, []), false).
End WithPlatform.

End AdvancedWebSocketHook.

(** ** The event buffer as the run time holds it

    An array and the event objects in it have an identity: a variable
    holds a reference, and two arrays can hold references to one object.
    This is the level at which [getEvents] makes its copy. *)
Module Store.
Section WithEvent.
Context {E : Type}.

Definition ref : Type := nat.

Record t : Type := {
  objects : gmap ref E;            (* the event objects *)
  arrays : gmap ref (list ref)     (* the arrays of references *)
}.

(** A hook: [this.events] is a reference to an array. *)
Record Hook : Type := {
  events : ref;
  maxEvents : nat
}.

Definition read_array (σ : t) (a : ref) : list ref :=
  default [] (arrays σ !! a).

Definition write_array (σ : t) (a : ref) (l : list ref) : t :=
  {| objects := objects σ; arrays := <[a := l]> (arrays σ) |}.

Definition fresh_array (σ : t) : ref := fresh (dom (arrays σ)).

(** An object literal: a new object, and the reference to it. *)
Definition new_object (e : E) (σ : t) : ref * t :=
  let r := fresh (dom (objects σ)) in
  (r, {| objects := <[r := e]> (objects σ); arrays := arrays σ |}).

(** [private events: E[] = []] of a new hook. *)
Definition new_hook (capacity : nat) (σ : t) : Hook * t :=
  let a := fresh_array σ in
  ({| events := a; maxEvents := capacity |}, write_array σ a []).

(** [this.events.push(event); if (length > max) this.events.shift()] *)
Definition recordEvent (self : Hook) (event : ref) (σ : t) : t :=
  let pushed := Array.push (read_array σ (events self)) event in
  write_array σ (events self)
    (if Nat.ltb (maxEvents self) (length pushed)
     then Array.shift pushed else pushed).

(** [return [...this.events]]: a new array with the same references. *)
Definition getEvents (self : Hook) (σ : t) : ref * t :=
  let a := fresh_array σ in
  (a, write_array σ a (Array.spread (read_array σ (events self)))).

(** The events of the buffer, read through the references. *)
Definition contents (σ : t) (self : Hook) : list (option E) :=
  List.map (fun r => objects σ !! r) (read_array σ (events self)).

(** What a caller can do with the array it was given: an operation on
    the array itself, which gives it new contents ([snapshot[i] = r],
    [push], [pop], [shift], [splice], [sort], [reverse],
    [snapshot.length = n], ...), or a write to a field of one of its
    elements ([snapshot[i].field = v]). *)
Inductive Mutation : Type :=
| OnArray (op : list ref -> list ref)
| OnElement (i : nat) (f : E -> E).

Definition is_structural (m : Mutation) : bool :=
  match m with
  | OnArray _ => true
  | OnElement _ _ => false
  end.

Definition mutate (snapshot : ref) (m : Mutation) (σ : t) : t :=
  let l := read_array σ snapshot in
  match m with
  | OnArray op => write_array σ snapshot (op l)
  | OnElement i f =>
      match l !! i with
      | Some r =>
          {| objects := alter f r (objects σ); arrays := arrays σ |}
      | None => σ     (* a TypeError: nothing is written *)
      end
  end.

(** [snapshot.push(r)] and [snapshot.pop()] as mutations. *)
Definition Push (r : ref) : Mutation := OnArray (fun l => Array.push l r).
Definition Pop : Mutation := OnArray (fun l => take (length l - 1) l).
End WithEvent.
Arguments t : clear implicits.
End Store.

(** ** HookStorage *)
Module HookStorage.

Inductive Source : Type := xhr | fetch | websocket.

(** What the content script forwards: [{ source, type, data }]. *)
Record HookEvent : Type := {
  he_source : string;
  he_type : string;
  he_data : JsVal
}.

Record StoredHookEvent : Type := {
  id : string;
  source : Source;
  type : string;
  data : JsVal;
  timestamp : Z;
  url : JsVal
}.

Definition maxEvents : nat := 10000.

Definition getSource (s : string) : Source :=
  if JS.includes "xhr" s then xhr
  else if JS.includes "fetch" s then fetch
  else if JS.includes "websocket" s then websocket
  else xhr.

(** [`${n}`] for an integer [n] *)
Definition show_Z (n : Z) : string := NilZero.string_of_int (Z.to_int n).

(** The host functions one event consumes: the two readings of
    [Date.now()] and [Math.random().toString(36)]. *)
Record Draw : Type := {
  now_id : Z;            (* Date.now() in the id *)
  random36 : string;     (* Math.random().toString(36) *)
  now_ts : Z             (* Date.now() for a missing timestamp *)
}.

(** [`${Date.now()}-${Math.random().toString(36).substr(2, 9)}`] *)
Definition make_id (d : Draw) : string :=
  show_Z (now_id d) +:+ "-" +:+ JS.substr 2 9 (random36 d).

(** [event.data.timestamp || Date.now()], for a timestamp that is a
    number when it is there. *)
Definition timestamp_of (data : JsVal) (d : Draw) : Z :=
  match JS.get_prop data "timestamp" with
  | JNum n => if Z.eqb n 0 then now_ts d else n
  | _ => now_ts d
  end.

(** One turn of [events.map(event => ({ ... }))]. Reading a property of
    [undefined] or [null] data throws. *)
Definition stored_of (event : HookEvent) (d : Draw) : Exc StoredHookEvent :=
  match he_data event with
  | JUndefined | JNull =>
      Throw (ErrorObj "TypeError" "Cannot read properties of undefined")
  | data =>
      Return {| id := make_id d;
                source := getSource (he_source event);
                type := he_type event;
                data := data;
                timestamp := timestamp_of data d;
                url := JS.get_prop data "url" |}
  end.

(** [events.map(...)]: the event at index [i] consumes [draws i]. *)
Fixpoint map_events (events : list HookEvent) (draws : nat -> Draw)
    (i : nat) : Exc (list StoredHookEvent) :=
  match events with
  | [] => Return []
  | event :: rest =>
      s ← stored_of event (draws i);
      ss ← map_events rest draws (S i);
      mret (s :: ss)
  end.

(** [.sort((a, b) => b.timestamp - a.timestamp)]: newest first, equal
    timestamps in their former order. *)
Fixpoint insert_desc (x : StoredHookEvent) (l : list StoredHookEvent)
  : list StoredHookEvent :=
  match l with
  | [] => [x]
  | y :: r =>
      if Z.ltb (timestamp x) (timestamp y) then y :: insert_desc x r
      else x :: y :: r
  end.

Definition sort_desc (l : list StoredHookEvent) : list StoredHookEvent :=
  fold_right insert_desc [] l.

(** [async storeEvents(events)]; [existing] is what the storage holds
    under ['hook_events'], the result is what is written back. *)
Definition storeEvents (events : list HookEvent) (draws : nat -> Draw)
    (existing : option (list StoredHookEvent))
  : Exc (list StoredHookEvent) :=
  storedEvents ← map_events events draws 0%nat;
  let existingEvents := default [] existing in
  mret (Array.slice0 maxEvents (sort_desc (storedEvents ++ existingEvents))).

(** The ids given to a batch of [n] events, in the order of the batch. *)
Definition batch_ids (draws : nat -> Draw) (n : nat) : list string :=
  List.map (fun i => make_id (draws i)) (seq 0 n).

End HookStorage.

(** ** EventFilter *)
Module EventFilter.

Inductive StatusSpec : Type :=
| Exact (n : Z)
| Range (min max : option Z).

Record TimeRange : Type := { start : Z; end_ : Z }.

Record FilterOptions : Type := {
  sources : option (list string);
  urlPattern : option string;
  method : option string;
  statusCode : option StatusSpec;
  timeRange : option TimeRange;
  keyword : option string;
  contentType : option string
}.

Definition no_options : FilterOptions :=
  {| sources := None; urlPattern := None; method := None;
     statusCode := None; timeRange := None; keyword := None;
     contentType := None |}.

(** [T extends { source?, url?, method?, status?, timestamp?, data? }]:
    an event type is anything that has these optional properties; the
    event itself is a value too. *)
Class EventLike (T : Type) : Type := {
  ev_source : T -> option string;
  ev_url : T -> option string;
  ev_method : T -> option string;
  ev_status : T -> option Z;
  ev_timestamp : T -> option Z;
  ev_data : T -> option JsVal;
  ev_value : T -> JsVal
}.

(** Truthiness of the optional properties. *)
Definition some_string (o : option string) : option string :=
  match o with
  | Some s => if JS.truthy_string s then Some s else None
  | None => None
  end.

Definition some_number (o : option Z) : option Z :=
  match o with
  | Some n => if Z.eqb n 0 then None else Some n
  | None => None
  end.

Definition some_value (o : option JsVal) : option JsVal :=
  match o with
  | Some v => if JS.truthy v then Some v else None
  | None => None
  end.

Definition status_truthy (s : option StatusSpec) : option StatusSpec :=
  match s with
  | Some (Exact n) => if Z.eqb n 0 then None else Some (Exact n)
  | other => other
  end.

Section WithPlatform.
Context {T : Type} `{EventLike T}.
(** [new RegExp(pattern, 'i').test(s)]; the constructor throws on a
    malformed pattern. *)
Variable RegExp_test_i : string -> string -> Exc bool.
(** [JSON.stringify] *)
Variable JSON_stringify : JsVal -> string.

Definition source_ok (options : FilterOptions) (event : T) : bool :=
  match sources options, some_string (ev_source event) with
  | Some allowed, Some s => existsb (String.eqb s) allowed
  | _, _ => true
  end.

Definition url_ok (options : FilterOptions) (event : T) : Exc bool :=
  match some_string (urlPattern options), some_string (ev_url event) with
  | Some pattern, Some u => RegExp_test_i pattern u
  | _, _ => Return true
  end.

Definition method_ok (options : FilterOptions) (event : T) : bool :=
  match some_string (method options), some_string (ev_method event) with
  | Some wanted, Some m =>
      String.eqb (JS.toUpperCase m) (JS.toUpperCase wanted)
  | _, _ => true
  end.

Definition status_ok (options : FilterOptions) (event : T) : bool :=
  match status_truthy (statusCode options), ev_status event with
  | Some (Exact n), Some s => Z.eqb s n
  | Some (Range lo hi), Some s =>
      (match lo with Some m => negb (Z.ltb s m) | None => true end)
      && (match hi with Some m => negb (Z.gtb s m) | None => true end)
  | _, _ => true
  end.

Definition time_ok (options : FilterOptions) (event : T) : bool :=
  match timeRange options, some_number (ev_timestamp event) with
  | Some range, Some ts =>
      (if Z.eqb (start range) 0 then true else negb (Z.ltb ts (start range)))
      && (if Z.eqb (end_ range) 0 then true else negb (Z.gtb ts (end_ range)))
  | _, _ => true
  end.

(** [JSON.stringify(event.data || event).toLowerCase()] *)
Definition searchText (event : T) : string :=
  JS.toLowerCase
    (JSON_stringify
       (match some_value (ev_data event) with
        | Some d => d
        | None => ev_value event
        end)).

Definition keyword_ok (options : FilterOptions) (event : T) : bool :=
  match some_string (keyword options) with
  | Some k => JS.includes (JS.toLowerCase k) (searchText event)
  | None => true
  end.

(** [contentType.includes(wanted)] on whatever the header holds. *)
Definition value_includes (v : JsVal) (wanted : string) : Exc bool :=
  match v with
  | JStr s => Return (JS.includes wanted s)
  | JArr items =>
      Return (existsb
                (fun x => match x with
                          | JStr s => String.eqb s wanted
                          | _ => false
                          end) items)
  | _ => Throw (ErrorObj "TypeError" "contentType.includes is not a function")
  end.

Definition contentType_ok (options : FilterOptions) (event : T) : Exc bool :=
  match some_string (contentType options), some_value (ev_data event) with
  | Some wanted, Some d =>
      let headers :=
        JS.or_else (JS.get_prop d "headers")
          (JS.or_else (JS.get_prop d "responseHeaders") (JObj [])) in
      let ct :=
        JS.or_else (JS.get_prop headers "content-type")
          (JS.or_else (JS.get_prop headers "Content-Type") (JStr EmptyString)) in
      value_includes ct wanted
  | _, _ => Return true
  end.

(** The callback of [events.filter]: the tests in the order of the
    source; the first that fails answers [false]. *)
Definition keep (options : FilterOptions) (event : T) : Exc bool :=
  if negb (source_ok options event) then Return false else
  u ← url_ok options event;
  if negb u then Return false else
  if negb (method_ok options event) then Return false else
  if negb (status_ok options event) then Return false else
  if negb (time_ok options event) then Return false else
  if negb (keyword_ok options event) then Return false else
  c ← contentType_ok options event;
  if negb c then Return false else
  Return true.

(** [Array.prototype.filter] with a callback that may throw. *)
Fixpoint array_filter (f : T -> Exc bool) (l : list T) : Exc (list T) :=
  match l with
  | [] => Return []
  | x :: r =>
      b ← f x;
      r' ← array_filter f r;
      mret (if (b : bool) then x :: r' else r')
  end.

Definition filter (events : list T) (options : FilterOptions)
  : Exc (list T) :=
  array_filter (keep options) events.
End WithPlatform.

End EventFilter.

(* ================================================================== *)
(** * The specification's notions *)
(* ================================================================== *)

(** ** Schema registration: the extracted message types *)
Module SchemaScan.
Import JS UniversalProtobufParser.

(** The package in force after the lines [seen]: the capture of the
    last line among them that declares a package, [p0] when none
    does. *)
Definition package_after (p0 : string) (seen : list string) : string :=
  default p0 (last (omap packageMatch seen)).

(** What line [i] of [lines] contributes: nothing when it declares no
    message, else the declared name qualified by the package in force
    after lines [0..i]. *)
Definition entry_at (p0 : string) (lines : list string) (i : nat)
  : list string :=
  match lines !! i ≫= messageMatch with
  | Some n => [fullName (package_after p0 (take (S i) lines)) n]
  | None => []
  end.

(** The list of types as the claim words it: one entry per line that
    declares a message, in line order. *)
Definition declared_types (p0 : string) (lines : list string)
  : list string :=
  concat (List.map (entry_at p0 lines) (seq 0 (length lines))).

End SchemaScan.

(** ** Decoding: candidates, attempts and the first success *)
Module Decode.
Import JS UniversalProtobufParser.

(** The schemas a hint selects, as the specification words it: all of
    them without a hint, else those whose name holds the hint, case
    ignored. *)
Definition selected (u : t) (hint : option string)
  : list (string * ProtoDefinition) :=
  match hint with
  | None => protoDefinitions u
  | Some h =>
      List.filter
        (fun e => includes (toLowerCase h) (toLowerCase (fst e)))
        (protoDefinitions u)
  end.

(** The decode attempts in scan order: schema by schema, and within a
    schema type by type. *)
Definition attempts (u : t) (hint : option string)
  : list (string * string) :=
  flat_map
    (fun e => List.map (fun mt => (fst e, mt)) (messageTypes (snd e)))
    (selected u hint).

(** The structural decode of [buffer] against type [snd a] of schema
    [fst a]: the decoded object, or [None] when it fails. *)
Definition attempt (u : t) (buffer : list Z) (a : string * string)
  : option JsVal :=
  match map_get (fst a) (parsers u) with
  | None => None
  | Some parser =>
      match ProtobufParser.decodeMessage parser (snd a) buffer with
      | Return d => Some d
      | Throw _ => None
      end
  end.

Definition found (a : string * string) (d : JsVal) : DecodeResult :=
  {| success := true; data := Some d; messageType := Some (snd a);
     protoName := Some (fst a) |}.

Fixpoint first_success {A B : Type} (f : A -> option B) (l : list A)
  : option (A * B) :=
  match l with
  | [] => None
  | a :: r =>
      match f a with
      | Some b => Some (a, b)
      | None => first_success f r
      end
  end.

(** Every schema that is registered has its parser, and is filed under
    its own name. *)
Definition consistent (u : t) : Prop :=
  Forall
    (fun e => name (snd e) = fst e /\ is_Some (map_get (fst e) (parsers u)))
    (protoDefinitions u).

End Decode.

(** ** A structural decoder, for the examples

    protobufjs is not part of the repository.  The examples of a decode
    that succeeds need one concrete decoder, and use the wire grammar
    that a protobuf reader follows when it meets fields it does not
    know: a message is a sequence of fields; a field is a varint key,
    [number * 8 + wire type], and a payload whose extent the wire type
    gives (groups are not read).  The empty sequence of bytes is the
    message without fields.  This is a reader that is handed bytes it
    accepts, a [Uint8Array]; what the library does with the
    [ArrayBuffer] of [tryParse] is in [Protobufjs] below. *)
Module Wire.
Import JS UniversalProtobufParser.

Fixpoint varint (fuel : nat) (bs : list Z) : option (Z * list Z) :=
  match fuel, bs with
  | S f, b :: r =>
      if Z.ltb b 128 then Some (b, r)
      else match varint f r with
           | Some (v, r') => Some (b - 128 + 128 * v, r')
           | None => None
           end
  | _, _ => None
  end.

Definition skip_bytes (n : nat) (bs : list Z) : option (list Z) :=
  if Nat.leb n (length bs) then Some (drop n bs) else None.

(** The bytes after the payload of a field of wire type [wt]. *)
Definition skip_payload (wt : Z) (bs : list Z) : option (list Z) :=
  if Z.eqb wt 0 then snd <$> varint 10 bs
  else if Z.eqb wt 1 then skip_bytes 8 bs
  else if Z.eqb wt 2 then
    match varint 10 bs with
    | Some (len, r) => skip_bytes (Z.to_nat len) r
    | None => None
    end
  else if Z.eqb wt 5 then skip_bytes 4 bs
  else None.

(** The field numbers of a message, or [None] for bytes that are not a
    sequence of fields. *)
Fixpoint fields (fuel : nat) (bs : list Z) : option (list Z) :=
  match bs, fuel with
  | [], _ => Some []
  | _ :: _, O => None
  | _ :: _, S f =>
      match varint 10 bs with
      | Some (key, r) =>
          match skip_payload (key mod 8) r with
          | Some r' => cons (key / 8) <$> fields f r'
          | None => None
          end
      | None => None
      end
  end.

Definition any_message : ReflType :=
  {| rt_decode := fun buffer =>
       match fields (length buffer) buffer with
       | Some numbers => Return (JArr (List.map JNum numbers))
       | None => Throw (ErrorObj "Error" "invalid wire type")
       end;
     rt_toObject := fun message => message |}.

(** A root that knows the types [types]. *)
Definition root_of (types : list string) : Root :=
  {| lookupType := fun n =>
       if existsb (String.eqb n) types then Return (Some any_message)
       else Throw (ErrorObj "Error" "no such type") |}.

(** A stand-in for [protobuf.parse]: the root knows the types that the
    line scan finds. *)
Definition parse (text : string) : Exc Root :=
  Return (root_of (extractMessageTypes text)).

(** [syntax="proto3"; package p; message M { int32 a = 1; }] *)
Definition demo_text : string :=
  "syntax=" +:+ quote +:+ "proto3" +:+ quote +:+
  "; package p; message M { int32 a = 1; }".

(** The engine after [registerProto('demo', demo_text)]. *)
Definition demo : t :=
  match registerProto parse "demo" demo_text create with
  | Return u => u
  | Throw _ => create
  end.

End Wire.

(** ** protobufjs and the buffer of [tryParse]

    [tryParse] is declared for an [ArrayBuffer], and the background
    script calls it with one ([bytes.buffer]).  [decodeMessage] hands the
    buffer to [MessageType.decode] as it is.  protobufjs reads from a
    [Uint8Array] or a plain array: [decode] gives anything else to
    [Reader.create], which throws [Error('illegal buffer')].  The library
    is outside the repository, so this is stated as a condition on the
    types an engine holds. *)
Module Protobufjs.
Import JS UniversalProtobufParser.

Definition illegal_buffer : Thrown := ErrorObj "Error" "illegal buffer".

(** A reflected type that is handed an [ArrayBuffer]. *)
Definition rejects_array_buffer (T : ReflType) : Prop :=
  forall buffer : list Z, rt_decode T buffer = Throw illegal_buffer.

(** Every type that a parser of the engine knows answers so. *)
Definition reads_no_array_buffer (u : t) : Prop :=
  forall (n : string) (parser : ProtobufParser.t) (r : Root)
         (mt : string) (T : ReflType),
    map_get n (parsers u) = Some parser ->
    ProtobufParser.root parser = Some r ->
    lookupType r mt = Return (Some T) ->
    rejects_array_buffer T.

(** A type, a root and a [protobuf.parse] that answer an [ArrayBuffer]
    as the library does, for the examples. *)
Definition strict_type : ReflType :=
  {| rt_decode := fun _ => Throw illegal_buffer;
     rt_toObject := fun message => message |}.

Definition root_of (types : list string) : Root :=
  {| lookupType := fun n =>
       if existsb (String.eqb n) types then Return (Some strict_type)
       else Throw (ErrorObj "Error" "no such type") |}.

Definition parse (text : string) : Exc Root :=
  Return (root_of (extractMessageTypes text)).

(** The engine after [registerProto('demo', Wire.demo_text)]. *)
Definition demo : t :=
  match registerProto parse "demo" Wire.demo_text create with
  | Return u => u
  | Throw _ => create
  end.

End Protobufjs.

(** ** The event log: the most recent entries *)
Module Log.

(** The last [n] entries of [l], in their order. *)
Definition last_n {A} (n : nat) (l : list A) : list A :=
  drop (length l - n) l.

(** A hook after it recorded the events [evs], one after the other. *)
Definition xhr_after (capacity : nat) (evs : list AdvancedXHRHook.XHREvent)
  : AdvancedXHRHook.t :=
  fold_left AdvancedXHRHook.recordEvent evs
    {| AdvancedXHRHook.events := [];
       AdvancedXHRHook.maxEvents := capacity |}.

Definition fetch_after (evs : list AdvancedFetchHook.FetchEvent)
  : AdvancedFetchHook.t :=
  fold_left AdvancedFetchHook.recordEvent evs AdvancedFetchHook.create.

Definition ws_after (evs : list AdvancedWebSocketHook.WebSocketEvent)
  : AdvancedWebSocketHook.t :=
  fold_left AdvancedWebSocketHook.recordEvent evs AdvancedWebSocketHook.create.

End Log.

(** ** Connections of the WebSocket hook *)
Module Connections.
Import AdvancedWebSocketHook.

(** The hook after the sockets [sockets], given as url and platform
    socket, were constructed one after the other, and the connection ids
    they received in that order. *)
Fixpoint construct_all (self : t) (sockets : list (string * WebSocket))
  : list Z * t :=
  match sockets with
  | [] => ([], self)
  | (u, w) :: rest =>
      let '(r, self1) := construct self u (Return w) in
      let '(ids, self2) := construct_all self1 rest in
      (match r with
       | Return h => connectionId h :: ids
       | Throw _ => ids
       end, self2)
  end.

(** A hooked socket of url [u] with connection id [k]. *)
Definition hooked (u : string) (w : WebSocket) (k : Z) : Hooked :=
  {| ws := w; wsUrl := u; connectionId := k |}.

End Connections.

(** ** Identifiers *)
Module Ids.
Import HookStorage.

(** No character of [s] is the separator ['-']. *)
Fixpoint dash_free (s : string) : bool :=
  match s with
  | EmptyString => true
  | String c r => negb (Ascii.eqb c "-") && dash_free r
  end.

(** Two draws in one millisecond whose random parts come out in
    descending order. *)
Definition draws_same_ms (i : nat) : Draw :=
  match i with
  | O => {| now_id := 1700000000000; random36 := "0.zq8x4m1k7wd";
            now_ts := 1700000000000 |}
  | _ => {| now_id := 1700000000000; random36 := "0.a3f9c2e8b1x";
            now_ts := 1700000000000 |}
  end.

(** Two draws in one millisecond whose random numbers differ after
    their ninth digit. *)
Definition draws_equal (i : nat) : Draw :=
  match i with
  | O => {| now_id := 1700000000000; random36 := "0.k3x9q2m7ab1";
            now_ts := 1700000000000 |}
  | _ => {| now_id := 1700000000000; random36 := "0.k3x9q2m7ab2";
            now_ts := 1700000000000 |}
  end.

(** Two events as the fetch hook posts them. *)
Definition two_events : list HookEvent :=
  [ {| he_source := "fetch-hook"; he_type := "fetch-event";
       he_data := JObj [("url", JStr "https://example.test/a");
                        ("timestamp", JNum 1700000000000)] |};
    {| he_source := "fetch-hook"; he_type := "fetch-event";
       he_data := JObj [("url", JStr "https://example.test/b");
                        ("timestamp", JNum 1700000000000)] |} ].

(** The ids of what [storeEvents] wrote. *)
Definition stored_ids (r : Exc (list StoredHookEvent)) : list string :=
  match r with
  | Return l => List.map id l
  | Throw _ => []
  end.

End Ids.

(** ** Snapshots *)
Module Snapshot.
Import Store.

(** The store after the caller applied the mutations [ms], in order, to
    the array [snapshot]. *)
Definition mutate_all {E} (snapshot : ref) (ms : list (@Mutation E))
    (σ : Store.t E) : Store.t E :=
  fold_left (fun s m => mutate snapshot m s) ms σ.

(** A store with one fetch hook that recorded one event. *)
Definition sample_event : AdvancedFetchHook.FetchEvent :=
  {| AdvancedFetchHook.url := "https://example.test/api";
     AdvancedFetchHook.method := "GET";
     AdvancedFetchHook.requestHeaders := [];
     AdvancedFetchHook.requestBody := JNull;
     AdvancedFetchHook.timestamp := 1700000000000;
     AdvancedFetchHook.status := Some 200;
     AdvancedFetchHook.responseHeaders := Some [];
     AdvancedFetchHook.responseBody := Some (JStr "ok") |}.

Definition empty_store : Store.t AdvancedFetchHook.FetchEvent :=
  {| objects := ∅; arrays := ∅ |}.

Definition sample_hook : Hook := fst (new_hook 1000 empty_store).

Definition sample_store : Store.t AdvancedFetchHook.FetchEvent :=
  let σ1 := snd (new_hook 1000 empty_store) in
  let '(r, σ2) := new_object sample_event σ1 in
  recordEvent sample_hook r σ2.

(** [snapshot[0].url = 'tampered'] *)
Definition tamper (e : AdvancedFetchHook.FetchEvent)
  : AdvancedFetchHook.FetchEvent :=
  {| AdvancedFetchHook.url := "tampered";
     AdvancedFetchHook.method := AdvancedFetchHook.method e;
     AdvancedFetchHook.requestHeaders := AdvancedFetchHook.requestHeaders e;
     AdvancedFetchHook.requestBody := AdvancedFetchHook.requestBody e;
     AdvancedFetchHook.timestamp := AdvancedFetchHook.timestamp e;
     AdvancedFetchHook.status := AdvancedFetchHook.status e;
     AdvancedFetchHook.responseHeaders := AdvancedFetchHook.responseHeaders e;
     AdvancedFetchHook.responseBody := AdvancedFetchHook.responseBody e |}.

End Snapshot.

(** ** Responses for the examples *)
Module Responses.
Import Fetch.

(** [204 No Content] sent with a JSON content type: the body is empty,
    so [json()] rejects. *)
Definition no_content : Response :=
  {| status := 204;
     statusText := "No Content";
     headers := [("content-type", "application/json")];
     body_null := true;
     json := Throw (ErrorObj "SyntaxError" "Unexpected end of JSON input");
     text := Return EmptyString;
     arrayBuffer := Return [] |}.



End Responses.

(** ** Filter specifications *)
Module Filtering.
Import EventFilter.

(** [{ method: m }] *)
Definition by_method (m : string) : FilterOptions :=
  {| sources := None; urlPattern := None; method := Some m;
     statusCode := None; timeRange := None; keyword := None;
     contentType := None |}.

(** [{ method: m, keyword: k }] *)
Definition by_method_and_keyword (m k : string) : FilterOptions :=
  {| sources := None; urlPattern := None; method := Some m;
     statusCode := None; timeRange := None; keyword := Some k;
     contentType := None |}.

(** [{ statusCode: s }] *)
Definition by_status (s : StatusSpec) : FilterOptions :=
  {| sources := None; urlPattern := None; method := None;
     statusCode := Some s; timeRange := None; keyword := None;
     contentType := None |}.

(** [{ timeRange: r }] *)
Definition by_time (r : TimeRange) : FilterOptions :=
  {| sources := None; urlPattern := None; method := None;
     statusCode := None; timeRange := Some r; keyword := None;
     contentType := None |}.

(** The options without their method constraint. *)
Definition without_method (o : FilterOptions) : FilterOptions :=
  {| sources := sources o; urlPattern := urlPattern o; method := None;
     statusCode := statusCode o; timeRange := timeRange o;
     keyword := keyword o; contentType := contentType o |}.

Definition without_status (o : FilterOptions) : FilterOptions :=
  {| sources := sources o; urlPattern := urlPattern o; method := method o;
     statusCode := None; timeRange := timeRange o;
     keyword := keyword o; contentType := contentType o |}.

Definition without_time (o : FilterOptions) : FilterOptions :=
  {| sources := sources o; urlPattern := urlPattern o; method := method o;
     statusCode := statusCode o; timeRange := None;
     keyword := keyword o; contentType := contentType o |}.

(** An event passes the [POST] constraint when it carries no method (or
    an empty one) or when its method is [POST], case ignored. *)
Definition passes_post {T} `{EventLike T} (e : T) : bool :=
  match ev_method e with
  | None => true
  | Some m =>
      negb (JS.truthy_string m) || String.eqb (JS.toUpperCase m) "POST"
  end.

(** *** A concrete event type and platform, for the examples *)

Record Entry : Type := {
  source : option string;
  url : option string;
  method_ : option string;
  status : option Z;
  timestamp : option Z;
  data : option JsVal
}.

Definition opt_field {A} (k : string) (f : A -> JsVal) (o : option A)
  : list (string * JsVal) :=
  match o with
  | Some a => [(k, f a)]
  | None => []
  end.

#[global] Instance Entry_EventLike : EventLike Entry :=
  {| ev_source := source; ev_url := url; ev_method := method_;
     ev_status := status; ev_timestamp := timestamp; ev_data := data;
     ev_value := fun e =>
       JObj (opt_field "source" JStr (source e) ++
             opt_field "url" JStr (url e) ++
             opt_field "method" JStr (method_ e) ++
             opt_field "status" JNum (status e) ++
             opt_field "timestamp" JNum (timestamp e) ++
             opt_field "data" (fun v => v) (data e)) |}.

(** A serializer in the manner of [JSON.stringify], for values whose
    strings need no escaping. *)
Fixpoint render (v : JsVal) : string :=
  match v with
  | JUndefined | JNull => "null"
  | JBool true => "true"
  | JBool false => "false"
  | JNum n => HookStorage.show_Z n
  | JStr s => JS.quote +:+ s +:+ JS.quote
  | JArr items =>
      "[" +:+
      (fix go (l : list JsVal) : string :=
         match l with
         | [] => EmptyString
         | [x] => render x
         | x :: r => render x +:+ "," +:+ go r
         end) items +:+ "]"
  | JObj fields =>
      "{" +:+
      (fix go (l : list (string * JsVal)) : string :=
         match l with
         | [] => EmptyString
         | [(k, x)] => JS.quote +:+ k +:+ JS.quote +:+ ":" +:+ render x
         | (k, x) :: r =>
             JS.quote +:+ k +:+ JS.quote +:+ ":" +:+ render x +:+ "," +:+ go r
         end) fields +:+ "}"
  end.

(** A pattern without metacharacters matches where it occurs, case
    ignored. *)
Definition literal_test (pattern s : string) : Exc bool :=
  Return (JS.includes (JS.toLowerCase pattern) (JS.toLowerCase s)).

Definition entry (m : option string) (u : string) (st : option Z) : Entry :=
  {| source := Some "fetch"; url := Some u; method_ := m; status := st;
     timestamp := Some 1700000000000; data := None |}.

(** A message event of a socket: no method, no status. *)
Definition no_method_entry : Entry :=
  {| source := Some "websocket"; url := Some "wss://example.test/feed";
     method_ := None; status := None; timestamp := None;
     data := Some (JObj [("type", JStr "message")]) |}.

Definition get_entry : Entry := entry (Some "GET") "https://example.test/a" (Some 200).
Definition post_entry : Entry := entry (Some "post") "https://example.test/b" (Some 201).

Definition sample_entries : list Entry :=
  [no_method_entry; get_entry; post_entry].

End Filtering.

(** ** Shapes of strings *)
Module Text.

(** Every character of [s] satisfies [p]. *)
Fixpoint all_chars (p : ascii -> bool) (s : string) : bool :=
  match s with
  | EmptyString => true
  | String c r => p c && all_chars p r
  end.

(** The characters of [s] are ASCII.  On such a text [JS.toLowerCase]
    and [JS.toUpperCase] are the mappings of JavaScript, which maps
    other characters too, and some of them to more than one character. *)
Definition ascii_only (s : string) : bool :=
  all_chars (fun c => Nat.ltb (JS.code c) 128) s.

(** Whether a schema of that name is registered. *)
Definition registered (n : string) (u : UniversalProtobufParser.t) : bool :=
  existsb (String.eqb n) (UniversalProtobufParser.getRegisteredProtos u).

End Text.

(** ** Interceptors for the examples *)
Module Interceptors.
Import AdvancedFetchHook.



End Interceptors.

(** ** Opening and closing connections *)
Module Lifecycle.
Import AdvancedWebSocketHook Connections.

(** The hook after the close notifications of the connections [ids]
    fired, one after the other. *)
Definition close_all (ids : list Z) (now : Z) (self : t) : t :=
  fold_left
    (fun s k => fst (on_close (hooked "wss://example.test/feed" 0%nat k)
                       1000 "done" now s))
    ids self.

End Lifecycle.

(** ** [JSON.stringify], for the examples

    The serialization of a value as [JSON.parse] yields it, its numbers
    being integers of less than 22 digits: an [undefined] member of an
    object is left out, an [undefined] element of an array is [null].
    [undefined] itself has no serialization. *)
Module Json.

Definition hex_digit (n : nat) : ascii :=
  ascii_of_nat (if Nat.ltb n 10 then 48 + n else 87 + n).

(** One character inside a quoted string. *)
Definition escape (c : ascii) : string :=
  let n := nat_of_ascii c in
  let backslash := String (ascii_of_nat 92) EmptyString in
  if Nat.eqb n 8 then backslash +:+ "b"
  else if Nat.eqb n 9 then backslash +:+ "t"
  else if Nat.eqb n 10 then backslash +:+ "n"
  else if Nat.eqb n 12 then backslash +:+ "f"
  else if Nat.eqb n 13 then backslash +:+ "r"
  else if Nat.eqb n 34 then backslash +:+ JS.quote
  else if Nat.eqb n 92 then backslash +:+ backslash
  else if Nat.ltb n 32 then
    backslash +:+ "u00" +:+
    String (hex_digit (n / 16)) (String (hex_digit (n mod 16)) EmptyString)
  else String c EmptyString.

Fixpoint escape_all (s : string) : string :=
  match s with
  | EmptyString => EmptyString
  | String c r => escape c +:+ escape_all r
  end.

Definition quoted (s : string) : string :=
  JS.quote +:+ escape_all s +:+ JS.quote.

Definition join_comma (parts : list string) : string :=
  match parts with
  | [] => EmptyString
  | x :: r => fold_left (fun acc y => acc +:+ "," +:+ y) r x
  end.

(** [None] is [undefined]. *)
Fixpoint serialize (v : JsVal) : option string :=
  match v with
  | JUndefined => None
  | JNull => Some "null"
  | JBool true => Some "true"
  | JBool false => Some "false"
  | JNum n => Some (HookStorage.show_Z n)
  | JStr s => Some (quoted s)
  | JArr items =>
      Some ("[" +:+
            join_comma
              ((fix elements (l : list JsVal) : list string :=
                  match l with
                  | [] => []
                  | x :: r => default "null" (serialize x) :: elements r
                  end) items) +:+ "]")
  | JObj fields =>
      Some ("{" +:+
            join_comma
              ((fix members (l : list (string * JsVal)) : list string :=
                  match l with
                  | [] => []
                  | (k, x) :: r =>
                      match serialize x with
                      | Some t => (quoted k +:+ ":" +:+ t) :: members r
                      | None => members r
                      end
                  end) fields) +:+ "}")
  end.

Definition stringify (v : JsVal) : string :=
  default EmptyString (serialize v).

End Json.

(** ** HookStorage: searching and counting *)
Module HookQueries.
Import HookStorage.

(** [await this.getEvents()], without filters: what the storage holds
    under ['hook_events'], or the empty list. *)
Definition getEvents_all (stored : option (list StoredHookEvent))
  : list StoredHookEvent :=
  default [] stored.

(** What a plain object holds under a key after
    [o[k] = (o[k] || 0) + 1]: a number, or the text that [+ 1] makes of
    what is no number. *)
Inductive Filed : Type :=
| Count (n : nat)
| Glued (s : string).

(** The names that an object literal inherits from [Object.prototype]:
    reading one of them on an object that has no such property of its
    own finds a function (the prototype itself under [__proto__]). *)
Definition Object_prototype : list string :=
  ["constructor"; "__defineGetter__"; "__defineSetter__"; "hasOwnProperty";
   "__lookupGetter__"; "__lookupSetter__"; "isPrototypeOf";
   "propertyIsEnumerable"; "toString"; "valueOf"; "__proto__";
   "toLocaleString"].

Definition inherited (k : string) : bool :=
  existsb (String.eqb k) Object_prototype.

Definition source_name (s : Source) : string :=
  match s with
  | xhr => "xhr"
  | fetch => "fetch"
  | websocket => "websocket"
  end.

(** The own properties of the two records, each with what it holds. *)
Record Statistics : Type := {
  total : nat;
  bySource : list (string * Filed);
  byUrl : list (string * Filed)
}.

Section WithPlatform.
(** [JSON.stringify], for a value that is not [undefined] *)
Variable JSON_stringify : JsVal -> string.
(** [new URL(u).hostname]; the constructor throws on what is no URL. *)
Variable hostname : JsVal -> Exc string.
(** The text that [Object.prototype[k]] becomes in [... + 1], for the
    names of [Object_prototype]. *)
Variable prototype_text : string -> string.

(** [o[k] = (o[k] || 0) + 1] on an object literal [o].  The read finds
    an own property, else an inherited one, else [undefined]; a number
    is counted up, anything else that is truthy is glued to [1] as a
    text.  The write makes an own property, except under [__proto__],
    where assigning what is no object changes nothing. *)
Definition bump (k : string) (o : list (string * Filed))
  : list (string * Filed) :=
  let next :=
    match JS.map_get k o with
    | Some (Count n) => Count (n + 1)
    | Some (Glued s) =>
        if JS.truthy_string s then Glued (s +:+ "1") else Count 1
    | None =>
        if inherited k then Glued (prototype_text k +:+ "1") else Count 1
    end in
  if String.eqb k "__proto__" then o else JS.map_set k next o.

(** The callback of [searchEvents]: [JSON.stringify(undefined)] is
    [undefined], which has no [toLowerCase]. *)
Definition matches (lowerKeyword : string) (event : StoredHookEvent)
  : Exc bool :=
  match data event with
  | JUndefined =>
      Throw (ErrorObj "TypeError" "Cannot read properties of undefined")
  | d => Return (JS.includes lowerKeyword (JS.toLowerCase (JSON_stringify d)))
  end.

Fixpoint filter_events (f : StoredHookEvent -> Exc bool)
    (l : list StoredHookEvent) : Exc (list StoredHookEvent) :=
  match l with
  | [] => Return []
  | x :: r =>
      b ← f x;
      r' ← filter_events f r;
      mret (if (b : bool) then x :: r' else r')
  end.

Definition searchEvents (stored : option (list StoredHookEvent))
    (keyword : string) : Exc (list StoredHookEvent) :=
  let events := getEvents_all stored in
  let lowerKeyword := JS.toLowerCase keyword in
  filter_events (matches lowerKeyword) events.

(** One turn of [events.forEach] in [getStatistics]; the state is
    [(bySource, byUrl)]. *)
Definition count_event (st : list (string * Filed) * list (string * Filed))
    (event : StoredHookEvent)
  : Exc (list (string * Filed) * list (string * Filed)) :=
  let bySource1 := bump (source_name (source event)) (fst st) in
  if JS.truthy (url event) then
    domain ← hostname (url event);
    mret (bySource1, bump domain (snd st))
  else mret (bySource1, snd st).

Fixpoint count_events (events : list StoredHookEvent)
    (st : list (string * Filed) * list (string * Filed))
  : Exc (list (string * Filed) * list (string * Filed)) :=
  match events with
  | [] => Return st
  | event :: rest => st1 ← count_event st event; count_events rest st1
  end.

Definition getStatistics (stored : option (list StoredHookEvent))
  : Exc Statistics :=
  let events := getEvents_all stored in
  st ← count_events events ([], []);
  mret {| total := length events; bySource := fst st; byUrl := snd st |}.
(** The event carries a url whose host is no name of
    [Object_prototype]. *)
Definition plain_host (event : StoredHookEvent) : bool :=
  JS.truthy (url event) &&
  match hostname (url event) with
  | Return domain => negb (inherited domain)
  | Throw _ => false
  end.
End WithPlatform.

Definition number_of (v : Filed) : nat :=
  match v with
  | Count n => n
  | Glued _ => 0%nat
  end.

(** The sum of the numbers of a record. *)
Definition sum_counts (o : list (string * Filed)) : nat :=
  fold_right (fun kv acc => (number_of (snd kv) + acc)%nat) 0%nat o.

(** Every key holds what its name makes it hold: a number under a name
    of its own, a text that is not empty under a name of
    [Object_prototype]; and nothing is filed under [__proto__]. *)
Definition tidy (o : list (string * Filed)) : Prop :=
  Forall (fun kv =>
            fst kv <> "__proto__"
            /\ if inherited (fst kv)
               then exists s, snd kv = Glued s /\ JS.truthy_string s = true
               else exists n, snd kv = Count n) o.

(** The text of [Object.prototype[k]] in V8, for the examples. *)
Definition prototype_text_v8 (k : string) : string :=
  if String.eqb k "__proto__" then "[object Object]"
  else if String.eqb k "constructor" then "function Object() { [native code] }"
  else "function " +:+ k +:+ "() { [native code] }".

(** [new URL(u).hostname] for the urls of the examples. *)
Definition sample_hostname (u : JsVal) : Exc string :=
  match u with
  | JStr "https://a.example/x" => Return "a.example"
  | JStr "http://constructor/" => Return "constructor"
  | _ => Throw (ErrorObj "TypeError" "Invalid URL")
  end.

(** The timestamp of the data is a number, or it is missing or falsy:
    what [storeEvents] files as [timestamp] is then a number, as
    [StoredHookEvent] declares, and [timestamp_of] is that number.  (The
    code would keep a truthy string or object as it is, and the
    comparator of the sort would no longer order the events.) *)
Definition numeric_timestamp (event : HookEvent) : Prop :=
  match JS.get_prop (he_data event) "timestamp" with
  | JNum _ => True
  | v => JS.truthy v = false
  end.

(** Newest first. *)
Definition newest_first (l : list StoredHookEvent) : Prop :=
  StronglySorted (fun a b => timestamp b <= timestamp a) l.

(** A stored event, for the examples. *)
Definition stored_sample (ts : Z) (u : JsVal) : StoredHookEvent :=
  {| id := "1700000000000-abcdefghi"; source := fetch; type := "fetch-event";
     data := JObj [("url", u)]; timestamp := ts; url := u |}.

(** An event without data, as a malformed message would give. *)
Definition bare_event : HookEvent :=
  {| he_source := "fetch-hook"; he_type := "fetch-event"; he_data := JUndefined |}.

End HookQueries.

(** ** More filter specifications *)
Module FilterSpecs.
Import EventFilter.

(** [{ urlPattern: p }] *)
Definition by_url (p : string) : FilterOptions :=
  {| sources := None; urlPattern := Some p; method := None;
     statusCode := None; timeRange := None; keyword := None;
     contentType := None |}.

(** [{ keyword: k }] *)
Definition by_keyword (k : string) : FilterOptions :=
  {| sources := None; urlPattern := None; method := None;
     statusCode := None; timeRange := None; keyword := Some k;
     contentType := None |}.

(** A malformed pattern: the constructor of [RegExp] throws. *)
Definition rejecting_test (pattern s : string) : Exc bool :=
  Throw (ErrorObj "SyntaxError" "Invalid regular expression").

End FilterSpecs.

(** ** EventSearch *)
Module EventSearch.
Import JS.

(** [s.trim()] *)
Fixpoint trim_end (s : string) : string :=
  match s with
  | EmptyString => EmptyString
  | String c r =>
      match trim_end r with
      | EmptyString => if is_space c then EmptyString else String c EmptyString
      | r' => String c r'
      end
  end.

Definition trim (s : string) : string := trim_end (drop_while is_space s).

(** [s.split(/\s+/)]: the pieces between the runs of white space; a
    string that starts or ends with white space gives an empty first or
    last piece. [in_gap] tells that the character before was white
    space. *)
Fixpoint split_ws_from (in_gap : bool) (s : string) : list string :=
  match s with
  | EmptyString => [EmptyString]
  | String c r =>
      if is_space c then
        if in_gap then split_ws_from true r
        else EmptyString :: split_ws_from true r
      else
        match split_ws_from false r with
        | t :: ts => String c t :: ts
        | [] => [String c EmptyString]
        end
  end.

Definition split_ws (s : string) : list string := split_ws_from false s.

(** [parts.join(' ')] *)
Fixpoint join_space (parts : list string) : string :=
  match parts with
  | [] => EmptyString
  | [p] => p
  | p :: rest => p +:+ " " +:+ join_space rest
  end.

(** [extractSearchableText(obj, depth)] *)
Fixpoint extractSearchableText (obj : JsVal) (depth : nat) : string :=
  if Nat.ltb 5 depth then EmptyString
  else
    match obj with
    | JNull | JUndefined => EmptyString
    | JStr s => toLowerCase s
    | JNum n => toLowerCase (HookStorage.show_Z n)
    | JBool b => toLowerCase (if b then "true" else "false")
    | JArr items =>
        join_space
          ((fix each (l : list JsVal) : list string :=
              match l with
              | [] => []
              | item :: r => extractSearchableText item (S depth) :: each r
              end) items)
    | JObj fields =>
        join_space
          ((fix each (l : list (string * JsVal)) : list string :=
              match l with
              | [] => []
              | (_, value) :: r =>
                  extractSearchableText value (S depth) :: each r
              end) fields)
    end.

Definition keywords_of (query : string) : list string :=
  List.filter truthy_string (split_ws (toLowerCase query)).

Definition fullTextSearch (events : list JsVal) (query : string)
  : list JsVal :=
  if negb (truthy_string (trim query)) then events
  else
    let keywords := keywords_of query in
    List.filter
      (fun event =>
         let searchableText := extractSearchableText event 0 in
         forallb (fun keyword => includes keyword searchableText) keywords)
      events.

(** *** levenshteinDistance

    The matrix is filled row by row; a row is kept as the list of its
    entries. [fill_row c2 s1 prev left] gives the entries from column
    [j] on, where [prev] is the row above from column [j - 1] on and
    [left] is the entry at column [j - 1] of this row. *)
Fixpoint fill_row (c2 : ascii) (s1 : list ascii) (prev : list nat)
    (left : nat) : list nat :=
  match s1, prev with
  | c1 :: s1', diag :: ((up :: _) as prev') =>
      let v :=
        if Ascii.eqb c2 c1 then diag
        else Nat.min (diag + 1) (Nat.min (left + 1) (up + 1)) in
      v :: fill_row c2 s1' prev' v
  | _, _ => []
  end.

(** Row [i], for the character [c2] of [str2] at index [i - 1]. *)
Definition next_row (s1 : list ascii) (prev : list nat) (i : nat)
    (c2 : ascii) : list nat :=
  i :: fill_row c2 s1 prev i.

(** The rows for the characters [s2], the first of them with index [i];
    the result is the last row. *)
Fixpoint rows (s1 : list ascii) (prev : list nat) (i : nat)
    (s2 : list ascii) : list nat :=
  match s2 with
  | [] => prev
  | c2 :: s2' => rows s1 (next_row s1 prev i c2) (S i) s2'
  end.

Definition levenshteinDistance (str1 str2 : string) : nat :=
  let s1 := list_ascii_of_string str1 in
  let s2 := list_ascii_of_string str2 in
  let row0 := seq 0 (S (length s1)) in
  default 0%nat (last (rows s1 row0 1 s2)).

End EventSearch.

(** ** Notions for searching *)
Module Searching.

(** [v] inside [n] arrays of one element each. *)
Fixpoint nest (n : nat) (v : JsVal) : JsVal :=
  match n with
  | O => v
  | S k => JArr [nest k v]
  end.

(** The edit distance by its recurrence, on two lists read from their
    heads. *)
Fixpoint lev (a : list ascii) : list ascii -> nat :=
  match a with
  | [] => fun b => length b
  | x :: p =>
      fix lev_x (b : list ascii) : nat :=
        match b with
        | [] => S (length p)
        | y :: q =>
            if Ascii.eqb y x then lev p q
            else Nat.min (lev p q + 1) (Nat.min (lev p b + 1) (lev_x q + 1))
        end
  end.

(** The row of the matrix for the prefix of [str2] whose reversal is
    [q], from the column of the prefix of [str1] whose reversal is [p]
    on, [s1] being the rest of [str1]. *)
Fixpoint row_of (q p s1 : list ascii) : list nat :=
  lev p q ::
  match s1 with
  | [] => []
  | c :: s1' => row_of q (c :: p) s1'
  end.

End Searching.

(** ** HookManager *)
Module HookManager.

(** What a call does to the page and the console. *)
Inductive Action : Type :=
| InstallXHR            (* this.xhrHook.install(): wraps window.XMLHttpRequest *)
| InstallFetch          (* this.fetchHook.install(): wraps window.fetch *)
| InstallWebSocket      (* this.wsHook.install(): wraps window.WebSocket *)
| Warn (text : string)
| Log (text : string).

Record t : Type := { isInstalled : bool }.

Definition create : t := {| isInstalled := false |}.

Definition install (self : t) : t * list Action :=
  if isInstalled self then (self, [Warn "Hooks already installed"])
  else ({| isInstalled := true |},
        [InstallXHR; InstallFetch; InstallWebSocket;
         Log "All hooks installed successfully"]).

Definition uninstall (self : t) : t * list Action :=
  ({| isInstalled := false |},
   [Warn "To uninstall hooks, please reload the page"]).

(** The manager after [install()] was called [n + 1] times in a row,
    and what the last of these calls did. *)
Definition after_installs (n : nat) : t * list Action :=
  Nat.iter n (fun r => install (fst r)) (install create).

End HookManager.

(** ** HookListener *)
Module HookListener.

(** A [message] event of the window. *)
Record MessageEvent : Type := {
  from_window : bool;      (* event.source === window *)
  payload : JsVal          (* event.data *)
}.

Record t : Type := {
  eventBuffer : list JsVal;
  bufferSize : nat
}.

Definition create : t := {| eventBuffer := []; bufferSize := 100 |}.

(** [data.source && (data.source === 'xhr-hook' || ...)] *)
Definition from_hook (data : JsVal) : bool :=
  match JS.get_prop data "source" with
  | JStr s =>
      String.eqb s "xhr-hook" || String.eqb s "fetch-hook"
      || String.eqb s "websocket-hook"
  | _ => false
  end.

(** The synchronous part of [flush()]: nothing for an empty buffer, else
    the buffer is copied and emptied, and the copy is on its way. *)
Definition flush_begin (self : t) : t * option (list JsVal) :=
  match eventBuffer self with
  | [] => (self, None)
  | events =>
      ({| eventBuffer := []; bufferSize := bufferSize self |},
       Some (Array.spread events))
  end.

(** The listener of [startListening]; reading [data.source] of
    [null] or [undefined] data throws, and the listener ends there. *)
Definition receive (m : MessageEvent) (self : t) : t * option (list JsVal) :=
  if negb (from_window m) then (self, None)
  else
    match payload m with
    | JUndefined | JNull => (self, None)
    | data =>
        if from_hook data then
          let self1 :=
            {| eventBuffer := Array.push (eventBuffer self) data;
               bufferSize := bufferSize self |} in
          if Nat.leb (bufferSize self1) (length (eventBuffer self1))
          then flush_begin self1 else (self1, None)
        else (self, None)
    end.

(** The callback of [setInterval]. *)
Definition tick (self : t) : t * option (list JsVal) :=
  if Nat.ltb 0 (length (eventBuffer self)) then flush_begin self
  else (self, None).

(** How the [try] block of a flush ends. *)
Inductive FlushOutcome : Type :=
| Delivered        (* the send resolved, the broadcast was issued *)
| SendRejected     (* await MessageClient.send(...) threw *)
| BroadcastThrew.  (* the send resolved, chrome.runtime.sendMessage threw *)

(** Whether the background received the batch. *)
Definition was_stored (o : FlushOutcome) : bool :=
  match o with
  | Delivered | BroadcastThrew => true
  | SendRejected => false
  end.

(** The end of a flush of [events]: the [catch] block puts them back in
    front of the buffer. *)
Definition flush_end (events : list JsVal) (o : FlushOutcome) (self : t) : t :=
  match o with
  | Delivered => self
  | SendRejected | BroadcastThrew =>
      {| eventBuffer := events ++ eventBuffer self;
         bufferSize := bufferSize self |}
  end.

End HookListener.

(** ** The listener over time *)
Module ListenerTrace.
Import HookListener.

Inductive Step : Type :=
| Receive (m : MessageEvent)
| Tick
| Settle (k : nat) (o : FlushOutcome).   (* the flush at index [k] ends *)

Record World : Type := {
  listener : HookListener.t;
  in_flight : list (list JsVal);   (* the batches of the running flushes *)
  stored : list (list JsVal)       (* the batches the background received *)
}.

Definition start : World :=
  {| listener := HookListener.create; in_flight := []; stored := [] |}.

Definition launch (r : HookListener.t * option (list JsVal)) (w : World)
  : World :=
  {| listener := fst r;
     in_flight := in_flight w ++ match snd r with
                                 | Some batch => [batch]
                                 | None => []
                                 end;
     stored := stored w |}.

Definition step (w : World) (s : Step) : World :=
  match s with
  | Receive m => launch (receive m (listener w)) w
  | Tick => launch (tick (listener w)) w
  | Settle k o =>
      match in_flight w !! k with
      | None => w
      | Some batch =>
          {| listener := flush_end batch o (listener w);
             in_flight := delete k (in_flight w);
             stored := stored w ++ (if was_stored o then [batch] else []) |}
      end
  end.

Definition run (steps : list Step) : World := fold_left step steps start.

(** The messages the listener took in, in arrival order. *)
Definition accepted (steps : list Step) : list JsVal :=
  flat_map
    (fun s =>
       match s with
       | Receive m =>
           if from_window m then
             match payload m with
             | JUndefined | JNull => []
             | data => if from_hook data then [data] else []
             end
           else []
       | _ => []
       end) steps.

(** Every event the world knows of, wherever it is. *)
Definition everything (w : World) : list JsVal :=
  eventBuffer (listener w) ++ concat (in_flight w) ++ concat (stored w).

Definition no_broadcast_failure (s : Step) : Prop :=
  match s with
  | Settle _ BroadcastThrew => False
  | _ => True
  end.

(** A message of the fetch hook. *)
Definition hook_message (n : Z) : MessageEvent :=
  {| from_window := true;
     payload := JObj [("source", JStr "fetch-hook"); ("n", JNum n)] |}.

End ListenerTrace.

(** ** APIMonitor *)
Module APIMonitor.

Record Endpoint : Type := {
  url : JsVal;
  method : JsVal;
  count : nat;
  lastCall : Z;
  avgResponseTime : Z;
  errors : nat
}.

(** [private endpoints = new Map<string, {...}>()] *)
Record t : Type := { endpoints : list (string * Endpoint) }.

Definition create : t := {| endpoints := [] |}.

(** [.sort((a, b) => b.count - a.count)]: the larger count first, equal
    counts in their former order. *)
Fixpoint insert_by_count (x : Endpoint) (l : list Endpoint) : list Endpoint :=
  match l with
  | [] => [x]
  | y :: r =>
      if Nat.ltb (count x) (count y) then y :: insert_by_count x r
      else x :: y :: r
  end.

Definition sort_by_count (l : list Endpoint) : list Endpoint :=
  fold_right insert_by_count [] l.

(** [Array.from(this.endpoints.values())] *)
Definition values (self : t) : list Endpoint := List.map snd (endpoints self).

Section WithPlatform.
(** What [`${v}`] is for a value [v]. *)
Variable template : JsVal -> string.
(** What a value that is no number is as a number; [None] is [NaN]. *)
Variable to_number : JsVal -> option Z.

(** [event.data?.method || 'GET'] *)
Definition method_of (event : HookStorage.StoredHookEvent) : JsVal :=
  JS.or_else (JS.get_prop (HookStorage.data event) "method") (JStr "GET").

(** [`${event.data?.method || 'GET'}:${event.url}`] *)
Definition key_of (event : HookStorage.StoredHookEvent) : string :=
  template (method_of event) +:+ ":" +:+ template (HookStorage.url event).

(** [event.data?.status && event.data.status >= 400] *)
Definition is_error (event : HookStorage.StoredHookEvent) : bool :=
  let status := JS.get_prop (HookStorage.data event) "status" in
  JS.truthy status &&
  match status with
  | JNum n => Z.leb 400 n
  | v => match to_number v with Some n => Z.leb 400 n | None => false end
  end.

(** [{ url: event.url || '', method: ..., count: 0, ... }] *)
Definition fresh_stats (event : HookStorage.StoredHookEvent) : Endpoint :=
  {| url := JS.or_else (HookStorage.url event) (JStr EmptyString);
     method := method_of event;
     count := 0; lastCall := 0; avgResponseTime := 0; errors := 0 |}.

(** [stats.count++; stats.lastCall = Math.max(...); if (...) stats.errors++] *)
Definition touch (stats : Endpoint) (event : HookStorage.StoredHookEvent)
  : Endpoint :=
  {| url := url stats; method := method stats;
     count := S (count stats);
     lastCall := Z.max (lastCall stats) (HookStorage.timestamp event);
     avgResponseTime := avgResponseTime stats;
     errors := if is_error event then S (errors stats) else errors stats |}.

(** One turn of [events.forEach] in [analyzeEvents]. *)
Definition analyze_one (m : list (string * Endpoint))
    (event : HookStorage.StoredHookEvent) : list (string * Endpoint) :=
  let key := key_of event in
  let stats := default (fresh_stats event) (JS.map_get key m) in
  JS.map_set key (touch stats event) m.

(** [async analyzeEvents()], for the [events] the background answers
    with: the monitor afterwards and the array returned. *)
Definition analyzeEvents (self : t) (events : list HookStorage.StoredHookEvent)
  : t * list Endpoint :=
  let self1 := {| endpoints := fold_left analyze_one events (endpoints self) |} in
  (self1, sort_by_count (values self1)).
End WithPlatform.

(** [getTopEndpoints(limit)] *)
Definition getTopEndpoints (self : t) (limit : nat) : list Endpoint :=
  Array.slice0 limit (sort_by_count (values self)).

End APIMonitor.

(** ** The monitor over several refreshes *)
Module Monitoring.
Import APIMonitor.

(** The monitor after [analyzeEvents()] ran once for each of the
    [answers] of the background, in this order. *)
Definition after_calls (template : JsVal -> string)
    (to_number : JsVal -> option Z)
    (answers : list (list HookStorage.StoredHookEvent)) : t :=
  fold_left (fun self events => fst (analyzeEvents template to_number self events))
            answers create.

Definition total_count (l : list Endpoint) : nat :=
  fold_right (fun e acc => (count e + acc)%nat) 0%nat l.

(** The larger count first. *)
Definition busiest_first (l : list Endpoint) : Prop :=
  StronglySorted (fun a b => (count b <= count a)%nat) l.

(** The events of [events] that fall under [key]. *)
Definition under (template : JsVal -> string) (key : string)
    (events : list HookStorage.StoredHookEvent)
  : list HookStorage.StoredHookEvent :=
  List.filter (fun e => String.eqb (key_of template e) key) events.

(** The latest timestamp of [events], and 0 at least. *)
Definition latest (events : list HookStorage.StoredHookEvent) : Z :=
  fold_left (fun acc e => Z.max acc (HookStorage.timestamp e)) events 0.

(** What every endpoint of a monitor satisfies. *)
Definition sound (e : Endpoint) : Prop :=
  (1 <= count e)%nat /\ (errors e <= count e)%nat /\ 0 <= lastCall e.

End Monitoring.

(** ** [String.prototype.split] with a separator that is not empty *)
Module Split.

(** The text before the first occurrence of [sep] in [s], and the text
    after it when there is one. *)
Fixpoint break (sep s : string) : string * option string :=
  match JS.strip_prefix sep s with
  | Some r => (EmptyString, Some r)
  | None =>
      match s with
      | EmptyString => (EmptyString, None)
      | String c s' =>
          let b := break sep s' in (String c (fst b), snd b)
      end
  end.

(** The pieces of [s] between the occurrences of [sep], found from the
    left; [n] bounds the number of occurrences. *)
Fixpoint split_fuel (n : nat) (sep s : string) : list string :=
  match n with
  | O => [s]
  | S n' =>
      match break sep s with
      | (a, None) => [a]
      | (a, Some r) => a :: split_fuel n' sep r
      end
  end.

(** [s.split(sep)] *)
Definition split (sep s : string) : list string :=
  split_fuel (S (String.length s)) sep s.

(** Whether the character [c] occurs in [s]. *)
Fixpoint has_char (c : ascii) (s : string) : bool :=
  match s with
  | EmptyString => false
  | String x r => Ascii.eqb c x || has_char c r
  end.

End Split.

(** ** AdvancedXHRHook: the response headers *)
Module XHRHeaders.

Definition CR : ascii := ascii_of_nat 13.

(** ['\r\n'] *)
Definition CRLF : string := String CR JS.LF.

(** [headers[k] = v] on an object literal: the own properties as a map.
    Assigning a string to [__proto__] leaves the object as it is. *)
Definition obj_set (k v : string) (headers : gmap string string)
  : gmap string string :=
  if String.eqb k "__proto__" then headers else <[k := v]> headers.

(** One turn of [forEach]: [const [key, value] = line.split(': ')]. *)
Definition parse_line (headers : gmap string string) (line : string)
  : gmap string string :=
  match Split.split ": " line with
  | key :: value :: _ =>
      if JS.truthy_string key && JS.truthy_string value
      then obj_set (JS.toLowerCase key) value headers
      else headers
  | _ => headers
  end.

Definition parseResponseHeaders (headersString : string) : gmap string string :=
  if negb (JS.truthy_string headersString) then ∅
  else fold_left parse_line (Split.split CRLF headersString) ∅.

(** What [getAllResponseHeaders()] gives for the headers [hs]: one line
    for each, ended by CR and LF. *)
Definition header_line (kv : string * string) : string :=
  fst kv +:+ ": " +:+ snd kv.

Fixpoint serialise (hs : list (string * string)) : string :=
  match hs with
  | [] => EmptyString
  | kv :: r => header_line kv +:+ CRLF +:+ serialise r
  end.

(** A header the parser reads back as it was written. *)
Definition plain (kv : string * string) : Prop :=
  fst kv <> EmptyString
  /\ Split.has_char ":" (fst kv) = false
  /\ Split.has_char CR (fst kv) = false
  /\ snd kv <> EmptyString
  /\ Split.has_char CR (snd kv) = false
  /\ JS.includes ": " (snd kv) = false.

(** Two headers, for the examples. *)
Definition two_headers : list (string * string) :=
  [("Content-Type", "application/json"); ("Date", "Tue, 03 Nov 2026 10:00:00 GMT")].

End XHRHeaders.

(** ** HookStorage: [getEvents] with filters *)
Module StoredQueries.
Import HookStorage.

(** The [filters] argument; a field that is not given is [None]. *)
Record Filters : Type := {
  f_source : option Source;
  f_url : option string;
  startTime : option Z;
  endTime : option Z
}.

Definition same_source (a b : Source) : bool :=
  match a, b with
  | xhr, xhr | fetch, fetch | websocket, websocket => true
  | _, _ => false
  end.

(** [n && ...] for a number that may be missing *)
Definition some_number (o : option Z) : option Z :=
  match o with
  | Some n => if Z.eqb n 0 then None else Some n
  | None => None
  end.

(** [s && ...] for a string that may be missing *)
Definition some_text (o : option string) : option string :=
  match o with
  | Some s => if JS.truthy_string s then Some s else None
  | None => None
  end.

(** [u.includes(needle)] for a truthy [u]: the method of strings and of
    arrays; a number, [true] or an object has none. *)
Definition url_includes (u : JsVal) (needle : string) : Exc bool :=
  match u with
  | JStr s => Return (JS.includes needle s)
  | JArr l =>
      Return (existsb (fun v => match v with
                                | JStr s => String.eqb s needle
                                | _ => false
                                end) l)
  | _ => Throw (ErrorObj "TypeError" "event.url.includes is not a function")
  end.

(** [filters.source && event.source !== filters.source] *)
Definition wrong_source (filters : Filters) (event : StoredHookEvent) : bool :=
  match f_source filters with
  | Some s => negb (same_source (source event) s)
  | None => false
  end.

(** [filters.url && event.url && !event.url.includes(filters.url)] *)
Definition wrong_url (filters : Filters) (event : StoredHookEvent) : Exc bool :=
  match some_text (f_url filters) with
  | Some u =>
      if JS.truthy (url event)
      then b ← url_includes (url event) u; mret (negb b)
      else Return false
  | None => Return false
  end.

(** [filters.startTime && event.timestamp < filters.startTime] *)
Definition too_early (filters : Filters) (event : StoredHookEvent) : bool :=
  match some_number (startTime filters) with
  | Some n => Z.ltb (timestamp event) n
  | None => false
  end.

(** [filters.endTime && event.timestamp > filters.endTime] *)
Definition too_late (filters : Filters) (event : StoredHookEvent) : bool :=
  match some_number (endTime filters) with
  | Some n => Z.ltb n (timestamp event)
  | None => false
  end.

(** The callback of [events.filter] in [getEvents]: the four tests in
    turn, the first that holds returns [false]. *)
Definition keep (filters : Filters) (event : StoredHookEvent) : Exc bool :=
  if wrong_source filters event then Return false
  else
    hit ← wrong_url filters event;
    if (hit : bool) then Return false
    else if too_early filters event then Return false
    else if too_late filters event then Return false
    else Return true.

(** [async getEvents(filters?)]; [stored] is what the storage holds
    under ['hook_events']. *)
Definition getEvents (stored : option (list StoredHookEvent))
    (filters : option Filters) : Exc (list StoredHookEvent) :=
  let events := default [] stored in
  match filters with
  | None => Return events
  | Some f => HookQueries.filter_events (keep f) events
  end.

(** What a filter asks of an event. *)
Definition passes (filters : Filters) (event : StoredHookEvent) : Prop :=
  (forall s, f_source filters = Some s -> source event = s)
  /\ (forall u s, f_url filters = Some u -> u <> EmptyString ->
                  url event = JStr s -> s <> EmptyString ->
                  JS.includes u s = true)
  /\ (forall n, startTime filters = Some n -> n <> 0 -> n <= timestamp event)
  /\ (forall n, endTime filters = Some n -> n <> 0 -> timestamp event <= n).

(** [{ url: u }] *)
Definition only_url (u : string) : Filters :=
  {| f_source := None; f_url := Some u; startTime := None; endTime := None |}.

(** [{ startTime: t }] *)
Definition since (t : Z) : Filters :=
  {| f_source := None; f_url := None; startTime := Some t; endTime := None |}.

End StoredQueries.

(* ================================================================== *)
(** * Properties *)
(* ================================================================== *)

Section SchemaScanProofs.
Import JS UniversalProtobufParser SchemaScan.

Lemma package_after_snoc p0 ls l :
  package_after p0 (ls ++ [l]) =
  match packageMatch l with
  | Some p => p
  | None => package_after p0 ls
  end.
Proof.
  unfold package_after. rewrite omap_app. simpl.
  destruct (packageMatch l) as [p|]; simpl.
  - by rewrite last_snoc.
  - by rewrite app_nil_r.
Qed.

Lemma entry_at_prefix p0 ls l i :
  (i < length ls)%nat -> entry_at p0 (ls ++ [l]) i = entry_at p0 ls i.
Proof.
  intros Hi. unfold entry_at.
  rewrite lookup_app_l by done.
  rewrite take_app_le by lia. done.
Qed.

Lemma declared_types_snoc p0 ls l :
  declared_types p0 (ls ++ [l]) =
  declared_types p0 ls ++
  match messageMatch l with
  | Some n => [fullName (package_after p0 (ls ++ [l])) n]
  | None => []
  end.
Proof.
  unfold declared_types.
  rewrite length_app. simpl length.
  rewrite seq_app, map_app, concat_app. f_equal.
  - f_equal. apply map_ext_in. intros i Hi.
    apply in_seq in Hi. apply entry_at_prefix. lia.
  - simpl. rewrite app_nil_r. unfold entry_at.
    rewrite lookup_app_r by lia.
    replace (length ls - length ls)%nat with 0%nat by lia. simpl.
    destruct (messageMatch l); [|done].
    rewrite take_ge; [done|]. rewrite length_app. simpl. lia.
Qed.

Lemma scan_fold ls :
  fold_left scan_line ls (EmptyString, []) =
  (package_after EmptyString ls, declared_types EmptyString ls).
Proof.
  induction ls as [|l ls IH] using rev_ind; [done|].
  rewrite fold_left_app, IH. simpl.
  rewrite declared_types_snoc, package_after_snoc.
  unfold scan_line. simpl.
  destruct (messageMatch l); [done|]. by rewrite app_nil_r.
Qed.

(** C9. For every schema text, [extractMessageTypes] returns, in line
    order, one entry per line on which the message pattern matches: the
    captured name, prefixed by the capture of the most recent package
    line (this line included) and a dot, or bare when no package was
    seen.  Nesting plays no part: in [package p; message Outer {
    message Inner { } }] written over four lines the inner message is
    [p.Inner], not [p.Outer.Inner]. *)
Theorem extractMessageTypes_line_scan :
  (forall protoContent : string,
      extractMessageTypes protoContent =
      declared_types EmptyString (split_lines protoContent))
  /\ extractMessageTypes
       ("package p;" +:+ LF +:+ "message Outer {" +:+ LF +:+
        "  message Inner { }" +:+ LF +:+ "}")
     = ["p.Outer"; "p.Inner"].
Proof.
  split.
  - intros protoContent. unfold extractMessageTypes.
    by rewrite scan_fold.
  - reflexivity.
Qed.

End SchemaScanProofs.

Section DecodeProofs.
Import JS UniversalProtobufParser Decode.

Lemma first_success_app {A B} (f : A -> option B) l k :
  first_success f (l ++ k) =
  match first_success f l with
  | Some r => Some r
  | None => first_success f k
  end.
Proof.
  induction l as [|a l IH]; simpl; [done|].
  destruct (f a); done.
Qed.

Lemma first_success_Some {A B} (f : A -> option B) l a b :
  first_success f l = Some (a, b) ->
  exists pre post,
    l = pre ++ a :: post /\ Forall (fun x => f x = None) pre /\ f a = Some b.
Proof.
  induction l as [|x l IH]; simpl; [done|].
  destruct (f x) as [y|] eqn:Hx.
  - intros [= <- <-]. exists [], l. auto.
  - intros Hl. destruct (IH Hl) as (pre & post & -> & Hpre & Ha).
    exists (x :: pre), post. auto.
Qed.

Lemma first_success_None {A B} (f : A -> option B) l :
  first_success f l = None -> Forall (fun x => f x = None) l.
Proof.
  induction l as [|x l IH]; simpl; [constructor|].
  destruct (f x) eqn:Hx; [done|]. auto.
Qed.

Lemma Forall_first_success_None {A B} (f : A -> option B) l :
  Forall (fun x => f x = None) l -> first_success f l = None.
Proof.
  induction 1 as [|x l Hx _ IH]; simpl; [done|]. by rewrite Hx.
Qed.

Lemma first_success_map {A B C} (g : A -> B) (f : B -> option C) l :
  first_success f (List.map g l) =
  match first_success (fun a => f (g a)) l with
  | Some (a, c) => Some (g a, c)
  | None => None
  end.
Proof.
  induction l as [|a l IH]; simpl; [done|].
  destruct (f (g a)); done.
Qed.

Lemma includes_empty s : includes EmptyString s = true.
Proof. by destruct s. Qed.

Lemma candidates_selected u hint : candidates u hint = selected u hint.
Proof.
  destruct hint as [[|c h]|]; simpl; [|done..].
  induction (protoDefinitions u) as [|e l IH]; simpl; [done|].
  rewrite includes_empty. by f_equal.
Qed.

(** The inner loop returns the first type of the schema that decodes. *)
Lemma try_types_first parser n buffer types :
  try_types parser n buffer types =
  Return
    (match first_success
             (fun mt =>
                match ProtobufParser.decodeMessage parser mt buffer with
                | Return d => Some d
                | Throw _ => None
                end) types with
     | Some (mt, d) => Some (found (n, mt) d)
     | None => None
     end).
Proof.
  induction types as [|mt types IH]; simpl; [done|].
  destruct (ProtobufParser.decodeMessage parser mt buffer); simpl; done.
Qed.

Lemma first_success_no_parser u buffer n types :
  map_get n (parsers u) = None ->
  first_success (attempt u buffer) (List.map (fun mt => (n, mt)) types) = None.
Proof.
  intros Hn. apply Forall_first_success_None, List.Forall_forall.
  intros a Ha. apply in_map_iff in Ha as (mt & <- & _).
  unfold attempt. simpl. by rewrite Hn.
Qed.

Lemma try_candidates_first u buffer cands :
  try_candidates u buffer cands =
  Return
    (match first_success (attempt u buffer)
             (flat_map
                (fun e => List.map (fun mt => (fst e, mt)) (messageTypes (snd e)))
                cands) with
     | Some (a, d) => found a d
     | None => failure
     end).
Proof.
  induction cands as [|[n def] cands IH]; simpl; [done|].
  rewrite first_success_app.
  destruct (map_get n (parsers u)) as [parser|] eqn:Hn.
  - rewrite try_types_first. simpl.
    rewrite first_success_map. unfold attempt at 1. simpl. rewrite Hn.
    destruct (first_success _ (messageTypes def)) as [[mt d]|]; simpl; done.
  - rewrite first_success_no_parser by done. done.
Qed.

Lemma tryParse_first u buffer hint :
  tryParse u buffer hint =
  Return
    (match first_success (attempt u buffer) (attempts u hint) with
     | Some (a, d) => found a d
     | None => failure
     end).
Proof.
  unfold tryParse, attempts.
  by rewrite try_candidates_first, candidates_selected.
Qed.

End DecodeProofs.

Section DecodeConsistency.
Import JS UniversalProtobufParser Decode.

Lemma map_get_set_eq {V} k (v : V) m : map_get k (map_set k v m) = Some v.
Proof.
  induction m as [|[k' v'] m IH]; simpl.
  - by rewrite String.eqb_refl.
  - destruct (String.eqb k' k) eqn:E; simpl.
    + by rewrite String.eqb_refl.
    + by rewrite E.
Qed.

Lemma map_get_set_ne {V} k k' (v : V) m :
  k <> k' -> map_get k' (map_set k v m) = map_get k' m.
Proof.
  intros Hne. induction m as [|[k0 v0] m IH]; simpl.
  - destruct (String.eqb k k') eqn:E; [|done].
    by apply String.eqb_eq in E.
  - destruct (String.eqb k0 k) eqn:E; simpl.
    + apply String.eqb_eq in E as ->.
      destruct (String.eqb k k') eqn:E'; [|done].
      by apply String.eqb_eq in E'.
    + by rewrite IH.
Qed.

Lemma map_get_set_is_Some {V} k k' (v : V) m :
  is_Some (map_get k' m) -> is_Some (map_get k' (map_set k v m)).
Proof.
  intros Hk'. destruct (String.eqb_spec k k') as [->|Hne].
  - rewrite map_get_set_eq. eauto.
  - by rewrite map_get_set_ne.
Qed.

Lemma Forall_map_set {V} (P : string * V -> Prop) k v m :
  P (k, v) -> Forall P m -> Forall P (map_set k v m).
Proof.
  intros Hkv. induction 1 as [|[k' v'] m Hx Hm IH]; simpl.
  - by constructor.
  - destruct (String.eqb k' k); by constructor.
Qed.

(** The engine starts consistent, and every registration that goes
    through keeps it so: in a state that registrations built, each
    schema that [tryParse] selects has its parser. *)
Lemma create_consistent : consistent create.
Proof. constructor. Qed.

Lemma registerProto_consistent parse n text u u' :
  consistent u -> registerProto parse n text u = Return u' -> consistent u'.
Proof.
  unfold registerProto, ProtobufParser.loadProto, consistent.
  intros Hu. destruct (parse text) as [r|e]; simpl; [|done].
  intros [= <-]. simpl.
  apply Forall_map_set.
  - simpl. split; [done|]. rewrite map_get_set_eq. eauto.
  - eapply Forall_impl; [exact Hu|].
    intros [k d] [Hname Hget]. simpl in *. split; [done|].
    by apply map_get_set_is_Some.
Qed.

(** In a consistent state every attempt has a parser to run on: none is
    skipped. *)
Lemma attempts_have_parsers u hint a :
  consistent u -> In a (attempts u hint) ->
  is_Some (map_get (fst a) (parsers u)).
Proof.
  intros Hu Ha. unfold attempts in Ha.
  apply in_flat_map in Ha as (e & He & Ha).
  apply in_map_iff in Ha as (mt & <- & _). simpl.
  assert (Hin : In e (protoDefinitions u)).
  { destruct hint as [h|]; simpl in He; [|done].
    by apply filter_In in He as [He _]. }
  unfold consistent in Hu. rewrite List.Forall_forall in Hu.
  by destruct (Hu e Hin).
Qed.

End DecodeConsistency.

Section DecodeClaims.
Import JS UniversalProtobufParser Decode.

(** C2. For every buffer, hint and engine state, [tryParse] scans the
    attempts of the selected schemas in order (schemas in registration
    order, types in extraction order) and settles on the first one that
    decodes, with [success: true], that type and that schema's name;
    when none decodes it settles on [{ success: false }]. *)
Theorem tryParse_first_match :
  forall (u : t) (buffer : list Z) (hint : option string),
    (exists pre n mt post d,
        attempts u hint = pre ++ (n, mt) :: post
        /\ Forall (fun a => attempt u buffer a = None) pre
        /\ attempt u buffer (n, mt) = Some d
        /\ tryParse u buffer hint =
           Return {| success := true; data := Some d;
                     messageType := Some mt; protoName := Some n |})
    \/ (Forall (fun a => attempt u buffer a = None) (attempts u hint)
        /\ tryParse u buffer hint = Return failure).
Proof.
  intros u buffer hint. rewrite tryParse_first.
  destruct (first_success (attempt u buffer) (attempts u hint))
    as [[[n mt] d]|] eqn:Hfirst.
  - left. apply first_success_Some in Hfirst as (pre & post & Hl & Hpre & Ha).
    exists pre, n, mt, post, d. auto.
  - right. split; [|done]. by apply first_success_None.
Qed.

(** When every attempt is answered with a rejection, no attempt
    succeeds. *)
Lemma rejected_attempts u buffer hint :
  Protobufjs.reads_no_array_buffer u ->
  Forall (fun a => attempt u buffer a = None) (attempts u hint).
Proof.
  intros Hlib. apply List.Forall_forall. intros [n mt] _.
  unfold attempt. simpl.
  destruct (map_get n (parsers u)) as [parser|] eqn:Hp; [|done].
  unfold ProtobufParser.decodeMessage.
  destruct (ProtobufParser.root parser) as [r|] eqn:Hr; [|done].
  destruct (lookupType r mt) as [[T|]|e] eqn:Ht; simpl; try done.
  by rewrite (Hlib n parser r mt T Hp Hr Ht buffer).
Qed.

(** C1. [tryParse] settles on a result for every buffer, hint and
    state: it never throws.  For the empty input it settles on
    [{ success: false }]: the buffer is an [ArrayBuffer], which the
    library rejects at every attempt; and with nothing registered the
    result is [{ success: false }] whatever the library does. *)
Theorem tryParse_never_throws :
  (forall (u : t) (buffer : list Z) (hint : option string),
      exists r : DecodeResult, tryParse u buffer hint = Return r)
  /\ (forall (u : t) (hint : option string),
        Protobufjs.reads_no_array_buffer u ->
        tryParse u [] hint = Return failure)
  /\ (forall (buffer : list Z) (hint : option string),
        tryParse create buffer hint = Return failure).
Proof.
  split; [|split].
  - intros u buffer hint. rewrite tryParse_first. eauto.
  - intros u hint Hlib. rewrite tryParse_first.
    by rewrite (Forall_first_success_None _ _ (rejected_attempts u [] hint Hlib)).
  - intros buffer hint. by destruct hint as [[|c h]|].
Qed.

Lemma demo_reads_no_array_buffer :
  Protobufjs.reads_no_array_buffer Protobufjs.demo.
Proof.
  intros n parser r mt T Hp Hr Ht buffer.
  change (parsers Protobufjs.demo)
    with [("demo",
           {| ProtobufParser.root :=
                Some (Protobufjs.root_of (extractMessageTypes Wire.demo_text)) |})]
    in Hp.
  cbn [map_get] in Hp. destruct (String.eqb "demo" n); [|done].
  injection Hp as <-. cbn [ProtobufParser.root] in Hr. injection Hr as <-.
  unfold Protobufjs.root_of in Ht. cbn [lookupType] in Ht.
  destruct (existsb (String.eqb mt) (extractMessageTypes Wire.demo_text));
    [|done].
  by injection Ht as <-.
Qed.

Lemma tryParse_never_throws_witness :
  Protobufjs.reads_no_array_buffer Protobufjs.demo
  /\ getRegisteredProtos Protobufjs.demo = ["demo"]
  /\ tryParse Protobufjs.demo [] None = Return failure.
Proof.
  split; [exact demo_reads_no_array_buffer|]. split; [reflexivity|].
  exact (proj1 (proj2 tryParse_never_throws) Protobufjs.demo None
           demo_reads_no_array_buffer).
Defined.

(** The example of the specification: a wire-encoded [M] with [a = 1]
    decodes as [p.M] of schema [demo]. *)
Example tryParse_demo_instance :
  tryParse Wire.demo [8; 1] None =
  Return {| success := true; data := Some (JArr [JNum 1]);
            messageType := Some "p.M"; protoName := Some "demo" |}.
Proof. reflexivity. Qed.

End DecodeClaims.

Section LogProofs.
Import Log.

Lemma last_n_length {A} n (l : list A) :
  length (last_n n l) = Nat.min (length l) n.
Proof. unfold last_n. rewrite length_drop. lia. Qed.

(** One recording step on a log that holds the last [n] entries of [l]. *)
Lemma push_shift_last_n {A} n (l : list A) (e : A) :
  (if Nat.ltb n (length (Array.push (last_n n l) e))
   then Array.shift (Array.push (last_n n l) e)
   else Array.push (last_n n l) e)
  = last_n n (l ++ [e]).
Proof.
  unfold Array.push. rewrite length_app, last_n_length. simpl length.
  unfold last_n. rewrite length_app. simpl length.
  destruct (Nat.ltb_spec n (Nat.min (length l) n + 1)) as [Hfull|Hroom].
  - (* the log was full: the oldest entry goes *)
    assert (Hn : (n <= length l)%nat) by lia.
    replace (length l + 1 - n)%nat with (S (length l - n)) by lia.
    destruct (decide (n = 0%nat)) as [->|Hpos].
    + replace (length l - 0)%nat with (length l) by lia.
      rewrite drop_all. simpl.
      rewrite drop_ge; [done|]. rewrite length_app. simpl. lia.
    + rewrite (drop_app_le l [e] (S (length l - n))) by lia.
      destruct (drop (length l - n) l) as [|x r] eqn:Hd.
      * apply drop_nil_inv in Hd. lia.
      * simpl. f_equal.
        change r with (drop 1 (x :: r)). rewrite <- Hd, drop_drop.
        f_equal. lia.
  - replace (length l - n)%nat with 0%nat by lia.
    replace (length l + 1 - n)%nat with 0%nat by lia. done.
Qed.

Lemma xhr_after_spec capacity evs :
  AdvancedXHRHook.events (xhr_after capacity evs) = last_n capacity evs
  /\ AdvancedXHRHook.maxEvents (xhr_after capacity evs) = capacity.
Proof.
  unfold xhr_after.
  induction evs as [|e evs [IHe IHm]] using rev_ind; [done|].
  rewrite fold_left_app. simpl fold_left.
  unfold AdvancedXHRHook.recordEvent at 1 3.
  cbn [AdvancedXHRHook.events AdvancedXHRHook.maxEvents].
  rewrite IHe, IHm. split; [|done]. apply push_shift_last_n.
Qed.

Lemma fetch_after_spec evs :
  AdvancedFetchHook.events (fetch_after evs) = last_n 1000 evs.
Proof.
  unfold fetch_after.
  induction evs as [|e evs IH] using rev_ind; [done|].
  rewrite fold_left_app. simpl fold_left.
  unfold AdvancedFetchHook.recordEvent at 1.
  cbn [AdvancedFetchHook.events].
  rewrite IH. apply push_shift_last_n.
Qed.

Lemma ws_after_spec evs :
  AdvancedWebSocketHook.events (ws_after evs) = last_n 2000 evs.
Proof.
  unfold ws_after.
  induction evs as [|e evs IH] using rev_ind; [done|].
  rewrite fold_left_app. simpl fold_left.
  unfold AdvancedWebSocketHook.recordEvent at 1.
  cbn [AdvancedWebSocketHook.events].
  rewrite IH. apply push_shift_last_n.
Qed.

(** C3. After a recorder recorded [N] events its buffer holds exactly
    [min N C] events, the most recent ones in arrival order: for the XHR
    hook with any capacity [C] in its [maxEvents] field (1000 as
    shipped), for the fetch hook with [C = 1000] and for the WebSocket
    hook with [C = 2000]. *)
Theorem recorders_hold_most_recent :
  (forall (C : nat) (evs : list AdvancedXHRHook.XHREvent),
      let log := AdvancedXHRHook.getEvents (xhr_after C evs) in
      length log = Nat.min (length evs) C
      /\ log = drop (length evs - C) evs)
  /\ (forall evs : list AdvancedXHRHook.XHREvent,
        let log :=
          AdvancedXHRHook.getEvents
            (fold_left AdvancedXHRHook.recordEvent evs AdvancedXHRHook.create) in
        length log = Nat.min (length evs) 1000
        /\ log = drop (length evs - 1000) evs)
  /\ (forall evs : list AdvancedFetchHook.FetchEvent,
        let log := AdvancedFetchHook.getEvents (fetch_after evs) in
        length log = Nat.min (length evs) 1000
        /\ log = drop (length evs - 1000) evs)
  /\ (forall evs : list AdvancedWebSocketHook.WebSocketEvent,
        let log := AdvancedWebSocketHook.getEvents (ws_after evs) in
        length log = Nat.min (length evs) 2000
        /\ log = drop (length evs - 2000) evs).
Proof.
  assert (Hx : forall C evs,
             AdvancedXHRHook.getEvents (xhr_after C evs) = last_n C evs).
  { intros C evs. unfold AdvancedXHRHook.getEvents, Array.spread.
    apply xhr_after_spec. }
  repeat split.
  - rewrite Hx. apply last_n_length.
  - apply Hx.
  - unfold AdvancedXHRHook.create. fold (xhr_after 1000 evs).
    rewrite Hx. apply last_n_length.
  - apply (Hx 1000%nat).
  - unfold AdvancedFetchHook.getEvents, Array.spread.
    rewrite fetch_after_spec. apply last_n_length.
  - apply fetch_after_spec.
  - unfold AdvancedWebSocketHook.getEvents, Array.spread.
    rewrite ws_after_spec. apply last_n_length.
  - apply ws_after_spec.
Qed.

(** The example of the specification: capacity 3, five events. *)
Example xhr_capacity_three (e1 e2 e3 e4 e5 : AdvancedXHRHook.XHREvent) :
  AdvancedXHRHook.getEvents (xhr_after 3 [e1; e2; e3; e4; e5]) = [e3; e4; e5].
Proof. reflexivity. Qed.

End LogProofs.

Section ConnectionProofs.
Import AdvancedWebSocketHook Connections.

Lemma succ_double_below c : 0 <= c < 2 ^ 53 -> succ_double c = c + 1.
Proof.
  intros Hc. unfold succ_double.
  destruct (Z.ltb_spec c (2 ^ 53)); lia.
Qed.

(** The connections constructed from a counter [c] receive the ids
    [c, c + 1, ...] while the counter stays within the exact range of a
    double. *)
Lemma construct_all_ids sockets : forall self,
  0 <= connectionIdCounter self ->
  connectionIdCounter self + Z.of_nat (length sockets) <= 2 ^ 53 ->
  fst (construct_all self sockets) =
  List.map (fun i => connectionIdCounter self + Z.of_nat i)
           (seq 0 (length sockets)).
Proof.
  induction sockets as [|[u w] rest IH]; intros self H0 Hmax; [done|].
  cbn [construct_all construct].
  destruct (construct_all _ rest) as [ids self2] eqn:Hrest.
  cbn [fst connectionId length seq List.map].
  rewrite Z.add_0_r. f_equal.
  change ids with (fst (ids, self2)). rewrite <- Hrest.
  rewrite IH; cbn [connectionIdCounter length] in *.
  - rewrite succ_double_below by lia.
    rewrite <- seq_shift, map_map.
    apply map_ext. intros i. lia.
  - rewrite succ_double_below; lia.
  - rewrite succ_double_below; lia.
Qed.

(** At [2^53] the counter no longer moves. *)
Example succ_double_saturates : succ_double (2 ^ 53) = 2 ^ 53.
Proof. reflexivity. Qed.

(** C6, as the code has it. Constructing a hooked socket files it in
    [connections] under the current counter; when its close notification
    fires the entry is gone and [getActiveConnections] counts one less;
    an error notification records its event and leaves [connections] as
    it was. *)
Theorem connection_filed_until_close :
  (forall (self : t) (u : string) (w : WebSocket),
      let h := hooked u w (connectionIdCounter self) in
      fst (construct self u (Return w)) = Return h
      /\ connections (snd (construct self u (Return w))) !! connectionId h
         = Some w)
  /\ (forall (h : Hooked) (closeCode : Z) (closeReason : string) (now : Z)
             (self : t),
        let self' := fst (on_close h closeCode closeReason now self) in
        connections self' !! connectionId h = None
        /\ getActiveConnections self' =
           match connections self !! connectionId h with
           | Some _ => Nat.pred (getActiveConnections self)
           | None => getActiveConnections self
           end)
  /\ (forall (h : Hooked) (now : Z) (self : t),
        connections (fst (on_error h now self)) = connections self).
Proof.
  split; [|split].
  - intros self u w. simpl. split; [done|]. apply lookup_insert_eq.
  - intros h closeCode closeReason now self. simpl. split.
    + apply lookup_delete_eq.
    + unfold getActiveConnections. simpl. rewrite map_size_delete.
      destruct (connections self !! connectionId h); done.
  - done.
Qed.

(** C6, as stated, fails: after the error notification of its only
    connection the hook still counts one active connection. *)
Lemma error_keeps_connection :
  let self1 := snd (construct create "wss://example.test/feed" (Return 7%nat)) in
  let h := hooked "wss://example.test/feed" 7%nat 0 in
  fst (construct create "wss://example.test/feed" (Return 7%nat)) = Return h
  /\ connections (fst (on_error h 1700000000000 self1)) !! 0 = Some 7%nat
  /\ getActiveConnections (fst (on_error h 1700000000000 self1)) = 1%nat.
Proof.
  simpl. split; [done|]. split.
  - apply lookup_insert_eq.
  - unfold getActiveConnections. simpl.
    rewrite insert_empty. apply map_size_singleton.
Qed.

End ConnectionProofs.

Section IdProofs.
Import HookStorage Ids AdvancedWebSocketHook Connections.

Lemma string_of_uint_dash_free d :
  dash_free (NilEmpty.string_of_uint d) = true.
Proof. induction d; simpl; auto. Qed.

Lemma show_Z_dash_free n : 0 <= n -> dash_free (show_Z n) = true.
Proof.
  intros Hn. destruct n as [|p|p]; [done| |lia].
  unfold show_Z. simpl.
  destruct (Pos.to_uint p); try apply (string_of_uint_dash_free (_ _)); done.
Qed.

Lemma to_int_not_nil n :
  Z.to_int n <> Decimal.Pos Decimal.Nil /\ Z.to_int n <> Decimal.Neg Decimal.Nil.
Proof.
  destruct n as [|p|p]; simpl; split; try discriminate;
    intros [= Hp]; by apply DecimalPos.Unsigned.to_uint_nonnil in Hp.
Qed.

Lemma show_Z_inj n m : show_Z n = show_Z m -> n = m.
Proof.
  unfold show_Z. intros Heq.
  apply (f_equal NilZero.int_of_string) in Heq.
  destruct (to_int_not_nil n), (to_int_not_nil m).
  rewrite !NilZero.isi in Heq by done.
  injection Heq as Heq.
  apply (f_equal Z.of_int) in Heq. by rewrite !DecimalZ.of_to in Heq.
Qed.

(** A dash-free prefix ends at the first dash. *)
Lemma dash_split d1 : forall d2 x1 x2,
  dash_free d1 = true -> dash_free d2 = true ->
  d1 +:+ "-" +:+ x1 = d2 +:+ "-" +:+ x2 -> d1 = d2 /\ x1 = x2.
Proof.
  induction d1 as [|c d1 IH]; intros [|c' d2] x1 x2 H1 H2; simpl in *.
  - intros [= Hx]. by subst.
  - intros [= Hc _]. subst c'. done.
  - intros [= Hc _]. subst c. done.
  - intros [= Hc Heq]. subst c'.
    apply andb_prop in H1 as [_ H1]. apply andb_prop in H2 as [_ H2].
    destruct (IH _ _ _ H1 H2 Heq) as [Hd Hx]. by subst.
Qed.

Lemma make_id_inj d1 d2 :
  0 <= now_id d1 -> 0 <= now_id d2 ->
  make_id d1 = make_id d2 ->
  now_id d1 = now_id d2
  /\ JS.substr 2 9 (random36 d1) = JS.substr 2 9 (random36 d2).
Proof.
  intros H1 H2 Heq. unfold make_id in Heq.
  apply dash_split in Heq as [Hn Hr]; auto using show_Z_dash_free.
  split; [by apply show_Z_inj|done].
Qed.

(** The events of a batch are stored under the ids of the draws. *)
Lemma map_events_ids events draws : forall i l,
  map_events events draws i = Return l ->
  List.map id l = List.map (fun k => make_id (draws k)) (seq i (length events)).
Proof.
  induction events as [|ev events IH]; intros i l; simpl.
  - by intros [= <-].
  - unfold stored_of.
    destruct (he_data ev) eqn:Hd; simpl; try done;
      (destruct (map_events events draws (S i)) as [ss|] eqn:Hss; simpl;
       [|done]; intros [= <-]; simpl; f_equal; by apply IH).
Qed.

(** C8, as the code has it. The identifiers that grow are the connection
    ids of the WebSocket hook: of two connections the later one has the
    greater id, so none is used twice, as long as no more than [2^53]
    connections were made.  A stored event gets the id
    [<Date.now()>-<random part>]: two such ids are equal exactly when
    both the clock reading and the random part are. *)
Theorem ids_as_assigned :
  (forall (sockets : list (string * WebSocket)) (i j : nat) (a b : Z),
      Z.of_nat (length sockets) <= 2 ^ 53 ->
      (i < j)%nat ->
      fst (construct_all create sockets) !! i = Some a ->
      fst (construct_all create sockets) !! j = Some b ->
      a < b)
  /\ (forall d1 d2 : Draw,
        0 <= now_id d1 -> 0 <= now_id d2 ->
        (make_id d1 = make_id d2
         <-> now_id d1 = now_id d2
             /\ JS.substr 2 9 (random36 d1) = JS.substr 2 9 (random36 d2))).
Proof.
  split.
  - intros sockets i j a b Hmax Hij Ha Hb.
    rewrite construct_all_ids in Ha, Hb by (simpl; lia).
    simpl in Ha, Hb.
    apply list_lookup_fmap_Some_1 in Ha as (ka & -> & Hka).
    apply list_lookup_fmap_Some_1 in Hb as (kb & -> & Hkb).
    apply lookup_seq in Hka as [-> _]. apply lookup_seq in Hkb as [-> _].
    lia.
  - intros d1 d2 H1 H2. split.
    + by apply make_id_inj.
    + intros [Hn Hr]. unfold make_id. by rewrite Hn, Hr.
Qed.

Lemma ids_as_assigned_witness :
  (0 < 1)
  /\ (make_id (draws_equal 0) = make_id (draws_equal 1)
      <-> now_id (draws_equal 0) = now_id (draws_equal 1)
          /\ JS.substr 2 9 (random36 (draws_equal 0))
             = JS.substr 2 9 (random36 (draws_equal 1))).
Proof.
  split.
  - apply (proj1 ids_as_assigned
             [("wss://example.test/a", 1%nat); ("wss://example.test/b", 2%nat)]
             0%nat 1%nat 0 1).
    + simpl. lia.
    + lia.
    + reflexivity.
    + reflexivity.
  - apply (proj2 ids_as_assigned (draws_equal 0) (draws_equal 1)).
    + simpl. lia.
    + simpl. lia.
Defined.

(** C8, as stated, fails for the ids of stored events: two events stored
    in the same millisecond get ids whose order is that of their random
    parts, here descending, and get the same id when the first nine
    digits of the random numbers coincide. *)
Lemma stored_ids_unordered :
  stored_ids (storeEvents two_events draws_same_ms None)
  = ["1700000000000-zq8x4m1k7"; "1700000000000-a3f9c2e8b"]
  /\ String.ltb "1700000000000-a3f9c2e8b" "1700000000000-zq8x4m1k7" = true
  /\ stored_ids (storeEvents two_events draws_equal None)
     = ["1700000000000-k3x9q2m7a"; "1700000000000-k3x9q2m7a"].
Proof. vm_compute. auto. Qed.

End IdProofs.

Section SnapshotProofs.
Import Store Snapshot.
Context {E : Type}.

Lemma fresh_array_other (σ : Store.t E) (a : ref) :
  is_Some (arrays σ !! a) -> fresh_array σ <> a.
Proof.
  intros Ha Heq. apply elem_of_dom in Ha. rewrite <- Heq in Ha.
  by apply (is_fresh (dom (arrays σ))).
Qed.

Lemma read_write_other (σ : Store.t E) (a b : ref) l :
  a <> b -> read_array (write_array σ a l) b = read_array σ b.
Proof.
  intros Hab. unfold read_array, write_array. simpl.
  by rewrite lookup_insert_ne.
Qed.

Lemma read_write_same (σ : Store.t E) (a : ref) l :
  read_array (write_array σ a l) a = l.
Proof. unfold read_array, write_array. simpl. by rewrite lookup_insert_eq. Qed.

(** A structural mutation of one array leaves every object and every
    other array as it was. *)
Lemma mutate_structural (σ : Store.t E) (a b : ref) (m : Mutation) :
  is_structural m = true -> a <> b ->
  objects (mutate a m σ) = objects σ
  /\ read_array (mutate a m σ) b = read_array σ b.
Proof.
  intros Hm Hab.
  destruct m as [op|i f]; [|discriminate Hm]. simpl.
  split; [done|by apply read_write_other].
Qed.

Lemma mutate_all_structural (ms : list Mutation) : forall (σ : Store.t E) a b,
  Forall (fun m => is_structural m = true) ms -> a <> b ->
  objects (mutate_all a ms σ) = objects σ
  /\ read_array (mutate_all a ms σ) b = read_array σ b.
Proof.
  induction ms as [|m ms IH]; intros σ a b Hms Hab; [done|].
  apply Forall_cons in Hms as [Hm Hms]. unfold mutate_all. simpl.
  destruct (IH (mutate a m σ) a b Hms Hab) as [Ho Hr].
  destruct (mutate_structural σ a b m Hm Hab) as [Ho' Hr'].
  unfold mutate_all in *. split; congruence.
Qed.

(** C7, as the code has it. [getEvents] returns a new array that holds
    the references of the buffer: whatever the caller does to that array
    itself (index writes, push, pop, shift, splice, sort, a new length)
    leaves the buffer of the hook and the events in it as they were. *)
Theorem getEvents_array_is_independent :
  forall (σ : Store.t E) (self : Hook) (ms : list Mutation),
    is_Some (arrays σ !! events self) ->
    Forall (fun m => is_structural m = true) ms ->
    fst (getEvents self σ) <> events self
    /\ read_array (snd (getEvents self σ)) (fst (getEvents self σ))
       = read_array σ (events self)
    /\ contents (mutate_all (fst (getEvents self σ)) ms (snd (getEvents self σ)))
                self
       = contents σ self.
Proof.
  intros σ self ms Hself Hms. unfold getEvents. simpl.
  pose proof (fresh_array_other σ (events self) Hself) as Hne.
  split; [done|]. split.
  - apply read_write_same.
  - unfold contents.
    destruct (mutate_all_structural ms
                (write_array σ (fresh_array σ)
                   (Array.spread (read_array σ (events self))))
                (fresh_array σ) (events self) Hms Hne) as [Ho Hr].
    rewrite Ho, Hr. rewrite read_write_other by done. done.
Qed.

End SnapshotProofs.

Section SnapshotExamples.
Import Store Snapshot.

Lemma getEvents_array_is_independent_witness :
  contents
    (mutate_all (fst (getEvents sample_hook sample_store)) [Pop; Push 5%nat]
       (snd (getEvents sample_hook sample_store)))
    sample_hook
  = contents sample_store sample_hook.
Proof.
  apply (getEvents_array_is_independent sample_store sample_hook
           [Pop; Push 5%nat]).
  - vm_compute. eauto.
  - repeat constructor.
Defined.

(** C7, as stated, fails: the copy shares the event objects, so a write
    to a field of [snapshot[0]] shows in the buffer of the hook. *)
Lemma snapshot_shares_events :
  let snapshot := fst (getEvents sample_hook sample_store) in
  let σ1 := snd (getEvents sample_hook sample_store) in
  contents σ1 sample_hook = [Some sample_event]
  /\ contents (mutate snapshot (OnElement 0 tamper) σ1) sample_hook
     = [Some (tamper sample_event)]
  /\ tamper sample_event <> sample_event.
Proof.
  split; [|split].
  - vm_compute. reflexivity.
  - vm_compute. reflexivity.
  - discriminate.
Qed.

End SnapshotExamples.

Section FetchProofs.
Import Fetch.
Variable JSON_parse : string -> Exc JsVal.

(** The basic hook hands the caller what the original fetch settled to. *)
Lemma basic_fetch_transparent input init original :
  fetchHook.outcome (fetchHook.wrapped input init original) = original.
Proof. by destruct original. Qed.

(** Without interceptors the advanced hook re-throws what the original
    fetch threw. *)
Lemma advanced_fetch_rethrows self now input init e :
  AdvancedFetchHook.interceptors self = [] ->
  AdvancedFetchHook.outcome
    (AdvancedFetchHook.wrapped JSON_parse self now input init (Throw e))
  = Throw e.
Proof. intros Hi. unfold AdvancedFetchHook.wrapped. by rewrite Hi. Qed.

(** Without interceptors, and when the body of the clone can be read,
    the advanced hook returns the response of the original fetch. *)
Lemma advanced_fetch_returns_response self now input init r b :
  AdvancedFetchHook.interceptors self = [] ->
  AdvancedFetchHook.read_body r = Return b ->
  AdvancedFetchHook.outcome
    (AdvancedFetchHook.wrapped JSON_parse self now input init (Return r))
  = Return r.
Proof.
  intros Hi Hb. unfold AdvancedFetchHook.wrapped. rewrite Hi. simpl.
  by rewrite Hb.
Qed.

(** C4 fails on the advanced hook. The original fetch resolves with a
    [204] response that carries a JSON content type and no body; the
    hook awaits [json()] of the clone inside its [try], the rejection
    lands in the [catch] that re-throws, and the caller gets a
    [SyntaxError] in place of the response.  The basic hook returns the
    response on the same input. *)
Theorem advanced_fetch_leaks_body_error :
  forall (now : Z) (input : Input) (init : option RequestInit),
    AdvancedFetchHook.outcome
      (AdvancedFetchHook.wrapped JSON_parse AdvancedFetchHook.create now
         input init (Return Responses.no_content))
    = Throw (ErrorObj "SyntaxError" "Unexpected end of JSON input")
    /\ AdvancedFetchHook.outcome
         (AdvancedFetchHook.wrapped JSON_parse AdvancedFetchHook.create now
            input init (Return Responses.no_content))
       <> Return Responses.no_content
    /\ fetchHook.outcome
         (fetchHook.wrapped input init (Return Responses.no_content))
       = Return Responses.no_content.
Proof.
  intros now input init.
  assert (H : AdvancedFetchHook.outcome
                (AdvancedFetchHook.wrapped JSON_parse AdvancedFetchHook.create
                   now input init (Return Responses.no_content))
              = Throw (ErrorObj "SyntaxError" "Unexpected end of JSON input"))
    by reflexivity.
  split; [exact H|]. split; [|reflexivity].
  rewrite H. discriminate.
Qed.

End FetchProofs.

Section FilterProofs.
Import EventFilter Filtering.
Context {T : Type} `{EventLike T}.
Variable RegExp_test_i : string -> string -> Exc bool.
Variable JSON_stringify : JsVal -> string.

Abbreviation keep := (keep RegExp_test_i JSON_stringify).
Abbreviation filter := (filter RegExp_test_i JSON_stringify).
Abbreviation searchText := (searchText JSON_stringify).

(** A callback that never throws filters as [List.filter] does. *)
Lemma array_filter_pure (p : T -> bool) (f : T -> Exc bool) (l : list T) :
  (forall e, In e l -> f e = Return (p e)) ->
  array_filter f l = Return (List.filter p l).
Proof.
  induction l as [|x l IH]; intros Hf; [done|]. simpl.
  rewrite (Hf x) by (by left). simpl.
  rewrite IH by (intros e He; apply Hf; by right). simpl.
  by destruct (p x).
Qed.

Lemma filter_true_all (l : list T) (p : T -> bool) :
  (forall e, In e l -> p e = true) -> List.filter p l = l.
Proof.
  induction l as [|x l IH]; intros Hp; [done|]. simpl.
  rewrite (Hp x) by (by left). f_equal. apply IH.
  intros e He. apply Hp. by right.
Qed.

Lemma filter_false_none (l : list T) (p : T -> bool) :
  (forall e, In e l -> p e = false) -> List.filter p l = [].
Proof.
  induction l as [|x l IH]; intros Hp; [done|]. simpl.
  rewrite (Hp x) by (by left). apply IH.
  intros e He. apply Hp. by right.
Qed.

Lemma keep_by_method m e :
  keep (by_method m) e = Return (method_ok (by_method m) e).
Proof.
  unfold EventFilter.keep, source_ok, url_ok, status_ok, time_ok, keyword_ok,
    contentType_ok. simpl.
  by destruct (method_ok (by_method m) e).
Qed.

Lemma method_ok_post e : method_ok (by_method "POST") e = passes_post e.
Proof.
  unfold method_ok, passes_post. simpl.
  destruct (ev_method e) as [[|c m]|]; done.
Qed.

Lemma keep_keyword_miss m k e :
  JS.includes (JS.toLowerCase k) (searchText e) = false ->
  keep (by_method_and_keyword m k) e = Return false.
Proof.
  intros Hmiss.
  unfold EventFilter.keep, source_ok, url_ok, status_ok, time_ok, keyword_ok,
    contentType_ok. simpl.
  destruct (method_ok (by_method_and_keyword m k) e); simpl; [|done].
  destruct k as [|c k]; [by destruct (searchText e)|].
  change (JS.truthy_string (String c k)) with true. cbv iota.
  by rewrite Hmiss.
Qed.

(** C5, as the code has it. [filter(events, { method: "POST" })] returns,
    in their original order, the events that carry no method or whose
    method is [POST] (case ignored); with a keyword added that occurs in
    the search text of no event, the result is empty. *)
Theorem filter_post_and_keyword :
  (forall events : list T,
      filter events (by_method "POST")
      = Return (List.filter passes_post events))
  /\ (forall (events : list T) (k : string),
        (forall e, In e events ->
                   JS.includes (JS.toLowerCase k) (searchText e) = false) ->
        filter events (by_method_and_keyword "POST" k) = Return []).
Proof.
  split.
  - intros events. unfold EventFilter.filter.
    apply array_filter_pure. intros e _.
    by rewrite keep_by_method, method_ok_post.
  - intros events k Hmiss. unfold EventFilter.filter.
    rewrite (array_filter_pure (fun _ => false)).
    + f_equal. by apply filter_false_none.
    + intros e He. apply keep_keyword_miss; auto.
Qed.

Lemma keep_without_method o e :
  ev_method e = None -> keep o e = keep (without_method o) e.
Proof.
  intros Hm. unfold EventFilter.keep, method_ok. simpl. rewrite Hm. simpl.
  by destruct (some_string (method o)).
Qed.

Lemma keep_without_status o e :
  ev_status e = None -> keep o e = keep (without_status o) e.
Proof.
  intros Hs. unfold EventFilter.keep, status_ok. simpl. rewrite Hs.
  by destruct (status_truthy (statusCode o)) as [[]|].
Qed.

Lemma keep_without_time o e :
  ev_timestamp e = None -> keep o e = keep (without_time o) e.
Proof.
  intros Ht. unfold EventFilter.keep, time_ok. simpl. rewrite Ht. simpl.
  by destruct (timeRange o).
Qed.

Lemma keep_no_options e : keep no_options e = Return true.
Proof. reflexivity. Qed.

Lemma filter_keeps_all (events : list T) (o : FilterOptions) :
  (forall e, In e events -> keep o e = Return true) ->
  filter events o = Return events.
Proof.
  intros Hall. unfold EventFilter.filter.
  rewrite (array_filter_pure (fun _ => true)) by done.
  by rewrite filter_true_all.
Qed.

(** C10. An event that lacks the field a constraint is about passes that
    constraint: for such an event the callback of [filter] answers as it
    does for the options without the constraint, whatever else the
    options hold; and a filter on the method, the status code or the
    time range alone retains every event that lacks the field. *)
Theorem filter_passes_missing_field :
  (forall (o : FilterOptions) (e : T),
      ev_method e = None -> keep o e = keep (without_method o) e)
  /\ (forall (o : FilterOptions) (e : T),
        ev_status e = None -> keep o e = keep (without_status o) e)
  /\ (forall (o : FilterOptions) (e : T),
        ev_timestamp e = None -> keep o e = keep (without_time o) e)
  /\ (forall (events : list T) (m : string),
        (forall e, In e events -> ev_method e = None) ->
        filter events (by_method m) = Return events)
  /\ (forall (events : list T) (s : StatusSpec),
        (forall e, In e events -> ev_status e = None) ->
        filter events (by_status s) = Return events)
  /\ (forall (events : list T) (r : TimeRange),
        (forall e, In e events -> ev_timestamp e = None) ->
        filter events (by_time r) = Return events).
Proof.
  split; [exact keep_without_method|].
  split; [exact keep_without_status|].
  split; [exact keep_without_time|].
  split; [|split].
  - intros events m Hall. apply filter_keeps_all. intros e He.
    rewrite keep_without_method by auto. apply keep_no_options.
  - intros events s Hall. apply filter_keeps_all. intros e He.
    rewrite keep_without_status by auto. apply keep_no_options.
  - intros events r Hall. apply filter_keeps_all. intros e He.
    rewrite keep_without_time by auto. apply keep_no_options.
Qed.

End FilterProofs.

Section FilterExamples.
Import EventFilter Filtering.

Lemma filter_post_and_keyword_witness :
  filter literal_test render sample_entries (by_method_and_keyword "POST" "zebra")
  = Return [].
Proof.
  apply (proj2 (filter_post_and_keyword literal_test render)
           sample_entries "zebra").
  intros e He. simpl in He.
  destruct He as [<-|[<-|[<-|[]]]]; vm_compute; reflexivity.
Defined.

Lemma filter_passes_missing_field_witness :
  keep literal_test render (by_method "POST") no_method_entry
  = keep literal_test render (without_method (by_method "POST")) no_method_entry.
Proof.
  apply (proj1 (filter_passes_missing_field literal_test render)
           (by_method "POST") no_method_entry).
  reflexivity.
Defined.

(** C5, as stated, fails: the WebSocket message carries no method and is
    returned by the [POST] filter all the same. *)
Lemma filter_post_returns_untagged :
  filter literal_test render sample_entries (by_method "POST")
  = Return [no_method_entry; post_entry]
  /\ ev_method no_method_entry = None.
Proof. split; reflexivity. Qed.

End FilterExamples.

Section RegistrationProofs.
Import JS UniversalProtobufParser Decode Text.

Lemma map_set_keys {V} k (v : V) m :
  List.map fst (map_set k v m) =
  if existsb (String.eqb k) (List.map fst m)
  then List.map fst m else List.map fst m ++ [k].
Proof.
  induction m as [|[k' v'] m IH]; simpl; [done|].
  rewrite (String.eqb_sym k k').
  destruct (String.eqb k' k) eqn:E; simpl.
  - by apply String.eqb_eq in E as ->.
  - rewrite IH. by destruct (existsb _ _).
Qed.

(** X1. A registration that goes through files the new definition, with
    the types the line scan finds, under its name; it leaves every other
    name as it was, and the list of registered names keeps its order: a
    name that was registered keeps its place, a new name goes to the
    end.  A registration whose text the library rejects throws the
    library's error. *)
Theorem registerProto_last_write_wins :
  forall (parse : string -> Exc Root) (n text : string) (u : t),
    (forall e, parse text = Throw e -> registerProto parse n text u = Throw e)
    /\ (forall u', registerProto parse n text u = Return u' ->
          map_get n (protoDefinitions u') =
            Some {| name := n; content := text;
                    messageTypes := extractMessageTypes text |}
          /\ is_Some (map_get n (parsers u'))
          /\ (forall k, k <> n ->
                map_get k (protoDefinitions u') = map_get k (protoDefinitions u)
                /\ map_get k (parsers u') = map_get k (parsers u))
          /\ getRegisteredProtos u' =
               if registered n u then getRegisteredProtos u
               else getRegisteredProtos u ++ [n]).
Proof.
  intros parse n text u. unfold registerProto, ProtobufParser.loadProto.
  split.
  - intros e He. by rewrite He.
  - intros u'. destruct (parse text) as [r|e]; simpl; [|done].
    intros [= <-]. simpl. repeat split.
    + apply map_get_set_eq.
    + rewrite map_get_set_eq. eauto.
    + by apply map_get_set_ne.
    + by apply map_get_set_ne.
    + unfold getRegisteredProtos, registered. simpl. apply map_set_keys.
Qed.

Lemma registerProto_last_write_wins_witness :
  getRegisteredProtos
    (match registerProto Wire.parse "demo" "message N { }" Wire.demo with
     | Return u' => u'
     | Throw _ => create
     end) = ["demo"].
Proof.
  destruct (registerProto Wire.parse "demo" "message N { }" Wire.demo)
    as [u'|e] eqn:Hreg; [|discriminate Hreg].
  destruct (proj2 (registerProto_last_write_wins Wire.parse "demo"
                     "message N { }" Wire.demo) u' Hreg)
    as (_ & _ & _ & Hnames).
  rewrite Hnames. reflexivity.
Defined.

Lemma take_while_all p s : all_chars p (take_while p s) = true.
Proof.
  induction s as [|c s IH]; simpl; [done|].
  destruct (p c) eqn:Hc; simpl; [|done]. by rewrite Hc.
Qed.

Lemma regex_capture_shape kw cls s cap :
  regex_capture kw cls s = Some cap ->
  cap <> EmptyString /\ all_chars cls cap = true.
Proof.
  induction s as [|c s IH]; simpl.
  - unfold match_here. destruct (strip_prefix kw EmptyString) as [r|]; [|done].
    destruct (truthy_string (take_while is_space r)); [|done].
    destruct (take_while cls (drop_while is_space r)) as [|c' r'] eqn:Hc; [done|].
    simpl. intros [= <-]. split; [done|]. rewrite <- Hc. apply take_while_all.
  - unfold match_here at 1.
    destruct (strip_prefix kw (String c s)) as [r|]; [|by apply IH].
    destruct (truthy_string (take_while is_space r)); [|by apply IH].
    destruct (take_while cls (drop_while is_space r)) as [|c' r'] eqn:Hc;
      [by apply IH|].
    simpl. intros [= <-]. split; [done|]. rewrite <- Hc. apply take_while_all.
Qed.

Lemma all_chars_app p a b :
  all_chars p (a +:+ b) = all_chars p a && all_chars p b.
Proof.
  induction a as [|c a IH]; simpl; [done|]. by rewrite IH, andb_assoc.
Qed.

Lemma all_chars_weaken (p q : ascii -> bool) s :
  (forall c, p c = true -> q c = true) ->
  all_chars p s = true -> all_chars q s = true.
Proof.
  intros Hpq. induction s as [|c s IH]; simpl; [done|].
  intros [Hc Hs]%andb_prop. by rewrite (Hpq c Hc), IH.
Qed.

Lemma fullName_shape pkg n :
  all_chars is_package_char pkg = true ->
  n <> EmptyString -> all_chars is_word n = true ->
  fullName pkg n <> EmptyString
  /\ all_chars is_package_char (fullName pkg n) = true.
Proof.
  intros Hpkg Hn Hw.
  assert (Hn' : all_chars is_package_char n = true).
  { apply (all_chars_weaken is_word); [|done].
    intros c Hc. unfold is_package_char. by rewrite Hc. }
  unfold fullName. destruct pkg as [|c pkg]; simpl; [done|].
  split; [done|]. simpl in Hpkg. apply andb_prop in Hpkg as [Hc Hpkg].
  rewrite Hc. simpl. rewrite all_chars_app, Hpkg. simpl. exact Hn'.
Qed.

Lemma scan_shape lines : forall st,
  all_chars is_package_char (fst st) = true ->
  Forall (fun t => t <> EmptyString /\ all_chars is_package_char t = true)
         (snd st) ->
  Forall (fun t => t <> EmptyString /\ all_chars is_package_char t = true)
         (snd (fold_left scan_line lines st)).
Proof.
  induction lines as [|l lines IH]; intros st Hp Hl; [done|].
  simpl. apply IH.
  - unfold scan_line.
    assert (Hp' : all_chars is_package_char
                    match packageMatch l with
                    | Some p => p
                    | None => fst st
                    end = true).
    { destruct (packageMatch l) as [p|] eqn:Hm; [|done].
      by apply regex_capture_shape in Hm as [_ ?]. }
    by destruct (messageMatch l).
  - unfold scan_line.
    assert (Hp' : all_chars is_package_char
                    match packageMatch l with
                    | Some p => p
                    | None => fst st
                    end = true).
    { destruct (packageMatch l) as [p|] eqn:Hm; [|done].
      by apply regex_capture_shape in Hm as [_ ?]. }
    destruct (messageMatch l) as [n|] eqn:Hn; simpl; [|done].
    apply regex_capture_shape in Hn as [Hne Hw].
    apply Forall_app. split; [done|]. constructor; [|constructor].
    by apply fullName_shape.
Qed.

(** X2. Whatever the schema text holds, every type name that
    [extractMessageTypes] returns is a non-empty string of letters,
    digits, underscores and dots: no white space, brace or quote of the
    text gets into a name. *)
Theorem extractMessageTypes_names_are_identifiers :
  forall protoContent : string,
    Forall (fun t => t <> EmptyString /\ all_chars is_package_char t = true)
           (extractMessageTypes protoContent).
Proof.
  intros protoContent. unfold extractMessageTypes.
  apply scan_shape; [done|constructor].
Qed.

(** X3. A success of [tryParse] names a registered schema and one of the
    types listed in its definition; with a hint, the name of that schema
    holds the hint, case ignored. *)
Theorem tryParse_success_is_listed :
  forall (u : t) (buffer : list Z) (hint : option string) (r : DecodeResult),
    tryParse u buffer hint = Return r ->
    success r = true ->
    exists n def mt,
      protoName r = Some n /\ messageType r = Some mt
      /\ In (n, def) (protoDefinitions u)
      /\ In mt (messageTypes def)
      /\ match hint with
         | Some h => includes (toLowerCase h) (toLowerCase n) = true
         | None => True
         end.
Proof.
  intros u buffer hint r. rewrite tryParse_first.
  destruct (first_success (attempt u buffer) (attempts u hint))
    as [[[n mt] d]|] eqn:Hfirst; intros [= <-]; [|done]. intros _.
  apply first_success_Some in Hfirst as (pre & post & Hl & _ & _).
  assert (Hin : In (n, mt) (attempts u hint)).
  { rewrite Hl. apply in_or_app. right. by left. }
  unfold attempts in Hin. apply in_flat_map in Hin as ([n' def] & Hsel & Hmt).
  apply in_map_iff in Hmt as (mt' & [= <- <-] & Hmt). simpl in *.
  exists n', def, mt'. repeat split; try done.
  - destruct hint as [h|]; simpl in Hsel; [|done].
    by apply filter_In in Hsel as [? _].
  - destruct hint as [h|]; simpl in Hsel; [|done].
    by apply filter_In in Hsel as [_ ?].
Qed.

Lemma tryParse_success_is_listed_witness :
  exists n def mt,
    Some "demo" = Some n /\ Some "p.M" = Some mt
    /\ In (n, def) (protoDefinitions Wire.demo)
    /\ In mt (messageTypes def)
    /\ includes (toLowerCase "DEM") (toLowerCase n) = true.
Proof.
  apply (tryParse_success_is_listed Wire.demo [8; 1] (Some "DEM")
           {| success := true; data := Some (JArr [JNum 1]);
              messageType := Some "p.M"; protoName := Some "demo" |}).
  - reflexivity.
  - reflexivity.
Defined.

End RegistrationProofs.

Section LenientRegistration.
Import JS UniversalProtobufParser Decode.

Lemma strip_prefix_app k a b r :
  strip_prefix k a = Some r -> strip_prefix k (a +:+ b) = Some (r +:+ b).
Proof.
  revert a. induction k as [|c k IH]; intros a; simpl.
  - by intros [= <-].
  - destruct a as [|c' a]; simpl; [done|].
    destruct (Ascii.eqb c c'); [apply IH|done].
Qed.

Lemma includes_cons k c s : includes k s = true -> includes k (String c s) = true.
Proof. intros Hs. simpl. by destruct (strip_prefix k (String c s)). Qed.

Lemma includes_app_l k a b : includes k a = true -> includes k (a +:+ b) = true.
Proof.
  induction a as [|c a IH]; simpl.
  - destruct (strip_prefix k EmptyString) as [r|] eqn:Hk; [|done]. intros _.
    destruct k; [|done]. by destruct b.
  - destruct (strip_prefix k (String c a)) as [r|] eqn:Hk.
    + intros _. apply (strip_prefix_app _ _ b) in Hk.
      change (String c a +:+ b) with (String c (a +:+ b)) in Hk.
      by rewrite Hk.
    + intros Ha. destruct (strip_prefix k (String c (a +:+ b))); [done|].
      by apply IH.
Qed.

Lemma includes_app_r k a b : includes k b = true -> includes k (a +:+ b) = true.
Proof.
  intros Hb. induction a as [|c a IH]; [done|].
  simpl. apply includes_cons. exact IH.
Qed.

Lemma match_here_prefix kw cls s cap :
  match_here kw cls s = Some cap -> is_Some (strip_prefix kw s).
Proof. unfold match_here. destruct (strip_prefix kw s); [eauto|done]. Qed.

Lemma regex_capture_includes kw cls s cap :
  regex_capture kw cls s = Some cap -> includes kw s = true.
Proof.
  induction s as [|c s IH]; simpl.
  - destruct (match_here kw cls EmptyString) as [x|] eqn:Hm; [|done].
    intros _. apply match_here_prefix in Hm as [r Hr]. by rewrite Hr.
  - destruct (match_here kw cls (String c s)) as [x|] eqn:Hm.
    + intros _. apply match_here_prefix in Hm as [r Hr]. by rewrite Hr.
    + intros Hs. destruct (strip_prefix kw (String c s)); [done|]. by apply IH.
Qed.

(** The first line of a text is a prefix of the text. *)
Lemma split_lines_head text l ls :
  split_lines text = l :: ls -> exists rest, text = l +:+ rest.
Proof.
  revert l ls. induction text as [|c text IH]; intros l ls; simpl.
  - intros [= <- _]. by exists EmptyString.
  - destruct (Nat.eqb (code c) 10).
    + intros [= <- _]. by exists (String c text).
    + destruct (split_lines text) as [|l0 ls0] eqn:Hs.
      * intros [= <- _]. destruct text; simpl in Hs; [done|].
        destruct (Nat.eqb (code a) 10); [done|].
        by destruct (split_lines text).
      * intros [= <- _]. destruct (IH l0 ls0 eq_refl) as [rest ->].
        by exists rest.
Qed.

(** What occurs in a line occurs in the text. *)
Lemma split_lines_includes k text l :
  In l (split_lines text) -> includes k l = true -> includes k text = true.
Proof.
  revert l. induction text as [|c text IH]; intros l; simpl.
  - by intros [<-|[]].
  - destruct (Nat.eqb (code c) 10).
    + intros [<-|Hin] Hl.
      * simpl in Hl. destruct k; [done|done].
      * apply includes_cons. by apply (IH l).
    + destruct (split_lines text) as [|l0 ls0] eqn:Hs.
      * intros [<-|[]] Hl.
        destruct text; simpl in Hs; [done|].
        destruct (Nat.eqb (code a) 10); [done|].
        by destruct (split_lines text).
      * intros [<-|Hin] Hl.
        -- destruct (split_lines_head text l0 ls0 Hs) as [rest ->].
           by apply (includes_app_l k (String c l0) rest).
        -- apply includes_cons. apply (IH l); [by right|done].
Qed.

Lemma scan_no_message lines : forall st,
  Forall (fun l => messageMatch l = None) lines ->
  snd (fold_left scan_line lines st) = snd st.
Proof.
  induction lines as [|l lines IH]; intros st Hl; [done|].
  apply Forall_cons in Hl as [Hl Hls]. simpl. rewrite IH by done.
  unfold scan_line. by rewrite Hl.
Qed.

Lemma extractMessageTypes_no_keyword text :
  includes "message" text = false -> extractMessageTypes text = [].
Proof.
  intros Hno. unfold extractMessageTypes. rewrite scan_no_message; [done|].
  apply List.Forall_forall. intros l Hl.
  destruct (messageMatch l) as [n|] eqn:Hm; [|done].
  apply regex_capture_includes in Hm.
  by rewrite (split_lines_includes _ text l Hl Hm) in Hno.
Qed.

Lemma attempts_no_types u hint :
  Forall (fun e => messageTypes (snd e) = []) (protoDefinitions u) ->
  attempts u hint = [].
Proof.
  intros Hall. unfold attempts.
  assert (Hsel : Forall (fun e => messageTypes (snd e) = []) (selected u hint)).
  { destruct hint as [h|]; simpl; [|done].
    rewrite List.Forall_forall in *. intros e He.
    apply filter_In in He as [He _]. by apply Hall. }
  induction Hsel as [|e l He _ IH]; simpl; [done|]. by rewrite He, IH.
Qed.

(** X4. Registration is lenient: a text in which the word [message]
    does not occur registers with an empty list of types, and an engine
    that holds only that schema answers [{ success: false }] for every
    buffer and hint. *)
Theorem registerProto_without_messages :
  forall (parse : string -> Exc Root) (n text : string) (u' : t),
    includes "message" text = false ->
    registerProto parse n text create = Return u' ->
    (messageTypes <$> map_get n (protoDefinitions u')) = Some []
    /\ getRegisteredProtos u' = [n]
    /\ (forall (buffer : list Z) (hint : option string),
          tryParse u' buffer hint = Return failure).
Proof.
  intros parse n text u' Hno.
  unfold registerProto, ProtobufParser.loadProto.
  destruct (parse text) as [r|e]; simpl; [|done]. intros [= <-].
  rewrite extractMessageTypes_no_keyword by done. simpl.
  rewrite String.eqb_refl. repeat split.
  intros buffer hint. rewrite tryParse_first.
  rewrite attempts_no_types; [done|]. simpl. by repeat constructor.
Qed.

Lemma registerProto_without_messages_witness :
  getRegisteredProtos
    (match registerProto Wire.parse "empty" "syntax = proto3;" create with
     | Return u' => u'
     | Throw _ => create
     end) = ["empty"]
  /\ tryParse
       (match registerProto Wire.parse "empty" "syntax = proto3;" create with
        | Return u' => u'
        | Throw _ => create
        end) [] None = Return failure.
Proof.
  destruct (registerProto Wire.parse "empty" "syntax = proto3;" create)
    as [u'|e] eqn:Hreg; [|discriminate Hreg].
  destruct (registerProto_without_messages Wire.parse "empty"
              "syntax = proto3;" u' eq_refl Hreg) as (_ & Hnames & Hfail).
  split; [exact Hnames|apply Hfail].
Defined.

End LenientRegistration.

Section FetchTraceProofs.
Import Fetch AdvancedFetchHook.
Variable JSON_parse : string -> Exc JsVal.

(** X5. The basic fetch hook is transparent: the caller's promise
    settles exactly as the original fetch did, with the same response or
    the same thrown value, and the hook posts at most one message: a
    [fetch-error] with the message when the original fetch throws; for
    a request body that can be cloned, a [fetch-response] with the
    parsed body when the body of the response is JSON, a
    [fetch-response] with the text when it is no JSON and the response
    has no body at all, and nothing when a body that is there is no
    JSON; and nothing for a request body that cannot be cloned. *)
Theorem fetchHook_is_transparent :
  forall (input : Input) (init : option RequestInit) (original : Exc Response),
    fetchHook.outcome (fetchHook.wrapped input init original) = original
    /\ (length (fetchHook.posted (fetchHook.wrapped input init original)) <= 1)%nat
    /\ (forall e, original = Throw e ->
          exists u m,
            fetchHook.posted (fetchHook.wrapped input init original)
            = [fetchHook.FetchError u m (error_message e)])
    /\ (forall r data, original = Return r ->
          cloneable (init ≫= init_body) = true -> json r = Return data ->
          exists u m,
            fetchHook.posted (fetchHook.wrapped input init original)
            = [fetchHook.FetchResponse u m (init ≫= init_body) data
                 (Fetch.status r) (statusText r) (headers r)])
    /\ (forall r e s, original = Return r ->
          cloneable (init ≫= init_body) = true -> json r = Throw e ->
          body_null r = true -> text r = Return s ->
          exists u m,
            fetchHook.posted (fetchHook.wrapped input init original)
            = [fetchHook.FetchResponseText u m (init ≫= init_body) s
                 (Fetch.status r)])
    /\ (forall r e, original = Return r -> json r = Throw e ->
          body_null r = false ->
          fetchHook.posted (fetchHook.wrapped input init original) = [])
    /\ (forall r, original = Return r ->
          cloneable (init ≫= init_body) = false ->
          fetchHook.posted (fetchHook.wrapped input init original) = []).
Proof.
  intros input init original. destruct original as [r|e0].
  - cbn [fetchHook.wrapped fetchHook.outcome fetchHook.posted].
    unfold fetchHook.read_and_post.
    split; [done|]. split; [|split; [done|split; [|split; [|split]]]].
    + destruct (cloneable _); [|simpl; lia].
      destruct (json r); [simpl; lia|].
      destruct (body_null r); [|simpl; lia].
      destruct (text r); simpl; lia.
    + intros r' data [= <-] -> ->. eauto.
    + intros r' e s [= <-] -> -> -> ->. eauto.
    + intros r' e [= <-] -> ->. by destruct (cloneable _).
    + by intros r' [= <-] ->.
  - cbn [fetchHook.wrapped fetchHook.outcome fetchHook.posted].
    split; [done|]. split; [simpl; lia|].
    split; [intros e' [= <-]; eauto|].
    repeat split; done.
Qed.

(** The response without a body of [Responses.no_content]: the caller
    gets it, and the one message posted holds the empty text. *)
Example fetchHook_no_content :
  fetchHook.wrapped (InputString "https://example.test/a") None
    (Return Responses.no_content)
  = {| fetchHook.outcome := Return Responses.no_content;
       fetchHook.posted :=
         [fetchHook.FetchResponseText "https://example.test/a" "GET" None
            EmptyString 204] |}.
Proof. reflexivity. Qed.







End FetchTraceProofs.

Section FetchTraceExamples.
Import Fetch AdvancedFetchHook Interceptors.




End FetchTraceExamples.

Section LifecycleProofs.
Import AdvancedWebSocketHook Connections Lifecycle.

(** Constructing sockets from a counter above every filed id adds one
    entry per socket. *)
Lemma construct_all_state sockets : forall self,
  0 <= connectionIdCounter self ->
  connectionIdCounter self + Z.of_nat (length sockets) <= 2 ^ 53 ->
  (forall k, is_Some (connections self !! k) -> k < connectionIdCounter self) ->
  let self' := snd (construct_all self sockets) in
  connectionIdCounter self' = connectionIdCounter self + Z.of_nat (length sockets)
  /\ size (connections self') = (size (connections self) + length sockets)%nat
  /\ (forall k, is_Some (connections self' !! k) ->
        is_Some (connections self !! k)
        \/ In k (fst (construct_all self sockets))).
Proof.
  induction sockets as [|[u w] rest IH]; intros self H0 Hmax Hbelow.
  { simpl. split; [lia|]. split; [lia|]. auto. }
  cbn [construct_all construct].
  set (self1 := {| connections := <[connectionIdCounter self := w]> (connections self);
                   events := events self;
                   messageInterceptors := messageInterceptors self;
                   connectionIdCounter := succ_double (connectionIdCounter self) |}).
  assert (Hc1 : connectionIdCounter self1 = connectionIdCounter self + 1).
  { simpl. apply succ_double_below. cbn [length] in Hmax. lia. }
  assert (Hfresh : connections self !! connectionIdCounter self = None).
  { destruct (connections self !! connectionIdCounter self) eqn:Hk; [|done].
    assert (connectionIdCounter self < connectionIdCounter self)
      by (apply Hbelow; rewrite Hk; eauto). lia. }
  specialize (IH self1). cbn [length] in Hmax.
  destruct IH as (Hc & Hs & Hk).
  - lia.
  - lia.
  - intros k Hk. rewrite Hc1. simpl in Hk.
    destruct (decide (connectionIdCounter self = k)) as [<-|Hne]; [lia|].
    rewrite lookup_insert_ne in Hk by done. apply Hbelow in Hk. lia.
  - destruct (construct_all self1 rest) as [ids self2] eqn:Hrest.
    cbn [fst snd connectionId] in *.
    split; [rewrite Hc, Hc1; cbn [length]; lia|]. split.
    + rewrite Hs. simpl. rewrite map_size_insert_None by done.
      cbn [length]. lia.
    + intros k Hk2. destruct (Hk k Hk2) as [Hk1|Hin]; [|right; by right].
      simpl in Hk1.
      destruct (decide (connectionIdCounter self = k)) as [<-|Hne];
        [right; by left|].
      rewrite lookup_insert_ne in Hk1 by done. by left.
Qed.

Lemma close_all_lookup ids now : forall self k,
  connections (close_all ids now self) !! k =
  if decide (k ∈ ids) then None else connections self !! k.
Proof.
  induction ids as [|i ids IH]; intros self k; [done|].
  unfold close_all in *. simpl. rewrite IH. simpl.
  destruct (decide (k ∈ ids)) as [Hin|Hnin].
  - rewrite decide_True; [done|]. by apply list_elem_of_further.
  - destruct (decide (i = k)) as [->|Hne].
    + rewrite lookup_delete_eq. rewrite decide_True; [done|].
      apply list_elem_of_here.
    + rewrite lookup_delete_ne by done. rewrite decide_False; [done|].
      intros [?|?]%elem_of_cons; done.
Qed.

Lemma close_all_counter ids now : forall self,
  connectionIdCounter (close_all ids now self) = connectionIdCounter self.
Proof.
  induction ids as [|i ids IH]; intros self; [done|].
  unfold close_all in *. simpl. by rewrite IH.
Qed.

(** X9. Opening counts up, closing counts down, and ids are not handed
    out again: after [n] sockets were constructed on a new hook (at most
    [2^53] of them) [getActiveConnections] is [n] and the counter is
    [n]; after the close notifications of all of them it is [0], while
    the counter is still [n]. *)
Theorem connections_open_and_close :
  forall (sockets : list (string * WebSocket)) (now : Z),
    Z.of_nat (length sockets) <= 2 ^ 53 ->
    let opened := snd (construct_all create sockets) in
    let ids := fst (construct_all create sockets) in
    getActiveConnections opened = length sockets
    /\ connectionIdCounter opened = Z.of_nat (length sockets)
    /\ getActiveConnections (close_all ids now opened) = 0%nat
    /\ connectionIdCounter (close_all ids now opened) = Z.of_nat (length sockets).
Proof.
  intros sockets now Hmax.
  destruct (construct_all_state sockets create) as (Hc & Hs & Hk).
  - simpl. lia.
  - simpl. lia.
  - simpl. intros k Hk. rewrite lookup_empty in Hk. by destruct Hk.
  - simpl in *. split; [|split; [|split]].
    + unfold getActiveConnections. rewrite Hs. by rewrite map_size_empty.
    + lia.
    + unfold getActiveConnections.
      replace (connections (close_all (fst (construct_all create sockets)) now
                              (snd (construct_all create sockets))))
        with (∅ : gmap Z WebSocket); [apply map_size_empty|].
      apply map_eq. intros k. rewrite lookup_empty, close_all_lookup.
      destruct (decide (k ∈ fst (construct_all create sockets))) as [|Hnin];
        [done|].
      destruct (connections (snd (construct_all create sockets)) !! k) eqn:E;
        [|done].
      destruct (Hk k) as [Hk0|Hin]; [rewrite E; eauto| |].
      * rewrite lookup_empty in Hk0. by destruct Hk0.
      * by apply list_elem_of_In in Hin.
    + rewrite close_all_counter. lia.
Qed.

Lemma connections_open_and_close_witness :
  getActiveConnections
    (snd (construct_all create
            [("wss://example.test/a", 1%nat); ("wss://example.test/b", 2%nat)]))
  = 2%nat.
Proof.
  apply (connections_open_and_close
           [("wss://example.test/a", 1%nat); ("wss://example.test/b", 2%nat)] 0).
  simpl. lia.
Defined.

(** X10. The close notification of one connection removes that
    connection only: every other id stays filed with its socket; and the
    open, error and message notifications and [clearEvents] leave the
    table and the counter as they were. *)
Theorem close_removes_one_connection :
  forall (JSON_parse : string -> Exc JsVal) (h : Hooked) (self : t) (now : Z),
    (forall (closeCode : Z) (closeReason : string) (k : Z),
        k <> connectionId h ->
        connections (fst (on_close h closeCode closeReason now self)) !! k
        = connections self !! k)
    /\ (forall s : t,
          In s [fst (on_open h now self); fst (on_error h now self);
                clearEvents self] ->
          connections s = connections self
          /\ connectionIdCounter s = connectionIdCounter self)
    /\ (forall (rawText : string) (s : t),
          In s [fst (on_message JSON_parse h rawText now self);
                fst (fst (send JSON_parse h rawText now self))] ->
          connections s = connections self
          /\ connectionIdCounter s = connectionIdCounter self).
Proof.
  intros JSON_parse h self now. split; [|split].
  - intros closeCode closeReason k Hk. simpl. by apply lookup_delete_ne.
  - intros s [<-|[<-|[<-|[]]]]; done.
  - intros rawText s [<-|[<-|[]]]; done.
Qed.

Lemma close_removes_one_connection_witness :
  connections
    (fst (on_close (hooked "wss://example.test/a" 1%nat 0) 1000 "bye" 9
            (snd (construct_all create
                    [("wss://example.test/a", 1%nat);
                     ("wss://example.test/b", 2%nat)])))) !! 1
  = connections
      (snd (construct_all create
              [("wss://example.test/a", 1%nat);
               ("wss://example.test/b", 2%nat)])) !! 1.
Proof.
  apply (proj1 (close_removes_one_connection (fun s => Return (JStr s))
                  (hooked "wss://example.test/a" 1%nat 0)
                  (snd (construct_all create
                          [("wss://example.test/a", 1%nat);
                           ("wss://example.test/b", 2%nat)])) 9)
           1000 "bye" 1).
  discriminate.
Defined.

End LifecycleProofs.

Section StorageProofs.
Import HookStorage HookQueries Ids.

Lemma insert_desc_perm x l : Permutation (insert_desc x l) (x :: l).
Proof.
  induction l as [|y l IH]; simpl; [done|].
  destruct (Z.ltb (timestamp x) (timestamp y)); [|done].
  rewrite IH. apply perm_swap.
Qed.

Lemma sort_desc_perm l : Permutation (sort_desc l) l.
Proof.
  induction l as [|x l IH]; simpl; [done|].
  rewrite insert_desc_perm. by constructor.
Qed.

Lemma insert_desc_sorted x l :
  newest_first l -> newest_first (insert_desc x l).
Proof.
  unfold newest_first. induction 1 as [|y l Hl IH Hy]; simpl.
  - repeat constructor.
  - destruct (Z.ltb_spec (timestamp x) (timestamp y)) as [Hlt|Hge].
    + constructor; [done|].
      rewrite insert_desc_perm. constructor; [lia|done].
    + constructor; [by constructor|].
      constructor; [lia|].
      eapply Forall_impl; [exact Hy|]. simpl. intros; lia.
Qed.

Lemma sort_desc_sorted l : newest_first (sort_desc l).
Proof.
  induction l as [|x l IH]; simpl; [constructor|].
  by apply insert_desc_sorted.
Qed.

Lemma newest_first_app l k :
  newest_first (l ++ k) ->
  newest_first l
  /\ forall a b, In a l -> In b k -> timestamp b <= timestamp a.
Proof.
  unfold newest_first. induction l as [|x l IH]; simpl; intros Hs.
  - split; [constructor|]. by intros a b [].
  - apply StronglySorted_inv in Hs as [Hs Hx].
    destruct (IH Hs) as [Hl Hlk]. split.
    + constructor; [done|]. by apply Forall_app in Hx as [? _].
    + intros a b [<-|Ha] Hb; [|by apply Hlk].
      apply Forall_app in Hx as [_ Hx].
      rewrite List.Forall_forall in Hx. by apply Hx.
Qed.

Lemma map_events_length events draws : forall i l,
  map_events events draws i = Return l -> length l = length events.
Proof.
  induction events as [|ev events IH]; intros i l; simpl.
  - by intros [= <-].
  - destruct (stored_of ev (draws i)); simpl; [|done].
    destruct (map_events events draws (S i)) as [ss|] eqn:Hss; simpl; [|done].
    intros [= <-]. simpl. f_equal. by apply (IH (S i)).
Qed.

(** X11. For events whose timestamps are numbers (or missing), what
    [storeEvents] writes back is ordered newest first and holds at most
    10000 entries: the new and the existing events together when they
    are no more than that, else the 10000 newest of them, so that no
    dropped event is newer than a kept one. *)
Theorem storeEvents_keeps_newest :
  forall (events : list HookEvent) (draws : nat -> Draw)
         (existing : option (list StoredHookEvent))
         (written : list StoredHookEvent),
    Forall numeric_timestamp events ->
    storeEvents events draws existing = Return written ->
    exists fresh dropped : list StoredHookEvent,
      map_events events draws 0 = Return fresh
      /\ Permutation (written ++ dropped) (fresh ++ default [] existing)
      /\ newest_first written
      /\ length written
         = Nat.min 10000 (length events + length (default [] existing))
      /\ (forall a b, In a written -> In b dropped ->
                      timestamp b <= timestamp a).
Proof.
  intros events draws existing written _. unfold storeEvents.
  destruct (map_events events draws 0) as [fresh|] eqn:Hmap;
    cbv beta iota delta [mbind Exc_bind mret Exc_ret];
    [|intros Hw; discriminate Hw].
  intros Hw.
  apply (f_equal (fun r => match r with Return a => a | Throw _ => [] end))
    in Hw. cbv beta iota in Hw.
  exists fresh, (drop maxEvents (sort_desc (fresh ++ default [] existing))).
  pose proof (sort_desc_sorted (fresh ++ default [] existing)) as Hsorted.
  rewrite <- (take_drop maxEvents (sort_desc (fresh ++ default [] existing)))
    in Hsorted.
  apply newest_first_app in Hsorted as [Hkept Hdropped].
  unfold Array.slice0 in Hw. rewrite <- Hw.
  split; [reflexivity|]. split.
  - rewrite take_drop. apply sort_desc_perm.
  - split; [exact Hkept|]. split; [|exact Hdropped].
    rewrite length_take, (Permutation_length (sort_desc_perm _)), length_app.
    rewrite (map_events_length _ _ _ _ Hmap). reflexivity.
Qed.

Lemma storeEvents_keeps_newest_witness :
  Forall numeric_timestamp two_events
  /\ exists fresh dropped : list StoredHookEvent,
    map_events two_events draws_same_ms 0 = Return fresh
    /\ Permutation
         (match storeEvents two_events draws_same_ms None with
          | Return w => w
          | Throw _ => []
          end ++ dropped) (fresh ++ [])
    /\ newest_first
         (match storeEvents two_events draws_same_ms None with
          | Return w => w
          | Throw _ => []
          end)
    /\ length
         (match storeEvents two_events draws_same_ms None with
          | Return w => w
          | Throw _ => []
          end) = Nat.min 10000 (2 + 0)
    /\ (forall a b,
          In a (match storeEvents two_events draws_same_ms None with
                | Return w => w
                | Throw _ => []
                end) ->
          In b dropped -> timestamp b <= timestamp a).
Proof.
  assert (Hnum : Forall numeric_timestamp two_events)
    by (repeat constructor).
  split; [exact Hnum|].
  destruct (storeEvents two_events draws_same_ms None) as [w|e] eqn:Hstore;
    [|discriminate Hstore].
  apply (storeEvents_keeps_newest two_events draws_same_ms None w Hnum Hstore).
Defined.

Lemma map_events_poisoned events draws : forall i ev,
  In ev events ->
  he_data ev = JUndefined \/ he_data ev = JNull ->
  exists e, map_events events draws i = Throw e.
Proof.
  induction events as [|x events IH]; intros i ev Hin Hbad; [done|].
  simpl. destruct Hin as [->|Hin].
  - unfold stored_of. destruct Hbad as [-> | ->]; simpl; eauto.
  - destruct (stored_of x (draws i)); simpl; [|eauto].
    destruct (IH (S i) ev Hin Hbad) as [e He]. rewrite He. simpl. eauto.
Qed.

(** X12. One event without data spoils its batch: when the [data] of
    any event of the batch is [undefined] or [null], [storeEvents]
    throws and writes nothing, whatever the other events are. *)
Theorem storeEvents_rejects_batch_without_data :
  forall (events : list HookEvent) (draws : nat -> Draw)
         (existing : option (list StoredHookEvent)) (ev : HookEvent),
    In ev events ->
    he_data ev = JUndefined \/ he_data ev = JNull ->
    exists e, storeEvents events draws existing = Throw e.
Proof.
  intros events draws existing ev Hin Hbad. unfold storeEvents.
  destruct (map_events_poisoned events draws 0 ev Hin Hbad) as [e He].
  rewrite He. simpl. eauto.
Qed.

Lemma storeEvents_rejects_batch_without_data_witness :
  exists e, storeEvents (two_events ++ [bare_event]) draws_same_ms None = Throw e.
Proof.
  apply (storeEvents_rejects_batch_without_data (two_events ++ [bare_event])
           draws_same_ms None bare_event).
  - apply in_or_app. right. by left.
  - by left.
Defined.

End StorageProofs.

Section QueryProofs.
Import HookStorage HookQueries.
Variable JSON_stringify : JsVal -> string.
Variable hostname : JsVal -> Exc string.
Variable prototype_text : string -> string.

Lemma sum_counts_set k v o :
  (sum_counts (JS.map_set k v o)
   + default 0%nat (number_of <$> JS.map_get k o)
   = sum_counts o + number_of v)%nat.
Proof.
  induction o as [|[k' v'] o IH]; simpl; [lia|].
  destruct (String.eqb k' k); simpl; lia.
Qed.

Lemma map_get_In {V} k (v : V) o : JS.map_get k o = Some v -> In (k, v) o.
Proof.
  induction o as [|[k' v'] o IH]; simpl; [done|].
  destruct (String.eqb_spec k' k) as [->|]; [intros [= ->]; by left|].
  intros Hk. right. by apply IH.
Qed.

Lemma truthy_glued s : JS.truthy_string (s +:+ "1") = true.
Proof. by destruct s. Qed.

Lemma inherited_proto : inherited "__proto__" = true.
Proof. reflexivity. Qed.

(** What [bump] files under [k] is what the name [k] calls for. *)
Lemma bump_tidy k o : tidy o -> tidy (bump prototype_text k o).
Proof.
  intros Ho. unfold bump.
  destruct (String.eqb_spec k "__proto__") as [->|Hk]; [done|].
  apply Forall_map_set; [|done]. split; [done|]. cbn [fst snd].
  destruct (JS.map_get k o) as [v|] eqn:Hv.
  - apply map_get_In in Hv.
    destruct (proj1 (List.Forall_forall _ _) Ho _ Hv) as [_ Hkv].
    cbn [fst snd] in Hkv. destruct (inherited k).
    + destruct Hkv as (s & -> & Hs). rewrite Hs.
      eexists. split; [done|]. apply truthy_glued.
    + destruct Hkv as (n & ->). eauto.
  - destruct (inherited k); [|eauto].
    eexists. split; [done|]. apply truthy_glued.
Qed.

(** A key of its own name counts up by one; a name of
    [Object_prototype] counts nothing. *)
Lemma sum_counts_bump k o :
  tidy o ->
  sum_counts (bump prototype_text k o)
  = (sum_counts o + if inherited k then 0 else 1)%nat.
Proof.
  intros Ho. unfold bump.
  destruct (String.eqb_spec k "__proto__") as [->|Hk];
    [rewrite inherited_proto; lia|].
  match goal with
  | |- sum_counts (JS.map_set k ?v o) = _ =>
      pose proof (sum_counts_set k v o) as Hset
  end.
  destruct (JS.map_get k o) as [v|] eqn:Hv.
  - apply map_get_In in Hv.
    destruct (proj1 (List.Forall_forall _ _) Ho _ Hv) as [_ Hkv].
    cbn [fst snd] in Hkv. destruct (inherited k).
    + destruct Hkv as (s & -> & Hs). rewrite Hs in *. simpl in Hset. lia.
    + destruct Hkv as (n & ->). simpl in Hset. lia.
  - destruct (inherited k); simpl in Hset; lia.
Qed.

Lemma inherited_source s : inherited (source_name s) = false.
Proof. by destruct s. Qed.

Lemma bump_keys k o j :
  In j (List.map fst (bump prototype_text k o)) ->
  j = k \/ In j (List.map fst o).
Proof.
  unfold bump. destruct (String.eqb k "__proto__"); [by right|].
  match goal with |- context [JS.map_set k ?v o] => generalize v end.
  intros v.
  induction o as [|[k' v'] o IH]; simpl.
  - intros [<-|[]]. by left.
  - destruct (String.eqb k' k) eqn:E; simpl.
    + intros [<-|Hj]; [by left|right; by right].
    + intros [<-|Hj]; [right; by left|].
      destruct (IH Hj) as [->|?]; [by left|right; by right].
Qed.

Lemma count_events_sums events : forall st st',
  tidy (fst st) -> tidy (snd st) ->
  count_events hostname prototype_text events st = Return st' ->
  tidy (fst st') /\ tidy (snd st')
  /\ sum_counts (fst st') = (sum_counts (fst st) + length events)%nat
  /\ sum_counts (snd st')
     = (sum_counts (snd st)
        + length (List.filter (plain_host hostname) events))%nat
  /\ (forall j, In j (List.map fst (fst st')) ->
        In j (List.map fst (fst st))
        \/ In j ["xhr"; "fetch"; "websocket"]).
Proof.
  induction events as [|ev events IH]; intros st st' Hs0 Hb0.
  - simpl. intros [= <-]. repeat split; try done; try lia. auto.
  - cbn [count_events]. unfold count_event at 1.
    pose proof (sum_counts_bump (source_name (source ev)) (fst st) Hs0) as Hsrc.
    rewrite inherited_source in Hsrc.
    pose proof (bump_tidy (source_name (source ev)) (fst st) Hs0) as Hs1.
    cbn [List.filter length]. unfold plain_host at 1.
    destruct (JS.truthy (url ev)) eqn:Hu.
    + destruct (hostname (url ev)) as [domain|e]; simpl; [|done].
      pose proof (sum_counts_bump domain (snd st) Hb0) as Hdom.
      pose proof (bump_tidy domain (snd st) Hb0) as Hb1.
      intros Hrest. apply IH in Hrest as (Ht1 & Ht2 & Hs & Hb & Hk);
        [|done..].
      cbn [fst snd] in *.
      split; [done|]. split; [done|]. split; [lia|]. split.
      * rewrite Hb, Hdom. destruct (inherited domain); simpl; lia.
      * intros j Hj. destruct (Hk j Hj) as [Hj'|?]; [|by right].
        apply bump_keys in Hj' as [->|?]; [right|by left].
        destruct (source ev); simpl; auto.
    + simpl. intros Hrest.
      apply IH in Hrest as (Ht1 & Ht2 & Hs & Hb & Hk); [|done..].
      cbn [fst snd] in *.
      split; [done|]. split; [done|]. split; [lia|]. split; [lia|].
      intros j Hj. destruct (Hk j Hj) as [Hj'|?]; [|by right].
      apply bump_keys in Hj' as [->|?]; [right|by left].
      destruct (source ev); simpl; auto.
Qed.

Lemma count_events_throws events : forall st ev e,
  In ev events -> JS.truthy (url ev) = true -> hostname (url ev) = Throw e ->
  exists e', count_events hostname prototype_text events st = Throw e'.
Proof.
  induction events as [|x events IH]; intros st ev e Hin Hu He; [done|].
  cbn [count_events]. destruct Hin as [->|Hin].
  - unfold count_event. rewrite Hu, He. simpl. eauto.
  - destruct (count_event hostname prototype_text st x) as [st1|e1]; simpl;
      [|eauto].
    by apply (IH st1 ev e).
Qed.

(** X13. The statistics add up, with one exception.  When
    [getStatistics] returns, [total] is the number of stored events; the
    counts by source are numbers filed under [xhr], [fetch] and
    [websocket] only, and sum to [total]; the counts by host are numbers
    for every host but those named like a property of
    [Object.prototype] ([constructor], [toString], ...), under which a
    text is filed, or nothing under [__proto__]; the numbers sum to the
    number of events with a url whose host is no such name.  One stored
    url that is no URL makes the whole call throw. *)
Theorem getStatistics_adds_up :
  forall (stored : option (list StoredHookEvent)),
    (forall st : Statistics,
        getStatistics hostname prototype_text stored = Return st ->
        total st = length (getEvents_all stored)
        /\ sum_counts (bySource st) = total st
        /\ (forall j v, In (j, v) (bySource st) ->
              In j ["xhr"; "fetch"; "websocket"] /\ exists n, v = Count n)
        /\ sum_counts (byUrl st)
           = length (List.filter (plain_host hostname) (getEvents_all stored))
        /\ (forall j v, In (j, v) (byUrl st) ->
              j <> "__proto__"
              /\ if inherited j then exists s, v = Glued s
                 else exists n, v = Count n))
    /\ (forall (ev : StoredHookEvent) (e : Thrown),
          In ev (getEvents_all stored) ->
          JS.truthy (url ev) = true -> hostname (url ev) = Throw e ->
          exists e', getStatistics hostname prototype_text stored = Throw e').
Proof.
  intros stored. unfold getStatistics. split.
  - intros st.
    destruct (count_events hostname prototype_text (getEvents_all stored)
                ([], []))
      as [st1|e] eqn:Hc; simpl; [|done].
    intros [= <-]. cbn [total bySource byUrl].
    apply count_events_sums in Hc as (Ht1 & Ht2 & Hs & Hb & Hk);
      [|constructor..].
    cbn [fst snd] in *.
    split; [done|]. split; [simpl in Hs; lia|]. split; [|split].
    + intros j v Hjv.
      assert (Hj : In j ["xhr"; "fetch"; "websocket"]).
      { destruct (Hk j) as [[]|Hj]; [|done].
        apply in_map_iff. by exists (j, v). }
      split; [done|].
      destruct (proj1 (List.Forall_forall _ _) Ht1 _ Hjv) as [_ Hv].
      cbn [fst snd] in Hv.
      assert (Hi : inherited j = false).
      { simpl in Hj. destruct Hj as [<-|[<-|[<-|[]]]]; reflexivity. }
      by rewrite Hi in Hv.
    + simpl in Hb. lia.
    + intros j v Hjv.
      destruct (proj1 (List.Forall_forall _ _) Ht2 _ Hjv) as [Hp Hv].
      cbn [fst snd] in Hp, Hv. split; [done|].
      destruct (inherited j); [|done]. destruct Hv as (s' & -> & _). eauto.
  - intros ev e Hin Hu He.
    destruct (count_events_throws (getEvents_all stored) ([], []) ev e Hin Hu He)
      as [e' He'].
    rewrite He'. simpl. eauto.
Qed.

Lemma lower_upper_char c : JS.lower_char (JS.upper_char c) = JS.lower_char c.
Proof. destruct c as [[] [] [] [] [] [] [] []]; reflexivity. Qed.

Lemma toLowerCase_toUpperCase s :
  JS.toLowerCase (JS.toUpperCase s) = JS.toLowerCase s.
Proof.
  unfold JS.toLowerCase, JS.toUpperCase.
  induction s as [|c s IH]; cbn [JS.map_string]; [done|].
  by rewrite lower_upper_char, IH.
Qed.

Lemma filter_events_sound f l r :
  filter_events f l = Return r ->
  sublist r l /\ Forall (fun e => f e = Return true) r.
Proof.
  revert r. induction l as [|x l IH]; intros r; simpl.
  - intros [= <-]. split; constructor.
  - destruct (f x) as [b|] eqn:Hx; simpl; [|done].
    destruct (filter_events f l) as [r'|]; simpl; [|done].
    destruct (IH r' eq_refl) as [Hsub Hall].
    intros [= <-]. destruct b.
    + split; [by constructor|by constructor].
    + split; [by constructor|done].
Qed.

(** X14. [searchEvents] returns stored events in their stored order, each
    of which holds the keyword in the JSON text of its data, case
    ignored; the case of a keyword of ASCII characters plays no part;
    and the empty keyword returns every stored event (none of which has
    [undefined] data). *)
Theorem searchEvents_ignores_case :
  forall (stored : option (list StoredHookEvent)) (keyword : string),
    (forall r, searchEvents JSON_stringify stored keyword = Return r ->
       sublist r (getEvents_all stored)
       /\ Forall (fun e =>
                    JS.includes (JS.toLowerCase keyword)
                      (JS.toLowerCase (JSON_stringify (data e))) = true) r)
    /\ (Text.ascii_only keyword = true ->
        searchEvents JSON_stringify stored (JS.toUpperCase keyword)
        = searchEvents JSON_stringify stored keyword)
    /\ (Forall (fun e => data e <> JUndefined) (getEvents_all stored) ->
        searchEvents JSON_stringify stored EmptyString
        = Return (getEvents_all stored)).
Proof.
  intros stored keyword. unfold searchEvents. split; [|split].
  - intros r Hr. apply filter_events_sound in Hr as [Hsub Hall].
    split; [done|]. eapply Forall_impl; [exact Hall|]. simpl.
    intros e. unfold matches. destruct (data e); try done; by intros [= ->].
  - intros _. by rewrite toLowerCase_toUpperCase.
  - simpl. induction 1 as [|e l He _ IH]; simpl; [done|].
    rewrite IH. unfold matches.
    destruct (data e); try done; simpl; by rewrite includes_empty.
Qed.

End QueryProofs.

Section QueryExamples.
Import HookStorage HookQueries.

Lemma getStatistics_adds_up_witness :
  exists st : Statistics,
    getStatistics sample_hostname prototype_text_v8
      (Some [stored_sample 5 (JStr "https://a.example/x");
             stored_sample 6 JUndefined;
             stored_sample 7 (JStr "http://constructor/")])
    = Return st
    /\ total st = 3%nat
    /\ sum_counts (bySource st) = 3%nat
    /\ sum_counts (byUrl st) = 1%nat
    /\ byUrl st
       = [("a.example", Count 1);
          ("constructor", Glued "function Object() { [native code] }1")].
Proof.
  eexists. split; [reflexivity|].
  destruct (proj1 (getStatistics_adds_up sample_hostname prototype_text_v8
                     (Some [stored_sample 5 (JStr "https://a.example/x");
                            stored_sample 6 JUndefined;
                            stored_sample 7 (JStr "http://constructor/")]))
              _ eq_refl) as (Ht & Hs & _ & Hb & _).
  split; [exact Ht|]. split; [exact Hs|]. split; [exact Hb|]. reflexivity.
Defined.

Lemma searchEvents_ignores_case_witness :
  (Text.ascii_only "Example" = true
   /\ searchEvents Json.stringify
        (Some [stored_sample 5 JUndefined;
               stored_sample 7 (JStr "https://a.example/x")])
        (JS.toUpperCase "Example")
      = searchEvents Json.stringify
          (Some [stored_sample 5 JUndefined;
                 stored_sample 7 (JStr "https://a.example/x")])
          "Example")
  /\ searchEvents Json.stringify
       (Some [stored_sample 5 JUndefined;
              stored_sample 7 (JStr "https://a.example/x")])
       EmptyString
     = Return [stored_sample 5 JUndefined;
               stored_sample 7 (JStr "https://a.example/x")].
Proof.
  destruct (searchEvents_ignores_case Json.stringify
              (Some [stored_sample 5 JUndefined;
                     stored_sample 7 (JStr "https://a.example/x")])
              "Example") as (_ & Hcase & _).
  destruct (searchEvents_ignores_case Json.stringify
              (Some [stored_sample 5 JUndefined;
                     stored_sample 7 (JStr "https://a.example/x")])
              EmptyString) as (_ & _ & Hall).
  split; [split; [reflexivity|exact (Hcase eq_refl)]|].
  apply Hall. repeat constructor; discriminate.
Defined.

(** What the example search finds: the event whose url holds the
    keyword, whatever the case of the keyword. *)
Example searchEvents_sample :
  searchEvents Json.stringify
    (Some [stored_sample 5 JUndefined;
           stored_sample 7 (JStr "https://a.example/x")])
    "EXAMPLE"
  = Return [stored_sample 7 (JStr "https://a.example/x")]
  /\ Json.stringify (data (stored_sample 5 JUndefined)) = "{}".
Proof. split; reflexivity. Qed.

End QueryExamples.

Section FilterLaws.
Import EventFilter Filtering FilterSpecs.
Context {T : Type} `{EventLike T}.
Variable RegExp_test_i : string -> string -> Exc bool.
Variable JSON_stringify : JsVal -> string.

Abbreviation keep' := (EventFilter.keep RegExp_test_i JSON_stringify).
Abbreviation filter' := (EventFilter.filter RegExp_test_i JSON_stringify).

Lemma array_filter_sound (f : T -> Exc bool) l r :
  array_filter f l = Return r ->
  sublist r l /\ Forall (fun e => f e = Return true) r.
Proof.
  revert r. induction l as [|x l IH]; intros r; simpl.
  - intros [= <-]. split; constructor.
  - destruct (f x) as [b|] eqn:Hx; simpl; [|done].
    destruct (array_filter f l) as [r'|]; simpl; [|done].
    destruct (IH r' eq_refl) as [Hsub Hall].
    intros [= <-]. destruct b.
    + split; [by constructor|by constructor].
    + split; [by constructor|done].
Qed.

Lemma array_filter_all_true (f : T -> Exc bool) l :
  Forall (fun e => f e = Return true) l -> array_filter f l = Return l.
Proof.
  induction 1 as [|x l Hx _ IH]; simpl; [done|]. by rewrite Hx, IH.
Qed.

(** X15. [filter] selects and never rearranges: when it returns, the
    result is a subsequence of the events it was given, every event of
    the result passes the callback, and filtering the result again with
    the same options returns it unchanged. *)
Theorem filter_selects_a_subsequence :
  forall (events r : list T) (options : FilterOptions),
    filter' events options = Return r ->
    sublist r events
    /\ Forall (fun e => keep' options e = Return true) r
    /\ filter' r options = Return r.
Proof.
  intros events r options Hr. unfold EventFilter.filter in *.
  apply array_filter_sound in Hr as [Hsub Hall].
  split; [done|]. split; [done|]. by apply array_filter_all_true.
Qed.

Lemma keep_pure o e :
  urlPattern o = None -> contentType o = None ->
  keep' o e
  = Return (source_ok o e && method_ok o e && status_ok o e && time_ok o e
            && keyword_ok JSON_stringify o e).
Proof.
  intros Hu Hc. unfold EventFilter.keep, url_ok, contentType_ok.
  rewrite Hu, Hc. simpl.
  destruct (source_ok o e); simpl; [|done].
  destruct (method_ok o e); simpl; [|done].
  destruct (status_ok o e); simpl; [|done].
  destruct (time_ok o e); simpl; [|done].
  by destruct (keyword_ok JSON_stringify o e).
Qed.

(** X16. Without a url pattern and a content type in the options,
    [filter] cannot throw, and it returns exactly the events that pass
    the source, method, status, time and keyword tests, all of them (a
    logical and), in their original order. *)
Theorem filter_is_conjunction :
  forall (events : list T) (options : FilterOptions),
    urlPattern options = None -> contentType options = None ->
    filter' events options
    = Return (List.filter
                (fun e =>
                   source_ok options e && method_ok options e
                   && status_ok options e && time_ok options e
                   && keyword_ok JSON_stringify options e) events).
Proof.
  intros events options Hu Hc. unfold EventFilter.filter.
  apply array_filter_pure. intros e _. by apply keep_pure.
Qed.

Lemma keep_by_url_no_url p e :
  some_string (ev_url e) = None -> keep' (by_url p) e = Return true.
Proof.
  intros Hno. unfold EventFilter.keep, url_ok, source_ok, method_ok,
    status_ok, time_ok, keyword_ok, contentType_ok.
  cbn [sources urlPattern method statusCode timeRange keyword contentType
       by_url some_string status_truthy].
  rewrite Hno. by destruct (JS.truthy_string p).
Qed.

Lemma keep_by_url_throws p e u err :
  p <> EmptyString -> some_string (ev_url e) = Some u ->
  RegExp_test_i p u = Throw err -> keep' (by_url p) e = Throw err.
Proof.
  intros Hp Hu Hthrow. unfold EventFilter.keep, url_ok, source_ok.
  cbn [sources urlPattern by_url some_string].
  rewrite Hu. destruct p as [|c p]; [done|].
  change (JS.truthy_string (String c p)) with true. cbv iota.
  by rewrite Hthrow.
Qed.

(** X17. A malformed url pattern makes the whole call throw as soon as
    one event carries a url: the error of the [RegExp] constructor comes
    out of [filter]; when no event carries a url the pattern is never
    compiled and every event is returned. *)
Theorem filter_malformed_pattern :
  forall (events : list T) (pattern : string) (err : Thrown),
    pattern <> EmptyString ->
    (forall u, RegExp_test_i pattern u = Throw err) ->
    ((exists e, In e events /\ some_string (ev_url e) <> None) ->
     filter' events (by_url pattern) = Throw err)
    /\ ((forall e, In e events -> some_string (ev_url e) = None) ->
        filter' events (by_url pattern) = Return events).
Proof.
  intros events pattern err Hp Hthrow. unfold EventFilter.filter. split.
  - intros (e & Hin & Hurl).
    induction events as [|x events IH]; [done|]. simpl.
    destruct (some_string (ev_url x)) as [u|] eqn:Hx.
    + by rewrite (keep_by_url_throws pattern x u err).
    + rewrite keep_by_url_no_url by done. simpl.
      destruct Hin as [->|Hin]; [done|]. by rewrite IH.
  - intros Hnone. apply array_filter_all_true, List.Forall_forall.
    intros e He. by apply keep_by_url_no_url, Hnone.
Qed.

(** X18. A constraint whose value is falsy is no constraint: filtering
    for the status code [0], for the empty method, for the empty keyword
    or for the time range from [0] to [0] returns every event. *)
Theorem filter_ignores_falsy_constraints :
  forall events : list T,
    filter' events (by_status (Exact 0)) = Return events
    /\ filter' events (by_method EmptyString) = Return events
    /\ filter' events (by_keyword EmptyString) = Return events
    /\ filter' events (by_time {| start := 0; end_ := 0 |}) = Return events.
Proof.
  intros events.
  assert (Hall : forall o, (forall e, keep' o e = Return true) ->
                           filter' events o = Return events).
  { intros o Ho. unfold EventFilter.filter.
    apply array_filter_all_true, List.Forall_forall. intros e _. apply Ho. }
  repeat split; apply Hall; intros e.
  - reflexivity.
  - reflexivity.
  - reflexivity.
  - unfold EventFilter.keep, time_ok. simpl.
    by destruct (some_number (ev_timestamp e)).
Qed.

End FilterLaws.

Section FilterLawsExamples.
Import EventFilter Filtering FilterSpecs.

Lemma filter_selects_a_subsequence_witness :
  filter literal_test render [no_method_entry; post_entry] (by_method "POST")
  = Return [no_method_entry; post_entry].
Proof.
  apply (filter_selects_a_subsequence literal_test render sample_entries
           [no_method_entry; post_entry] (by_method "POST")).
  reflexivity.
Defined.

Lemma filter_is_conjunction_witness :
  filter literal_test render sample_entries
    (by_method_and_keyword "POST" "example")
  = Return
      (List.filter
         (fun e =>
            source_ok (by_method_and_keyword "POST" "example") e
            && method_ok (by_method_and_keyword "POST" "example") e
            && status_ok (by_method_and_keyword "POST" "example") e
            && time_ok (by_method_and_keyword "POST" "example") e
            && keyword_ok render (by_method_and_keyword "POST" "example") e)
         sample_entries).
Proof.
  apply (filter_is_conjunction literal_test render sample_entries
           (by_method_and_keyword "POST" "example")); reflexivity.
Defined.

Lemma filter_malformed_pattern_witness :
  filter rejecting_test render sample_entries (by_url "(")
  = Throw (ErrorObj "SyntaxError" "Invalid regular expression").
Proof.
  apply (proj1 (filter_malformed_pattern rejecting_test render sample_entries
                  "(" (ErrorObj "SyntaxError" "Invalid regular expression")
                  ltac:(discriminate) ltac:(reflexivity))).
  exists get_entry. split; [right; by left|discriminate].
Defined.

End FilterLawsExamples.

Section SearchProofs.
Import JS EventSearch Searching Text.

Lemma drop_while_all_space s :
  all_chars is_space s = true -> drop_while is_space s = EmptyString.
Proof.
  induction s as [|c s IH]; simpl; [done|].
  intros [Hc Hs]%andb_prop. rewrite Hc. by apply IH.
Qed.

Lemma trim_end_cons_nonspace c r :
  is_space c = false -> truthy_string (trim_end (String c r)) = true.
Proof. intros Hc. simpl. destruct (trim_end r); [by rewrite Hc|done]. Qed.

Lemma trim_blank s :
  truthy_string (trim s) = negb (all_chars is_space s).
Proof.
  unfold trim. induction s as [|c s IH]; [done|].
  cbn [drop_while all_chars]. destruct (is_space c) eqn:Hc; [exact IH|].
  by rewrite trim_end_cons_nonspace.
Qed.

Lemma is_space_upper c : is_space (upper_char c) = is_space c.
Proof. destruct c as [[] [] [] [] [] [] [] []]; reflexivity. Qed.

Lemma is_space_lower c : is_space (lower_char c) = is_space c.
Proof. destruct c as [[] [] [] [] [] [] [] []]; reflexivity. Qed.

Lemma all_space_map f s :
  (forall c, is_space (f c) = is_space c) ->
  all_chars is_space (map_string f s) = all_chars is_space s.
Proof.
  intros Hf. induction s as [|c s IH]; cbn [map_string all_chars]; [done|].
  by rewrite Hf, IH.
Qed.

(** X19. A query that is empty or holds white space only returns the
    events unchanged; and the case of a query of ASCII characters plays
    no part in what [fullTextSearch] returns. *)
Theorem fullTextSearch_blank_and_case :
  forall (events : list JsVal) (query : string),
    (all_chars is_space query = true -> fullTextSearch events query = events)
    /\ (ascii_only query = true ->
        fullTextSearch events (toUpperCase query)
        = fullTextSearch events query).
Proof.
  intros events query. unfold fullTextSearch. split.
  - intros Hblank. by rewrite trim_blank, Hblank.
  - intros _. rewrite !trim_blank. unfold toUpperCase at 1.
    rewrite (all_space_map upper_char) by apply is_space_upper.
    unfold keywords_of. by rewrite toLowerCase_toUpperCase.
Qed.

Lemma fullTextSearch_blank_and_case_witness :
  fullTextSearch [JStr "an api call"; JNum 1] "   "
  = [JStr "an api call"; JNum 1]
  /\ fullTextSearch [JStr "an api call"; JNum 1] (toUpperCase "Api")
     = fullTextSearch [JStr "an api call"; JNum 1] "Api".
Proof.
  split.
  - apply (proj1 (fullTextSearch_blank_and_case
                    [JStr "an api call"; JNum 1] "   ")).
    reflexivity.
  - apply (proj2 (fullTextSearch_blank_and_case
                    [JStr "an api call"; JNum 1] "Api")).
    reflexivity.
Defined.

Lemma extract_too_deep v d :
  (5 < d)%nat -> extractSearchableText v d = EmptyString.
Proof.
  intros Hd. apply Nat.ltb_lt in Hd.
  destruct v; simpl; by rewrite Hd.
Qed.

Lemma extract_nest_deep n : forall v d,
  (5 < d + n)%nat -> extractSearchableText (nest n v) d = EmptyString.
Proof.
  induction n as [|n IH]; intros v d Hd.
  - apply extract_too_deep. lia.
  - cbn [nest extractSearchableText join_space].
    destruct (Nat.ltb 5 d); [done|]. apply IH. lia.
Qed.

Lemma extract_nest_shallow n : forall s d,
  (d + n <= 5)%nat ->
  extractSearchableText (nest n (JStr s)) d = toLowerCase s.
Proof.
  induction n as [|n IH]; intros s d Hd.
  - cbn [nest extractSearchableText].
    destruct (Nat.ltb_spec 5 d); [lia|done].
  - cbn [nest extractSearchableText join_space].
    destruct (Nat.ltb_spec 5 d); [lia|]. apply IH. lia.
Qed.

Lemma split_ws_has_word s : forall in_gap,
  all_chars is_space s = false ->
  exists t, In t (split_ws_from in_gap s) /\ truthy_string t = true.
Proof.
  induction s as [|c s IH]; intros in_gap; [done|].
  cbn [all_chars split_ws_from]. destruct (is_space c) eqn:Hc; simpl.
  - intros Hs. destruct (IH true Hs) as (t & Ht & Hne).
    exists t. split; [|done]. destruct in_gap; [done|by right].
  - intros _. destruct (split_ws_from false s) as [|t ts].
    + exists (String c EmptyString). split; [by left|done].
    + exists (String c t). split; [by left|done].
Qed.

Lemma keywords_of_not_blank query :
  all_chars is_space query = false ->
  exists k, In k (keywords_of query) /\ truthy_string k = true.
Proof.
  intros Hq. unfold keywords_of, split_ws.
  destruct (split_ws_has_word (toLowerCase query) false) as (t & Ht & Hne).
  - unfold toLowerCase. rewrite (all_space_map lower_char); [done|].
    apply is_space_lower.
  - exists t. split; [|done]. apply filter_In. by split.
Qed.

(** X20. The search looks five levels deep and no further: a string
    inside five nested arrays is part of the searchable text, while the
    text of anything inside six is empty, so that no query with a word
    in it finds such an event. *)
Theorem fullTextSearch_depth_bound :
  (forall s : string,
      extractSearchableText (nest 5 (JStr s)) 0 = toLowerCase s)
  /\ (forall v : JsVal, extractSearchableText (nest 6 v) 0 = EmptyString)
  /\ (forall (v : JsVal) (query : string),
        all_chars is_space query = false ->
        fullTextSearch [nest 6 v] query = []).
Proof.
  split; [|split].
  - intros s. apply extract_nest_shallow. lia.
  - intros v. apply extract_nest_deep. lia.
  - intros v query Hq. unfold fullTextSearch.
    rewrite trim_blank, Hq. cbn [negb List.filter].
    rewrite extract_nest_deep by lia.
    destruct (keywords_of_not_blank query Hq) as (k & Hk & Hne).
    destruct (forallb (fun keyword => includes keyword EmptyString)
                (keywords_of query)) eqn:Hall; [|done].
    rewrite forallb_forall in Hall. specialize (Hall k Hk).
    by destruct k.
Qed.

Lemma fullTextSearch_depth_bound_witness :
  fullTextSearch [nest 6 (JStr "needle")] "needle" = [].
Proof.
  apply (proj2 (proj2 fullTextSearch_depth_bound) (JStr "needle") "needle").
  reflexivity.
Defined.

End SearchProofs.

Section LevenshteinProofs.
Import EventSearch Searching.

Lemma lev_nil_r p : lev p [] = length p.
Proof. by destruct p. Qed.

Lemma lev_cons_cons x p y q :
  lev (x :: p) (y :: q) =
  if Ascii.eqb y x then lev p q
  else Nat.min (lev p q + 1)
         (Nat.min (lev p (y :: q) + 1) (lev (x :: p) q + 1)).
Proof. reflexivity. Qed.

(** Filling a row from the row above gives the row of the longer
    prefix. *)
Lemma fill_row_spec c2 q s1 : forall p,
  fill_row c2 s1 (row_of q p s1) (lev p (c2 :: q))
  = tail (row_of (c2 :: q) p s1).
Proof.
  induction s1 as [|c1 s1 IH]; intros p; [done|].
  cbn [row_of fill_row tail].
  destruct s1 as [|c s1']; cbn [row_of].
  - cbn [fill_row]. by rewrite lev_cons_cons.
  - cbn [fill_row]. rewrite <- lev_cons_cons. f_equal.
    specialize (IH (c1 :: p)). cbn [row_of tail] in IH.
    rewrite <- IH. reflexivity.
Qed.

Lemma next_row_spec s1 q c2 :
  next_row s1 (row_of q [] s1) (S (length q)) c2 = row_of (c2 :: q) [] s1.
Proof.
  unfold next_row.
  change (S (length q)) with (lev [] (c2 :: q)) at 2.
  rewrite fill_row_spec. by destruct s1.
Qed.

Lemma rows_spec s1 s2 : forall q,
  rows s1 (row_of q [] s1) (S (length q)) s2 = row_of (rev s2 ++ q) [] s1.
Proof.
  induction s2 as [|c2 s2 IH]; intros q; [done|].
  cbn [rows]. rewrite next_row_spec.
  change (S (S (length q))) with (S (length (c2 :: q))).
  rewrite IH. simpl. by rewrite <- app_assoc.
Qed.

Lemma row_of_nil s1 : forall p,
  row_of [] p s1 = seq (length p) (S (length s1)).
Proof.
  induction s1 as [|c s1 IH]; intros p; cbn [row_of].
  - by rewrite lev_nil_r.
  - rewrite lev_nil_r, IH. reflexivity.
Qed.

Lemma last_row_of q s1 : forall p,
  last (row_of q p s1) = Some (lev (rev s1 ++ p) q).
Proof.
  induction s1 as [|c s1 IH]; intros p; [done|].
  cbn [row_of]. specialize (IH (c :: p)).
  destruct (row_of q (c :: p) s1) as [|v r] eqn:Hr.
  - by destruct s1.
  - change (last (lev p q :: v :: r)) with (last (v :: r)).
    rewrite IH. simpl. by rewrite <- app_assoc.
Qed.

(** The matrix computes the recurrence, on the reversed strings. *)
Lemma levenshteinDistance_lev str1 str2 :
  levenshteinDistance str1 str2
  = lev (rev (list_ascii_of_string str1)) (rev (list_ascii_of_string str2)).
Proof.
  unfold levenshteinDistance.
  pose proof (row_of_nil (list_ascii_of_string str1) []) as Hrow0.
  change (length (@nil ascii)) with 0%nat in Hrow0. rewrite <- Hrow0.
  change 1%nat with (S (length (@nil ascii))).
  rewrite rows_spec, last_row_of. simpl. by rewrite !app_nil_r.
Qed.

Lemma lev_refl a : lev a a = 0%nat.
Proof.
  induction a as [|x a IH]; [done|].
  by rewrite lev_cons_cons, Ascii.eqb_refl.
Qed.

Lemma lev_zero a : forall b, lev a b = 0%nat -> a = b.
Proof.
  induction a as [|x a IH]; intros b.
  - simpl. by destruct b.
  - destruct b as [|y b]; [done|]. rewrite lev_cons_cons.
    destruct (Ascii.eqb_spec y x) as [->|_]; [|lia].
    intros Hz. by rewrite (IH b Hz).
Qed.

Lemma lev_bound a : forall b,
  (lev a b <= Nat.max (length a) (length b))%nat.
Proof.
  induction a as [|x a IH]; intros b; [simpl; lia|].
  induction b as [|y b IHb]; [simpl; lia|].
  rewrite lev_cons_cons. specialize (IH b). cbn [length].
  destruct (Ascii.eqb y x); lia.
Qed.

Lemma lev_sym a : forall b, lev a b = lev b a.
Proof.
  induction a as [|x a IH]; intros b.
  - by rewrite lev_nil_r.
  - induction b as [|y b IHb]; [done|].
    rewrite !lev_cons_cons, (IH b), (IH (y :: b)), IHb.
    rewrite (Ascii.eqb_sym x y). destruct (Ascii.eqb y x); lia.
Qed.

Lemma length_list_ascii s :
  length (list_ascii_of_string s) = String.length s.
Proof. induction s as [|c s IH]; simpl; [done|]. by rewrite IH. Qed.

(** X21. [levenshteinDistance] is a distance in the ways its callers
    rely on: it is [0] exactly for equal strings, it is symmetric,
    against the empty string it is the length of the other string, and
    it never exceeds the length of the longer string, so that the
    similarity computed from it lies between [0] and [1]. *)
Theorem levenshteinDistance_is_a_distance :
  forall str1 str2 : string,
    levenshteinDistance str1 str1 = 0%nat
    /\ (levenshteinDistance str1 str2 = 0%nat -> str1 = str2)
    /\ levenshteinDistance str1 str2 = levenshteinDistance str2 str1
    /\ levenshteinDistance str1 EmptyString = String.length str1
    /\ levenshteinDistance EmptyString str2 = String.length str2
    /\ (levenshteinDistance str1 str2
        <= Nat.max (String.length str1) (String.length str2))%nat.
Proof.
  intros str1 str2. rewrite !levenshteinDistance_lev.
  split; [apply lev_refl|]. split; [|split; [apply lev_sym|]].
  - intros Hz. apply lev_zero in Hz.
    apply (f_equal (@rev ascii)) in Hz. rewrite !rev_involutive in Hz.
    apply (f_equal string_of_list_ascii) in Hz.
    by rewrite !string_of_list_ascii_of_string in Hz.
  - split; [|split].
    + simpl. by rewrite lev_nil_r, length_rev, length_list_ascii.
    + simpl. by rewrite length_rev, length_list_ascii.
    + rewrite <- !length_list_ascii.
      rewrite <- (length_rev (list_ascii_of_string str1)).
      rewrite <- (length_rev (list_ascii_of_string str2)).
      apply lev_bound.
Qed.

Lemma levenshteinDistance_is_a_distance_witness : "same" = "same".
Proof.
  apply (proj1 (proj2 (levenshteinDistance_is_a_distance "same" "same"))).
  reflexivity.
Defined.

End LevenshteinProofs.

Section ManagerProofs.
Import HookManager.

(** The actions of [n] calls of [install()] in a row. *)
Lemma install_again self :
  isInstalled self = true ->
  install self = (self, [Warn "Hooks already installed"]).
Proof. intros Hi. unfold install. by rewrite Hi. Qed.

(** X22. [install()] is guarded: however often it is called in a row on
    a new manager, the three primitives are wrapped once, by the first
    call, and every later call only warns.  [uninstall()] restores
    nothing and lowers the guard, so that an [install()] after it wraps
    the three primitives a second time. *)
Theorem install_is_guarded :
  (forall n : nat,
      isInstalled (fst (after_installs n)) = true
      /\ snd (after_installs n)
         = if Nat.eqb n 0
           then [InstallXHR; InstallFetch; InstallWebSocket;
                 Log "All hooks installed successfully"]
           else [Warn "Hooks already installed"])
  /\ (forall self : t,
        snd (uninstall self)
        = [Warn "To uninstall hooks, please reload the page"]
        /\ snd (install (fst (uninstall self)))
           = [InstallXHR; InstallFetch; InstallWebSocket;
              Log "All hooks installed successfully"]).
Proof.
  split.
  - unfold after_installs.
    induction n as [|n [IHi IHa]]; [split; reflexivity|].
    change (Nat.iter (S n) (fun r => install (fst r)) (install create))
      with (install (fst (Nat.iter n (fun r => install (fst r))
                            (install create)))).
    rewrite (install_again _ IHi).
    split; [exact IHi|reflexivity].
  - intros self. split; reflexivity.
Qed.

End ManagerProofs.

Section ListenerProofs.
Import HookListener ListenerTrace.

Lemma flush_begin_keeps self :
  eventBuffer (fst (flush_begin self))
  ++ match snd (flush_begin self) with Some b => b | None => [] end
  = eventBuffer self.
Proof.
  unfold flush_begin. destruct (eventBuffer self) eqn:Hb; simpl.
  - by rewrite Hb.
  - done.
Qed.

(** What a [receive] leaves in the buffer and hands to a flush is the
    buffer before, followed by the message when it was taken in. *)
Lemma receive_keeps m self :
  eventBuffer (fst (receive m self))
  ++ match snd (receive m self) with Some b => b | None => [] end
  = eventBuffer self ++ accepted [Receive m].
Proof.
  unfold receive, accepted. simpl.
  destruct (from_window m); simpl; [|by rewrite !app_nil_r].
  destruct (payload m) eqn:Hp; simpl; try (by rewrite !app_nil_r);
    (destruct (from_hook _) eqn:Hh; simpl; [|by rewrite !app_nil_r];
     match goal with
     | |- context [Nat.leb ?a ?b] => destruct (Nat.leb a b)
     end;
     [rewrite flush_begin_keeps|]; simpl; by rewrite ?app_nil_r).
Qed.

Lemma tick_keeps self :
  eventBuffer (fst (tick self))
  ++ match snd (tick self) with Some b => b | None => [] end
  = eventBuffer self.
Proof.
  unfold tick. destruct (Nat.ltb 0 (length (eventBuffer self))).
  - apply flush_begin_keeps.
  - simpl. by rewrite app_nil_r.
Qed.

Lemma everything_launch r w extra :
  eventBuffer (fst r) ++ match snd r with Some b => b | None => [] end
  = eventBuffer (listener w) ++ extra ->
  everything (launch r w) ≡ₚ everything w ++ extra.
Proof.
  intros Hr. unfold everything, launch. simpl.
  rewrite concat_app.
  assert (Hb : concat match snd r with Some b => [b] | None => [] end
               = match snd r with Some b => b | None => [] end).
  { destruct (snd r); simpl; by rewrite ?app_nil_r. }
  rewrite Hb.
  transitivity ((eventBuffer (fst r)
                 ++ match snd r with Some b => b | None => [] end)
                ++ concat (in_flight w) ++ concat (stored w)).
  - rewrite <- !app_assoc. apply Permutation_app_head.
    apply Permutation_app_swap_app.
  - rewrite Hr, <- !app_assoc. apply Permutation_app_head.
    rewrite (app_assoc (concat (in_flight w))).
    apply Permutation_app_comm.
Qed.

Lemma concat_delete (l : list (list JsVal)) k batch :
  l !! k = Some batch -> concat l ≡ₚ batch ++ concat (delete k l).
Proof.
  revert k. induction l as [|x l IH]; intros [|k]; simpl; try done.
  - by intros [= ->].
  - intros Hk. rewrite (IH k Hk), !app_assoc.
    apply Permutation_app_tail, Permutation_app_comm.
Qed.

(** One step neither loses nor, unless a broadcast throws, duplicates. *)
Lemma step_keeps w s :
  (forall d, In d (everything w ++ accepted [s]) -> In d (everything (step w s)))
  /\ (no_broadcast_failure s ->
      everything (step w s) ≡ₚ everything w ++ accepted [s]).
Proof.
  assert (Hperm : forall l l' : list JsVal,
             l' ≡ₚ l -> forall d, In d l -> In d l').
  { intros l l' Hp d Hd. by apply (Permutation_in d (symmetry Hp)). }
  destruct s as [m| |k o]; cbn [step].
  - pose proof (everything_launch (receive m (listener w)) w _
                  (receive_keeps m (listener w))) as Hp.
    split; [by apply Hperm|done].
  - pose proof (everything_launch (tick (listener w)) w []
                  ltac:(rewrite app_nil_r; apply tick_keeps)) as Hp.
    split; [by apply Hperm|done].
  - destruct (in_flight w !! k) as [batch|] eqn:Hk;
      [|simpl; rewrite app_nil_r; by split].
    pose proof (concat_delete _ _ _ Hk) as Hc.
    unfold accepted. simpl. rewrite app_nil_r.
    unfold everything. simpl.
    destruct o; simpl; rewrite ?concat_app; simpl; rewrite ?app_nil_r.
    + assert (Hp : eventBuffer (listener w) ++ concat (delete k (in_flight w))
                   ++ concat (stored w) ++ batch
                   ≡ₚ eventBuffer (listener w) ++ concat (in_flight w)
                      ++ concat (stored w)).
      { apply Permutation_app_head. rewrite Hc, <- (app_assoc batch).
        rewrite (app_assoc (concat (delete k (in_flight w)))).
        apply Permutation_app_comm. }
      split; [by apply Hperm|done].
    + assert (Hp : (batch ++ eventBuffer (listener w))
                   ++ concat (delete k (in_flight w)) ++ concat (stored w)
                   ≡ₚ eventBuffer (listener w) ++ concat (in_flight w)
                      ++ concat (stored w)).
      { rewrite Hc, <- !app_assoc. apply Permutation_app_swap_app. }
      split; [by apply Hperm|done].
    + split; [|done]. intros d Hd.
      rewrite !in_app_iff in *. rewrite (in_concat (in_flight w)) in Hd.
      destruct Hd as [Hd|[(b & Hb & Hd)|Hd]]; [tauto| |tauto].
      apply list_elem_of_In, list_elem_of_lookup in Hb as [i Hi].
      destruct (decide (i = k)) as [->|Hne].
      * rewrite Hk in Hi. injection Hi as <-. tauto.
      * right. left. apply in_concat. exists b. split; [|done].
        apply list_elem_of_In, list_elem_of_lookup.
        destruct (decide (i < k)%nat).
        -- exists i. by rewrite list_lookup_delete_lt.
        -- exists (i - 1)%nat. rewrite list_lookup_delete_ge by lia.
           by replace (S (i - 1)) with i by lia.
Qed.

Lemma accepted_app a b : accepted (a ++ b) = accepted a ++ accepted b.
Proof. unfold accepted. by rewrite flat_map_app. Qed.

(** X23. The listener loses nothing: whatever messages arrive, whenever
    the timer fires and however the flushes end, every message it took
    in is in the buffer, in a running flush or with the background.
    When no broadcast throws, each of them is in exactly one of these
    places, once. *)
Theorem listener_loses_nothing :
  forall steps : list Step,
    (forall d, In d (accepted steps) -> In d (everything (run steps)))
    /\ (Forall no_broadcast_failure steps ->
        everything (run steps) ≡ₚ accepted steps).
Proof.
  intros steps. unfold run.
  induction steps as [|s steps [IHin IHperm]] using rev_ind.
  - split; [done|]. intros _. reflexivity.
  - rewrite fold_left_app, accepted_app. cbn [fold_left].
    destruct (step_keeps (fold_left step steps start) s) as [Hin Hperm].
    split.
    + intros d Hd. apply Hin. rewrite in_app_iff in *.
      destruct Hd as [Hd|Hd]; [left; by apply IHin|by right].
    + intros Hall. apply Forall_app in Hall as [Hsteps Hs].
      apply Forall_inv in Hs.
      rewrite (Hperm Hs). by rewrite (IHperm Hsteps).
Qed.

End ListenerProofs.

Section ListenerExamples.
Import HookListener ListenerTrace.

Lemma listener_loses_nothing_witness :
  everything
    (run [Receive (hook_message 1); Tick; Receive (hook_message 2);
          Settle 0 SendRejected])
  ≡ₚ accepted [Receive (hook_message 1); Tick; Receive (hook_message 2);
              Settle 0 SendRejected].
Proof.
  apply (proj2 (listener_loses_nothing
                  [Receive (hook_message 1); Tick; Receive (hook_message 2);
                   Settle 0 SendRejected])).
  repeat constructor.
Defined.

End ListenerExamples.

Section MonitorProofs.
Import JS APIMonitor Monitoring.
Variable template : JsVal -> string.
Variable to_number : JsVal -> option Z.

Abbreviation one := (analyze_one template to_number).
Abbreviation absorb :=
  (fun (o : option Endpoint) e =>
     Some (touch to_number (default (fresh_stats e) o) e)).

Lemma total_count_set k v m :
  (total_count (List.map snd (map_set k v m))
   + default 0%nat (count <$> map_get k m)
   = total_count (List.map snd m) + count v)%nat.
Proof.
  induction m as [|[k' v'] m IH]; simpl; [lia|].
  destruct (String.eqb k' k); simpl; lia.
Qed.

Lemma total_count_one m e :
  total_count (List.map snd (one m e)) = S (total_count (List.map snd m)).
Proof.
  unfold analyze_one.
  pose proof (total_count_set (key_of template e)
    (touch to_number (default (fresh_stats e) (map_get (key_of template e) m)) e)
    m) as H.
  destruct (map_get (key_of template e) m); simpl in *; lia.
Qed.

Lemma total_count_fold evs m :
  total_count (List.map snd (fold_left one evs m))
  = (total_count (List.map snd m) + length evs)%nat.
Proof.
  revert m. induction evs as [|e evs IH]; intros m; simpl; [lia|].
  rewrite IH, total_count_one. lia.
Qed.

Lemma sound_touch s e :
  ((errors s <= count s)%nat /\ 0 <= lastCall s) -> sound (touch to_number s e).
Proof.
  intros [He Hl]. unfold sound, touch. simpl.
  destruct (is_error to_number e); repeat split; lia.
Qed.

Lemma Forall_values_set {V} (P : V -> Prop) k v (m : list (string * V)) :
  P v -> Forall P (List.map snd m) -> Forall P (List.map snd (map_set k v m)).
Proof.
  intros Hv. induction m as [|[k' v'] m IH]; simpl; intros Hm.
  - by constructor.
  - apply Forall_cons in Hm as [Hv' Hm].
    destruct (String.eqb k' k); simpl; constructor; auto.
Qed.

Lemma map_get_Forall {V} (P : V -> Prop) k v (m : list (string * V)) :
  Forall P (List.map snd m) -> map_get k m = Some v -> P v.
Proof.
  induction m as [|[k' v'] m IH]; simpl; [done|].
  intros Hm. apply Forall_cons in Hm as [Hv' Hm].
  destruct (String.eqb k' k); [by intros [= <-]|by apply IH].
Qed.

Lemma sound_one m e :
  Forall sound (List.map snd m) -> Forall sound (List.map snd (one m e)).
Proof.
  intros Hm. unfold analyze_one. apply Forall_values_set; [|done].
  apply sound_touch.
  destruct (map_get (key_of template e) m) as [s|] eqn:Hs; simpl.
  - destruct (map_get_Forall _ _ _ _ Hm Hs) as (_ & ? & ?). by split.
  - split; [lia|done].
Qed.

Lemma sound_fold evs m :
  Forall sound (List.map snd m) -> Forall sound (List.map snd (fold_left one evs m)).
Proof.
  revert m. induction evs as [|e evs IH]; intros m Hm; simpl; [done|].
  by apply IH, sound_one.
Qed.

Lemma map_get_one k m e :
  map_get k (one m e)
  = if String.eqb (key_of template e) k then absorb (map_get k m) e
    else map_get k m.
Proof.
  unfold analyze_one.
  destruct (String.eqb (key_of template e) k) eqn:E.
  - apply String.eqb_eq in E. subst k. by rewrite map_get_set_eq.
  - apply String.eqb_neq in E. by rewrite map_get_set_ne.
Qed.

Lemma map_get_fold k evs m :
  map_get k (fold_left one evs m)
  = fold_left absorb (under template k evs) (map_get k m).
Proof.
  revert m. induction evs as [|e evs IH]; intros m; simpl; [done|].
  rewrite IH, map_get_one.
  by destruct (String.eqb (key_of template e) k).
Qed.

Lemma absorb_fold us b :
  exists e,
    fold_left absorb us (Some b) = Some e
    /\ count e = (count b + length us)%nat
    /\ errors e = (errors b + length (List.filter (is_error to_number) us))%nat
    /\ lastCall e
       = fold_left (fun acc u => Z.max acc (HookStorage.timestamp u)) us
                   (lastCall b)
    /\ url e = url b /\ method e = method b.
Proof.
  revert b. induction us as [|u us IH]; intros b.
  - exists b. simpl. repeat split; lia.
  - destruct (IH (touch to_number b u)) as (e & He & Hc & Hr & Hl & Hu & Hm).
    exists e.
    change (fold_left absorb (u :: us) (Some b))
      with (fold_left absorb us (Some (touch to_number b u))).
    rewrite He.
    split; [done|]. rewrite Hc, Hr, Hl, Hu, Hm. cbn [touch count errors lastCall
      url method List.filter length].
    destruct (is_error to_number u); cbn [length]; repeat split; lia.
Qed.

Lemma StronglySorted_app_inv {A} (R : A -> A -> Prop) l k :
  StronglySorted R (l ++ k) ->
  StronglySorted R l /\ forall a b, In a l -> In b k -> R a b.
Proof.
  induction l as [|x l IH]; simpl; intros H.
  - split; [constructor|]. by intros a b [].
  - apply StronglySorted_inv in H as [H Hx].
    destruct (IH H) as [Hl Hlk]. split.
    + constructor; [done|].
      apply List.Forall_forall. intros a Ha.
      apply (proj1 (List.Forall_forall _ _) Hx), in_or_app. by left.
    + intros a b [<-|Ha] Hb; [|by apply Hlk].
      apply (proj1 (List.Forall_forall _ _) Hx), in_or_app. by right.
Qed.

Lemma insert_by_count_perm x l : Permutation (insert_by_count x l) (x :: l).
Proof.
  induction l as [|y l IH]; simpl; [done|].
  destruct (Nat.ltb (count x) (count y)); [|done].
  rewrite IH. apply perm_swap.
Qed.

Lemma sort_by_count_perm l : Permutation (sort_by_count l) l.
Proof.
  induction l as [|x l IH]; simpl; [done|].
  rewrite insert_by_count_perm. by constructor.
Qed.

Lemma insert_by_count_sorted x l :
  busiest_first l -> busiest_first (insert_by_count x l).
Proof.
  unfold busiest_first. induction 1 as [|y l Hl IH Hy]; simpl.
  - repeat constructor.
  - destruct (Nat.ltb_spec (count x) (count y)) as [Hlt|Hge].
    + constructor; [done|].
      apply List.Forall_forall. intros z Hz.
      apply (Permutation_in _ (insert_by_count_perm x l)) in Hz as [<-|Hz];
        [lia|].
      by apply (proj1 (List.Forall_forall _ _) Hy).
    + constructor; [by constructor|].
      constructor; [done|].
      apply List.Forall_forall. intros z Hz.
      pose proof (proj1 (List.Forall_forall _ _) Hy z Hz) as Hzy.
      simpl in Hzy. lia.
Qed.

Lemma sort_by_count_sorted l : busiest_first (sort_by_count l).
Proof.
  induction l as [|x l IH]; simpl; [constructor|].
  by apply insert_by_count_sorted.
Qed.

(** X24. Every call of [analyzeEvents] counts every event of the answer
    once more: after any number of calls the counts of the endpoints add
    up to the number of events of all answers together, also when the
    answers repeat events. Each endpoint was called at least once, has
    no more errors than calls, and a last call that is not negative. *)
Theorem analyzeEvents_counts_every_answer :
  forall answers : list (list HookStorage.StoredHookEvent),
    let self := after_calls template to_number answers in
    total_count (values self) = length (concat answers)
    /\ Forall (fun e => (1 <= count e)%nat /\ (errors e <= count e)%nat
                        /\ 0 <= lastCall e)
              (values self).
Proof.
  intros answers. cbv zeta. unfold after_calls.
  induction answers as [|evs answers IH] using rev_ind.
  - split; [done|constructor].
  - rewrite fold_left_app, concat_app, length_app. simpl.
    unfold values in *. simpl in *. destruct IH as [IHc IHs].
    rewrite total_count_fold, IHc, app_nil_r.
    split; [done|]. by apply (sound_fold evs _ IHs).
Qed.

(** X25. [analyzeEvents] groups by key: on a new monitor, a key has an
    endpoint exactly when some event falls under it; the endpoint counts
    these events, its errors count those of them with a status of 400 or
    more, its last call is their latest timestamp, and its url and
    method are those of the first of them. *)
Theorem analyzeEvents_groups_by_key :
  forall (events : list HookStorage.StoredHookEvent) (key : string),
    let self := fst (analyzeEvents template to_number create events) in
    let mine := under template key events in
    match map_get key (endpoints self), mine with
    | None, [] => True
    | Some e, first :: _ =>
        count e = length mine
        /\ errors e = length (List.filter (is_error to_number) mine)
        /\ lastCall e = latest mine
        /\ url e = or_else (HookStorage.url first) (JStr EmptyString)
        /\ method e = method_of first
    | _, _ => False
    end.
Proof.
  intros events key. cbv zeta. unfold analyzeEvents, create. cbn [fst endpoints].
  rewrite map_get_fold. cbn [map_get].
  destruct (under template key events) as [|u us]; [done|].
  change (fold_left absorb (u :: us) None)
    with (fold_left absorb us (Some (touch to_number (fresh_stats u) u))).
  destruct (absorb_fold us (touch to_number (fresh_stats u) u))
    as (e & -> & Hc & Hr & Hl & Hu & Hm).
  rewrite Hc, Hr, Hl, Hu, Hm. unfold latest.
  cbn [touch fresh_stats count errors lastCall url method List.filter length
       fold_left].
  destruct (is_error to_number u); cbn [length]; repeat split; lia.
Qed.

End MonitorProofs.

Section MonitorOrder.
Import APIMonitor Monitoring.

(** X26. [getTopEndpoints(limit)] returns the [limit] busiest endpoints,
    or all when there are fewer: the larger count first, and no endpoint
    left out has a larger count than one returned. *)
Theorem getTopEndpoints_are_the_busiest :
  forall (self : APIMonitor.t) (limit : nat),
    let top := getTopEndpoints self limit in
    busiest_first top
    /\ length top = Nat.min limit (length (values self))
    /\ exists rest,
         top ++ rest ≡ₚ values self
         /\ forall a b, In a top -> In b rest -> (count b <= count a)%nat.
Proof.
  intros self limit. cbv zeta. unfold getTopEndpoints, Array.slice0.
  pose proof (sort_by_count_sorted (values self)) as Hs.
  pose proof (sort_by_count_perm (values self)) as Hp.
  rewrite <- (take_drop limit (sort_by_count (values self))) in Hs.
  apply StronglySorted_app_inv in Hs as [Hs Hle].
  split; [done|]. split.
  - rewrite length_take, (Permutation_length Hp). lia.
  - exists (drop limit (sort_by_count (values self))).
    by rewrite take_drop.
Qed.

End MonitorOrder.

Section SplitProofs.
Import JS Split.

Lemma strip_prefix_spec sep s r : strip_prefix sep s = Some r -> s = sep +:+ r.
Proof.
  revert s. induction sep as [|c sep IH]; intros s; simpl.
  - by intros [= ->].
  - destruct s as [|c' s]; [done|].
    destruct (Ascii.eqb_spec c c') as [->|]; [|done].
    intros H. by rewrite (IH _ H).
Qed.

Lemma strip_prefix_self sep r : strip_prefix sep (sep +:+ r) = Some r.
Proof.
  induction sep as [|c sep IH]; simpl; [done|].
  by rewrite Ascii.eqb_refl.
Qed.

Lemma break_spec sep s :
  s = match snd (break sep s) with
      | Some r => fst (break sep s) +:+ sep +:+ r
      | None => fst (break sep s)
      end.
Proof.
  induction s as [|c s IH]; simpl.
  - destruct (strip_prefix sep EmptyString) as [r|] eqn:E; simpl; [|done].
    by apply strip_prefix_spec in E.
  - destruct (strip_prefix sep (String c s)) as [r|] eqn:E; simpl.
    + by apply strip_prefix_spec in E.
    + destruct (snd (break sep s)) as [r|];
        [change (String c s = String c (fst (break sep s) +:+ sep +:+ r))|];
        f_equal; exact IH.
Qed.

Lemma append_cons c a b : String c a +:+ b = String c (a +:+ b).
Proof. reflexivity. Qed.

Lemma append_empty_r a : a +:+ EmptyString = a.
Proof. induction a as [|c a IH]; [done|]. by rewrite append_cons, IH. Qed.

Lemma break_join sep s :
  fst (break sep s)
  +:+ match snd (break sep s) with
      | Some r => sep +:+ r
      | None => EmptyString
      end = s.
Proof.
  pose proof (break_spec sep s) as Hs.
  destruct (snd (break sep s)); [done|]. by rewrite append_empty_r.
Qed.

(** No occurrence of the separator before the first one. *)
Lemma break_clean sep s :
  sep <> EmptyString -> includes sep (fst (break sep s)) = false.
Proof.
  intros Hsep. induction s as [|c s IH]; simpl.
  - destruct (strip_prefix sep EmptyString); simpl; by destruct sep.
  - destruct (strip_prefix sep (String c s)) as [r|] eqn:E; simpl.
    + by destruct sep.
    + rewrite IH.
      destruct (strip_prefix sep (String c (fst (break sep s)))) as [r|] eqn:E';
        [|done].
      apply (strip_prefix_app _ _
               match snd (break sep s) with
               | Some r => sep +:+ r
               | None => EmptyString
               end) in E'.
      assert (Hs : String c (fst (break sep s))
                   +:+ match snd (break sep s) with
                       | Some r => sep +:+ r
                       | None => EmptyString
                       end = String c s).
      { change (String c ?a +:+ ?b) with (String c (a +:+ b)). f_equal.
        apply break_join. }
      rewrite Hs in E'. congruence.
Qed.

Lemma length_append a b :
  String.length (a +:+ b) = (String.length a + String.length b)%nat.
Proof.
  induction a as [|c a IH]; [done|].
  rewrite append_cons. simpl. by rewrite IH.
Qed.

Lemma break_shorter sep s r :
  sep <> EmptyString -> snd (break sep s) = Some r ->
  (String.length r < String.length s)%nat.
Proof.
  intros Hsep Hr. pose proof (break_spec sep s) as Hs. rewrite Hr in Hs.
  rewrite Hs, !length_append.
  destruct sep; [done|]. simpl. lia.
Qed.

(** A piece of a split holds no separator, and is part of the text. *)
Lemma split_fuel_pieces sep n s p :
  sep <> EmptyString -> (String.length s < n)%nat ->
  In p (split_fuel n sep s) ->
  includes sep p = false
  /\ forall k, includes k p = true -> includes k s = true.
Proof.
  intros Hsep. revert s.
  induction n as [|n IH]; intros s Hn; [lia|]. simpl.
  pose proof (break_clean sep s Hsep) as Hc.
  pose proof (break_spec sep s) as Hs.
  pose proof (break_shorter sep s) as Hl.
  destruct (break sep s) as [a [r|]]; simpl in *.
  - intros [<-|Hp].
    + split; [done|]. intros k Hk. rewrite Hs. by apply includes_app_l.
    + specialize (Hl r Hsep eq_refl).
      destruct (IH r ltac:(lia) Hp) as [H1 H2]. split; [done|].
      intros k Hk. rewrite Hs. by apply includes_app_r, includes_app_r, H2.
  - intros [<-|[]]. split; [done|]. intros k Hk. by rewrite Hs.
Qed.

Lemma split_pieces sep s p :
  sep <> EmptyString -> In p (split sep s) ->
  includes sep p = false
  /\ forall k, includes k p = true -> includes k s = true.
Proof. intros Hsep. apply split_fuel_pieces; [done|lia]. Qed.

(** More fuel than characters changes nothing. *)
Lemma split_fuel_enough sep n m s :
  sep <> EmptyString -> (String.length s < n)%nat -> (String.length s < m)%nat ->
  split_fuel n sep s = split_fuel m sep s.
Proof.
  intros Hsep. revert m s.
  induction n as [|n IH]; intros [|m] s Hn Hm; try lia. simpl.
  pose proof (break_shorter sep s) as Hl.
  destruct (break sep s) as [a [r|]]; simpl in *; [|done].
  specialize (Hl r Hsep eq_refl). f_equal. apply IH; lia.
Qed.

(** A text without the first character of the separator is the first
    piece, when the separator follows it. *)
Lemma break_first c sep a r :
  has_char c a = false ->
  break (String c sep) (a +:+ String c sep +:+ r) = (a, Some r).
Proof.
  induction a as [|x a IH]; intros Ha.
  - change (EmptyString +:+ ?b) with b.
    destruct r; simpl; by rewrite Ascii.eqb_refl, strip_prefix_self.
  - simpl in Ha. apply orb_false_iff in Ha as [Hx Ha].
    change (String x a +:+ ?b) with (String x (a +:+ b)).
    cbn [break strip_prefix]. rewrite Hx, (IH Ha). done.
Qed.

Lemma break_none sep s :
  includes sep s = false -> break sep s = (s, None).
Proof.
  induction s as [|c s IH]; simpl.
  - by destruct (strip_prefix sep EmptyString).
  - destruct (strip_prefix sep (String c s)); [done|].
    intros Hs. by rewrite (IH Hs).
Qed.

Lemma split_first c sep a r :
  has_char c a = false ->
  split (String c sep) (a +:+ String c sep +:+ r)
  = a :: split (String c sep) r.
Proof.
  intros Ha. unfold split.
  change (split_fuel (S ?n) ?p (a +:+ String c sep +:+ r))
    with (match break p (a +:+ String c sep +:+ r) with
          | (x, None) => [x]
          | (x, Some y) => x :: split_fuel n p y
          end).
  rewrite (break_first _ _ _ _ Ha).
  f_equal. apply split_fuel_enough; [done| |lia].
  rewrite !length_append. simpl. lia.
Qed.

Lemma split_none sep s : includes sep s = false -> split sep s = [s].
Proof.
  intros Hs. unfold split.
  change (split_fuel (S ?n) ?p s)
    with (match break p s with
          | (x, None) => [x]
          | (x, Some y) => x :: split_fuel n p y
          end).
  by rewrite (break_none _ _ Hs).
Qed.

Lemma has_char_includes c sep s :
  has_char c s = false -> includes (String c sep) s = false.
Proof.
  induction s as [|x s IH]; simpl; [done|].
  intros H. apply orb_false_iff in H as [Hx Hs].
  rewrite Hx. by apply IH.
Qed.

Lemma has_char_append c a b :
  has_char c (a +:+ b) = has_char c a || has_char c b.
Proof.
  induction a as [|x a IH]; [done|].
  rewrite append_cons. simpl. by rewrite IH, orb_assoc.
Qed.

End SplitProofs.

Section HeaderProofs.
Import JS Split XHRHeaders.

Lemma lower_char_idem c : lower_char (lower_char c) = lower_char c.
Proof. destruct c as [[] [] [] [] [] [] [] []]; reflexivity. Qed.

Lemma toLowerCase_idem s : toLowerCase (toLowerCase s) = toLowerCase s.
Proof.
  unfold toLowerCase. induction s as [|c s IH]; cbn [map_string]; [done|].
  by rewrite lower_char_idem, IH.
Qed.

(** What holds of every header the parser files. *)
Lemma parse_line_entries (P : string -> string -> Prop) headers line :
  (forall key value rest,
      split ": " line = key :: value :: rest ->
      key <> EmptyString -> value <> EmptyString ->
      toLowerCase key <> "__proto__" ->
      P (toLowerCase key) value) ->
  (forall k v, headers !! k = Some v -> P k v) ->
  forall k v, parse_line headers line !! k = Some v -> P k v.
Proof.
  intros Hline Hh k v. unfold parse_line.
  destruct (split ": " line) as [|key [|value rest]]; [by apply Hh..|].
  destruct key as [|c key]; [by apply Hh|].
  destruct value as [|d value]; [by apply Hh|].
  cbn [truthy_string andb]. unfold obj_set.
  destruct (String.eqb_spec (toLowerCase (String c key)) "__proto__") as [E|E];
    [by apply Hh|].
  destruct (decide (k = toLowerCase (String c key))) as [->|Hne].
  - rewrite lookup_insert_eq. intros [= <-]. by apply (Hline _ _ rest).
  - rewrite lookup_insert_ne by done. apply Hh.
Qed.

Lemma fold_parse_line_entries (P : string -> string -> Prop) lines headers :
  (forall line key value rest,
      In line lines ->
      split ": " line = key :: value :: rest ->
      key <> EmptyString -> value <> EmptyString ->
      toLowerCase key <> "__proto__" ->
      P (toLowerCase key) value) ->
  (forall k v, headers !! k = Some v -> P k v) ->
  forall k v, fold_left parse_line lines headers !! k = Some v -> P k v.
Proof.
  revert headers. induction lines as [|line lines IH]; intros headers Hl Hh;
    [done|].
  cbn [fold_left]. apply IH.
  - intros l key value rest Hin. apply Hl. by right.
  - apply (parse_line_entries P); [|done].
    intros key value rest. apply Hl. by left.
Qed.

(** X27. What [parseResponseHeaders] files: every name is in lower case
    and not empty, every value is not empty, holds no colon followed by
    a space (a value is cut there) and no line end. *)
Theorem parseResponseHeaders_entries :
  forall (headersString k v : string),
    parseResponseHeaders headersString !! k = Some v ->
    k <> EmptyString /\ toLowerCase k = k /\ k <> "__proto__"
    /\ v <> EmptyString
    /\ includes ": " v = false /\ includes CRLF v = false.
Proof.
  intros s k v. unfold parseResponseHeaders.
  destruct (negb (truthy_string s)); [by rewrite lookup_empty|].
  apply (fold_parse_line_entries
           (fun k v => k <> EmptyString /\ toLowerCase k = k /\ k <> "__proto__"
                       /\ v <> EmptyString
                       /\ includes ": " v = false /\ includes CRLF v = false));
    [|by intros ? ?; rewrite lookup_empty].
  intros line key value rest Hin Hsplit Hkey Hvalue Hproto.
  destruct (split_pieces CRLF s line ltac:(done) Hin) as [Hline _].
  assert (Hv : In value (split ": " line)) by (rewrite Hsplit; simpl; auto).
  destruct (split_pieces ": " line value ltac:(done) Hv) as [Hclean Hpart].
  repeat split; try done.
  - by destruct key.
  - apply toLowerCase_idem.
  - destruct (includes CRLF value) eqn:E; [|done].
    rewrite (Hpart _ E) in Hline. done.
Qed.

Lemma split_header_line kv :
  plain kv -> split ": " (header_line kv) = [fst kv; snd kv].
Proof.
  intros (_ & Hk & _ & _ & _ & Hv). unfold header_line.
  rewrite (split_first ":" " " _ _ Hk). by rewrite (split_none _ _ Hv).
Qed.

Lemma split_serialise hs :
  Forall plain hs ->
  split CRLF (serialise hs) = List.map header_line hs ++ [EmptyString].
Proof.
  induction 1 as [|kv hs Hkv Hhs IH]; [done|].
  cbn [serialise List.map app]. unfold CRLF at 1.
  rewrite split_first; [by rewrite <- IH|].
  destruct Hkv as (_ & _ & Hk & _ & Hv & _). unfold header_line.
  rewrite !has_char_append, Hk, Hv. done.
Qed.

Lemma parse_header_line headers kv :
  plain kv ->
  parse_line headers (header_line kv)
  = obj_set (toLowerCase (fst kv)) (snd kv) headers.
Proof.
  intros Hkv. unfold parse_line. rewrite (split_header_line _ Hkv).
  destruct Hkv as (Hk & _ & _ & Hv & _).
  destruct (fst kv); [done|]. by destruct (snd kv).
Qed.

(** X28. Round trip: the header block of plain headers, one line each
    ended by CR LF, is read back header by header, names in lower case,
    the later of two lines with the same name winning. *)
Theorem parseResponseHeaders_reads_back :
  forall hs : list (string * string),
    Forall plain hs ->
    parseResponseHeaders (serialise hs)
    = fold_left (fun headers kv => obj_set (toLowerCase (fst kv)) (snd kv) headers)
                hs ∅.
Proof.
  intros hs Hhs. unfold parseResponseHeaders.
  destruct (truthy_string (serialise hs)) eqn:E; cbn [negb].
  2:{ destruct hs as [|kv hs]; [done|].
      apply Forall_inv in Hhs. destruct Hhs as (Hk & _).
      simpl in E. unfold header_line in E. by destruct (fst kv). }
  rewrite (split_serialise _ Hhs), fold_left_app. cbn [fold_left].
  change (parse_line ?h EmptyString) with h.
  clear E. generalize (∅ : gmap string string).
  induction Hhs as [|kv hs Hkv Hhs IH]; intros headers; [done|].
  cbn [List.map fold_left]. by rewrite (parse_header_line _ _ Hkv), IH.
Qed.

End HeaderProofs.

Section HeaderExamples.
Import JS Split XHRHeaders.

Lemma parseResponseHeaders_entries_witness :
  parseResponseHeaders (serialise two_headers) !! "content-type"
  = Some "application/json"
  /\ ("content-type" <> EmptyString
      /\ toLowerCase "content-type" = "content-type"
      /\ "content-type" <> "__proto__"
      /\ "application/json" <> EmptyString
      /\ includes ": " "application/json" = false
      /\ includes CRLF "application/json" = false).
Proof.
  assert (H : parseResponseHeaders (serialise two_headers) !! "content-type"
              = Some "application/json") by (vm_compute; reflexivity).
  split; [exact H|].
  exact (parseResponseHeaders_entries _ _ _ H).
Defined.

Lemma parseResponseHeaders_reads_back_witness :
  parseResponseHeaders (serialise two_headers)
  = {[ "content-type" := "application/json";
       "date" := "Tue, 03 Nov 2026 10:00:00 GMT" ]}.
Proof.
  rewrite (parseResponseHeaders_reads_back two_headers).
  - vm_compute. reflexivity.
  - repeat constructor; by vm_compute.
Defined.

End HeaderExamples.

Section StoredQueryProofs.
Import HookStorage HookQueries StoredQueries.

Lemma same_source_eq a b : same_source a b = true -> a = b.
Proof. by destruct a, b. Qed.

Lemma keep_true filters event :
  keep filters event = Return true ->
  wrong_source filters event = false
  /\ wrong_url filters event = Return false
  /\ too_early filters event = false
  /\ too_late filters event = false.
Proof.
  unfold keep. destruct (wrong_source filters event); [done|].
  destruct (wrong_url filters event) as [[|]|]; simpl; try done.
  destruct (too_early filters event); [done|].
  by destruct (too_late filters event).
Qed.

Lemma keep_passes filters event :
  keep filters event = Return true -> passes filters event.
Proof.
  intros H. apply keep_true in H as (Hs & Hu & Ha & Hb).
  unfold passes. repeat split.
  - intros s E. unfold wrong_source in Hs. rewrite E in Hs.
    apply same_source_eq. by destruct (same_source (source event) s).
  - intros u s E Hne Hurl Hs'. unfold wrong_url, some_text in Hu.
    rewrite E, Hurl in Hu. destruct u; [done|]. destruct s; [done|].
    cbn [JS.truthy_string JS.truthy url_includes mbind Exc_bind mret Exc_ret]
      in Hu.
    by destruct (JS.includes (String a u) (String a0 s)).
  - intros n E Hne. unfold too_early, some_number in Ha. rewrite E in Ha.
    destruct (Z.eqb_spec n 0); [done|]. by apply Z.ltb_ge.
  - intros n E Hne. unfold too_late, some_number in Hb. rewrite E in Hb.
    destruct (Z.eqb_spec n 0); [done|]. by apply Z.ltb_ge.
Qed.

Lemma filter_events_all f l :
  Forall (fun e => f e = Return true) l -> filter_events f l = Return l.
Proof.
  induction 1 as [|e l He _ IH]; simpl; [done|]. by rewrite He, IH.
Qed.

(** X29. [getEvents] with filters selects and never rearranges: what it
    returns is a subsequence of the stored events, each from the source
    asked for, with a url that holds the text asked for, and inside the
    time window.  Without filters everything is returned.  An event
    without a url passes every url filter, and a start or end time of
    [0] is no bound. *)
Theorem getEvents_filters_select :
  forall (stored : option (list StoredHookEvent)) (filters : Filters),
    (forall r, getEvents stored (Some filters) = Return r ->
       sublist r (getEvents_all stored) /\ Forall (passes filters) r)
    /\ getEvents stored None = Return (getEvents_all stored)
    /\ (Forall (fun e => JS.truthy (url e) = false) (getEvents_all stored) ->
        forall u, getEvents stored (Some (only_url u))
                  = Return (getEvents_all stored))
    /\ (f_source filters = None -> f_url filters = None ->
        some_number (startTime filters) = None ->
        some_number (endTime filters) = None ->
        getEvents stored (Some filters) = Return (getEvents_all stored)).
Proof.
  intros stored filters. unfold getEvents, getEvents_all. repeat split.
  - by apply filter_events_sound in H as [? ?].
  - apply filter_events_sound in H as [_ Hall].
    eapply Forall_impl; [exact Hall|]. apply keep_passes.
  - intros Hall u. apply filter_events_all.
    eapply Forall_impl; [exact Hall|]. simpl. intros e He.
    unfold keep, wrong_source, wrong_url, too_early, too_late, only_url.
    cbn [f_source f_url startTime endTime some_number].
    destruct (some_text (Some u)); [|done]. by rewrite He.
  - intros Hs Hu Ha Hb. apply filter_events_all.
    apply List.Forall_forall. intros e _.
    unfold keep, wrong_source, wrong_url, too_early, too_late.
    by rewrite Hs, Hu, Ha, Hb.
Qed.

End StoredQueryProofs.

Section StoredQueryExamples.
Import HookStorage HookQueries StoredQueries.

Lemma getEvents_filters_select_witness :
  getEvents (Some [stored_sample 5 (JStr "https://a.example/x");
                   stored_sample 9 JUndefined])
            (Some (since 0))
  = Return [stored_sample 5 (JStr "https://a.example/x");
            stored_sample 9 JUndefined].
Proof.
  apply (proj2 (proj2 (proj2 (getEvents_filters_select
          (Some [stored_sample 5 (JStr "https://a.example/x");
                 stored_sample 9 JUndefined])
          (since 0))))); reflexivity.
Defined.

End StoredQueryExamples.
